(** * Training-dynamics metrics and category-based label remediation

    A shallow embedding of the decision logic of
    - [sequence_tagger_model.py]: the per-token metric bookkeeping of
      [SequenceTaggerTokenMetrics] and the layer-agreement metrics of
      [EarlyExitSequenceTagger];
    - [pipeline_sample_metrics_token_categories.py]: the category test and
      the mask / relabel passes that [run_experiment] schedules.

    Python exceptions (IndexError, KeyError, ZeroDivisionError) are modelled
    by [None] in the option monad. *)

From Stdlib Require Import Reals Lra Lia ZArith QArith List.
From Stdlib Require Import String Ascii DecimalString Sorted.
From stdpp Require Import base option list strings gmap.

#[local] Open Scope Z_scope.
#[local] Open Scope string_scope.
#[local] Open Scope list_scope.

(** ** Python string primitives used by both modules *)

Module PyStr.

(** [s.split(sep)] for a one-character separator: the pieces between
    consecutive separators, empty pieces included. *)
Fixpoint split (sep : ascii) (s : string) : list string :=
  match s with
  | EmptyString => [EmptyString]
  | String c s' =>
      if Ascii.eqb c sep then EmptyString :: split sep s'
      else match split sep s' with
           | [] => [String c EmptyString]
           | p :: ps => String c p :: ps
           end
  end.

(** [''.join(l)] *)
Definition join (l : list string) : string :=
  fold_right String.append EmptyString l.

(** [s.endswith(suffix)] *)
Definition endswith (s suffix : string) : bool :=
  let n := String.length s in
  let k := String.length suffix in
  (k <=? n)%nat && String.eqb (String.substring (n - k) k s) suffix.

(** [str(int(z))] *)
Definition str_int (z : Z) : string :=
  NilZero.string_of_int (Z.to_int z).

(** [c.isspace()] on the ASCII characters: tab to carriage return, the
    four separators and the space. *)
Definition isspace (c : ascii) : bool :=
  let n := nat_of_ascii c in
  ((9 <=? n) && (n <=? 13) || (28 <=? n) && (n <=? 31) || (n =? 32))%nat.

Fixpoint lstrip (s : string) : string :=
  match s with
  | EmptyString => EmptyString
  | String c s' => if isspace c then lstrip s' else s
  end.

Fixpoint rstrip (s : string) : string :=
  match s with
  | EmptyString => EmptyString
  | String c s' =>
      match rstrip s' with
      | EmptyString => if isspace c then EmptyString else String c EmptyString
      | kept => String c kept
      end
  end.

(** [s.strip()] *)
Definition strip (s : string) : string := lstrip (rstrip s).

End PyStr.

(** ** Floating-point values as numpy and torch produce them

    A value is a finite real, an infinity or NaN.  Arithmetic on finite
    values is exact (rounding and overflow are outside the model); the
    special values follow IEEE 754 as numpy applies it: [log 0 = -inf],
    [x / 0 = ±inf], [inf - inf = NaN], and so on.  There is no signed
    zero. *)

Module NpFloat.

#[local] Open Scope R_scope.

Inductive npfloat : Type :=
| Fin (r : R)
| PInf
| NInf
| NaN.

(** Largest finite value of the dtype the scores are stored in
    (torch's default, float32): (2 - 2^-23) * 2^127. *)
Definition float_max : R := (2 - / 2 ^ 23) * 2 ^ 127.

Definition of_Z (z : Z) : npfloat := Fin (IZR z).

(** The infinity (or NaN) carrying the sign of [s]. *)
Definition inf_of_sign (s : R) : npfloat :=
  if Rlt_dec 0 s then PInf else if Rlt_dec s 0 then NInf else NaN.

Definition sgn (a : npfloat) : R :=
  match a with
  | Fin r => r
  | PInf => 1
  | NInf => -1
  | NaN => 0
  end.

Definition fneg (a : npfloat) : npfloat :=
  match a with
  | Fin r => Fin (- r)
  | PInf => NInf
  | NInf => PInf
  | NaN => NaN
  end.

Definition fadd (a b : npfloat) : npfloat :=
  match a, b with
  | NaN, _ | _, NaN => NaN
  | Fin x, Fin y => Fin (x + y)
  | PInf, NInf | NInf, PInf => NaN
  | PInf, _ | _, PInf => PInf
  | NInf, _ | _, NInf => NInf
  end.

Definition fsub (a b : npfloat) : npfloat := fadd a (fneg b).

Definition fmul (a b : npfloat) : npfloat :=
  match a, b with
  | NaN, _ | _, NaN => NaN
  | Fin x, Fin y => Fin (x * y)
  | _, _ => inf_of_sign (sgn a * sgn b)
  end.

Definition fdiv (a b : npfloat) : npfloat :=
  match a, b with
  | NaN, _ | _, NaN => NaN
  | Fin x, Fin y => if Req_dec_T y 0 then inf_of_sign x else Fin (x / y)
  | Fin _, _ => Fin 0
  | _, Fin y => inf_of_sign (sgn a * (if Req_dec_T y 0 then 1 else y))
  | _, _ => NaN
  end.

(** [np.square] *)
Definition fsquare (a : npfloat) : npfloat := fmul a a.

(** [np.sqrt] *)
Definition fsqrt (a : npfloat) : npfloat :=
  match a with
  | Fin r => if Rlt_dec r 0 then NaN else Fin (sqrt r)
  | PInf => PInf
  | NInf | NaN => NaN
  end.

(** [np.log] / [torch.log] *)
Definition flog (a : npfloat) : npfloat :=
  match a with
  | Fin r => if Rlt_dec 0 r then Fin (ln r)
             else if Req_dec_T r 0 then NInf else NaN
  | PInf => PInf
  | NInf | NaN => NaN
  end.

Definition fexp (a : npfloat) : npfloat :=
  match a with
  | Fin r => Fin (exp r)
  | PInf => PInf
  | NInf => Fin 0
  | NaN => NaN
  end.

(** [np.isinf] *)
Definition isinf (a : npfloat) : bool :=
  match a with
  | PInf | NInf => true
  | _ => false
  end.

(** [np.nan_to_num] / [torch.nan_to_num] with default arguments: NaN
    becomes zero, an infinity becomes the largest finite value of its
    sign. *)
Definition nan_to_num (a : npfloat) : npfloat :=
  match a with
  | Fin r => Fin r
  | PInf => Fin float_max
  | NInf => Fin (- float_max)
  | NaN => Fin 0
  end.

(** [a == b] *)
Definition feqb (a b : npfloat) : bool :=
  match a, b with
  | Fin x, Fin y => if Req_dec_T x y then true else false
  | PInf, PInf | NInf, NInf => true
  | _, _ => false
  end.

(** The order sorting and argmax use: [-inf < finite < +inf < NaN] (both
    numpy's sort and torch's argmax rank NaN above every number). *)
Definition fltb (a b : npfloat) : bool :=
  match a, b with
  | NaN, _ => false
  | _, NaN => true
  | _, NInf => false
  | NInf, _ => true
  | PInf, _ => false
  | _, PInf => true
  | Fin x, Fin y => if Rlt_dec x y then true else false
  end.

(** [np.sum] of a one-dimensional array *)
Definition fsum (l : list npfloat) : npfloat :=
  fold_left fadd l (Fin 0).

(** The larger of two values; NaN if one of them is. *)
Definition fmax (a b : npfloat) : npfloat :=
  match a, b with
  | NaN, _ | _, NaN => NaN
  | _, _ => if fltb a b then b else a
  end.

(** [row.max()] *)
Definition row_max (row : list npfloat) : npfloat :=
  match row with
  | [] => NInf
  | x :: rest => fold_left fmax rest x
  end.

(** [F.softmax] along the last axis, as torch computes it:
    [exp(x_i - max) / sum_j exp(x_j - max)].  On finite scores this is
    [exp(x_i) / sum_j exp(x_j)]; a row with a +inf or NaN score, or of
    -inf scores only, becomes a row of NaN. *)
Definition softmax (row : list npfloat) : list npfloat :=
  let m := row_max row in
  let e := map (fun x => fexp (fsub x m)) row in
  map (fun x => fdiv x (fsum e)) e.

(** Stable ascending insertion of index [i] into a list of indices sorted
    by [key]. *)
Fixpoint insert_index (key : nat -> npfloat) (i : nat) (sorted : list nat)
  : list nat :=
  match sorted with
  | [] => [i]
  | j :: rest =>
      if fltb (key i) (key j) then i :: j :: rest
      else j :: insert_index key i rest
  end.

(** [np.argsort]: the indices that sort the array in ascending order
    (ties keep their order, as numpy's sort of short arrays does). *)
Definition argsort (a : list npfloat) : list nat :=
  fold_left (fun sorted i => insert_index (fun k => nth k a NaN) i sorted)
            (seq 0 (length a)) [].

(** [torch.argmax] along the last axis: the first index holding the
    largest value; undefined on an empty row. *)
Fixpoint argmax_from (i : nat) (best : nat) (bestv : npfloat)
  (l : list npfloat) : nat :=
  match l with
  | [] => best
  | x :: rest =>
      if fltb bestv x then argmax_from (S i) i x rest
      else argmax_from (S i) best bestv rest
  end.

Definition argmax (l : list npfloat) : option nat :=
  match l with
  | [] => None
  | x :: rest => Some (argmax_from 1 0%nat x rest)
  end.

End NpFloat.

(** ** sequence_tagger_model.py *)

Module SequenceTaggerModel.

Import NpFloat.

(** *** MILD: memorization and forgetting *)

Definition calculate_mild_f (prediction_correct_flags : list Z) : Z :=
  let flags_string := PyStr.join (map PyStr.str_int prediction_correct_flags) in
  let forgetting_list :=
    filter (fun item => negb (String.eqb item ""))
           (PyStr.split "0"%char flags_string) in
  if negb (Nat.eqb (length forgetting_list) 0)
  then Z.of_nat (String.length (PyStr.join forgetting_list))
  else 0.

Definition calculate_mild_m (prediction_correct_flags : list Z) : Z :=
  let flags_string := PyStr.join (map PyStr.str_int prediction_correct_flags) in
  let memorization_list :=
    filter (fun item => negb (String.eqb item ""))
           (PyStr.split "1"%char flags_string) in
  if negb (Nat.eqb (length memorization_list) 0)
  then Z.of_nat (String.length (PyStr.join memorization_list))
  else 0.

(** *** Per-token history and metrics

    The fields of [metrics_history_variables_list], as stored on a token
    by [set_metric], and of [metrics_list]. *)

Record History : Type := mkHistory {
  last_prediction : Z;
  last_confidence_sum : npfloat;
  last_sq_difference_sum : npfloat;
  last_correctness_sum : Z;
  last_iteration : Z;
  hist_prediction : list Z;
  hist_MILD : list Z;
  total_epochs : Z
}.

Record Metrics : Type := mkMetrics {
  confidence : npfloat;
  variability : npfloat;
  correctness : npfloat;
  msp : npfloat;
  BvSB : npfloat;
  cross_entropy : npfloat;
  entropy : npfloat;
  iter_norm : npfloat;
  pehist : npfloat;
  mild_m : Z;
  mild_f : Z;
  mild : Z
}.

(** The history [_init_metrics_logging] stores on every token of a batch
    whose first token has none yet. *)
Definition _init_metrics_logging (tagset_size : nat) : History :=
  {| last_prediction := -1;
     last_confidence_sum := of_Z 0;
     last_sq_difference_sum := of_Z 0;
     last_correctness_sum := 0;
     last_iteration := 0;
     total_epochs := 0;
     hist_prediction := repeat 0 tagset_size;
     hist_MILD := [0] |}.

(** [self.max_certainty = -np.log(1.0 / float(self.tagset_size))] *)
Definition max_certainty (tagset_size : nat) : npfloat :=
  fneg (flog (fdiv (Fin 1) (of_Z (Z.of_nat tagset_size)))).

(** Python's [a / b] on two ints: a float, or ZeroDivisionError. *)
Definition int_truediv (a b : Z) : option npfloat :=
  if Z.eqb b 0 then None else Some (Fin (IZR a / IZR b)).

(** [int(b)] for a bool *)
Definition int_of_bool (b : bool) : Z := if b then 1 else 0.

(** One iteration of the loop of [_calculate_metrics]: the metrics of one
    token for this epoch and its updated history.  [softmax_token] is the
    token's row of [F.softmax(scores)].  The prediction counts are the
    token's own list, incremented in place, and [_log_metrics] stores that
    list back; the correctness history is copied before the flag is
    appended. *)
Definition calculate_metrics_token (tagset_size : nat)
    (history : History) (softmax_token : list npfloat) (gold_label : nat)
  : option (Metrics * History) :=
  let top_2_indices_argmax := take 2 (rev (argsort softmax_token)) in
  prediction ← top_2_indices_argmax !! 0%nat;
  let total_epochs := total_epochs history + 1 in
  probability_of_predicted_label ← softmax_token !! prediction;
  second ← top_2_indices_argmax !! 1%nat;
  probability_of_second_ranked_prediction ← softmax_token !! second;
  probability_of_true_label ← softmax_token !! gold_label;
  let BvSB :=
    fsub probability_of_predicted_label
         probability_of_second_ranked_prediction in
  (* Confidence *)
  let confidence_sum :=
    fadd (last_confidence_sum history) probability_of_true_label in
  let confidence := fdiv confidence_sum (of_Z total_epochs) in
  (* Variability *)
  let sq_difference_sum :=
    fadd (last_sq_difference_sum history)
         (fsquare (fsub probability_of_true_label confidence)) in
  let variability := fsqrt (fdiv sq_difference_sum (of_Z total_epochs)) in
  (* Correctness *)
  let correctness_sum :=
    last_correctness_sum history
    + int_of_bool (Nat.eqb gold_label prediction) in
  correctness ← int_truediv correctness_sum total_epochs;
  (* Iteration learned *)
  let prediction_changed :=
    negb (Z.eqb (Z.of_nat prediction) (last_prediction history)) in
  let last_iteration :=
    if prediction_changed then total_epochs else last_iteration history in
  iter_norm ← int_truediv last_iteration total_epochs;
  (* Entropy of prediction history *)
  count ← hist_prediction history !! prediction;
  let count_predictions_history :=
    <[prediction := count + 1]> (hist_prediction history) in
  frequencies_prediction_history ←
    mapM (fun x => int_truediv x total_epochs) count_predictions_history;
  let log_of_frequencies :=
    map (fun l => if isinf l then of_Z 0 else l)
        (map flog frequencies_prediction_history) in
  let entropy_prediction_history :=
    zip_with fmul frequencies_prediction_history log_of_frequencies in
  let pe_hist_entropy :=
    fdiv (fneg (fsum entropy_prediction_history))
         (max_certainty tagset_size) in
  let pe_hist_entropy :=
    if feqb pe_hist_entropy (of_Z 0) then Fin 0 else pe_hist_entropy in
  (* MILD *)
  let mild_history := hist_MILD history in
  let prediction_correct := int_of_bool (Nat.eqb prediction gold_label) in
  let mild_history_new := mild_history ++ [prediction_correct] in
  let mild_m := calculate_mild_m mild_history_new in
  let mild_f := calculate_mild_f mild_history_new in
  let mild := mild_m - mild_f in
  (* predictive entropy *)
  let entropy :=
    fneg (fsum (zip_with fmul softmax_token
                         (map (fun p => nan_to_num (flog p)) softmax_token))) in
  (* cross entropy *)
  let cross_entropy := fneg (nan_to_num (flog probability_of_true_label)) in
  let cross_entropy :=
    if feqb cross_entropy (of_Z 0) then Fin 0 else cross_entropy in
  Some ({| confidence := confidence;
           variability := variability;
           correctness := correctness;
           msp := probability_of_predicted_label;
           BvSB := BvSB;
           cross_entropy := cross_entropy;
           entropy := entropy;
           iter_norm := iter_norm;
           pehist := pe_hist_entropy;
           mild_m := mild_m;
           mild_f := mild_f;
           mild := mild |},
        {| last_prediction := Z.of_nat prediction;
           last_confidence_sum := confidence_sum;
           last_sq_difference_sum := sq_difference_sum;
           last_correctness_sum := correctness_sum;
           last_iteration := last_iteration;
           hist_prediction := count_predictions_history;
           hist_MILD := mild_history_new;
           total_epochs := total_epochs |}).

(** The loop of [_calculate_metrics] over the tokens of a batch: token
    [token_index] reads position [token_index] of every history list and of
    [gold_labels]. *)
Fixpoint calculate_metrics_loop (tagset_size : nat)
    (history_metrics : list History) (softmax : list (list npfloat))
    (gold_labels : list nat) {struct softmax}
  : option (list Metrics * list History) :=
  match softmax with
  | [] => Some ([], [])
  | softmax_token :: softmax' =>
      match history_metrics, gold_labels with
      | history :: history_metrics', gold_label :: gold_labels' =>
          '(m, h) ← calculate_metrics_token tagset_size history
                      softmax_token gold_label;
          '(ms, hs) ← calculate_metrics_loop tagset_size history_metrics'
                        softmax' gold_labels';
          Some (m :: ms, h :: hs)
      | _, _ => None
      end
  end.

(** [SequenceTaggerTokenMetrics._calculate_metrics]: predicted labels,
    metrics and updated histories of a batch. *)
Definition _calculate_metrics (tagset_size : nat)
    (history_metrics : list History) (scores : list (list npfloat))
    (gold_labels : list nat)
  : option (list nat * list Metrics * list History) :=
  let softmax := map softmax scores in
  predicted_labels ← mapM argmax softmax;
  '(metrics, updated) ← calculate_metrics_loop tagset_size history_metrics
                          softmax gold_labels;
  Some (predicted_labels, metrics, updated).

(** [calculate_and_log_metrics] on the tokens of one batch, each carrying
    its history or none yet: initialise (all tokens, when the first has no
    history), read the histories, compute, and store the updated history
    on every token ([_log_metrics]).  The lines appended to the epoch log
    are the returned metrics. *)
Definition calculate_and_log_metrics (tagset_size : nat)
    (tokens : list (option History)) (scores : list (list npfloat))
    (observed_labels : list nat)
  : option (list Metrics * list (option History)) :=
  first ← tokens !! 0%nat;
  let tokens :=
    match first with
    | None => map (fun _ => Some (_init_metrics_logging tagset_size)) tokens
    | Some _ => tokens
    end in
  history_metrics ← mapM (fun history => history) tokens;
  '(pred, metrics, updated) ← _calculate_metrics tagset_size history_metrics
                                scores observed_labels;
  if negb (Nat.eqb (length updated) (length tokens)) then None
  else Some (metrics, map Some updated).

(** The prediction of the loop body, [top_2_indices_argmax[0]], and the
    flag [int(prediction == gold_label)] it appends to the history. *)
Definition prediction_of (softmax_token : list npfloat) : option nat :=
  take 2 (rev (argsort softmax_token)) !! 0%nat.

Definition prediction_correct (softmax_token : list npfloat)
    (gold_label : nat) : option Z :=
  prediction ← prediction_of softmax_token;
  Some (int_of_bool (Nat.eqb prediction gold_label)).

(** One token over consecutive epochs: every epoch the token's scores and
    observed label go through [_calculate_metrics] once and [_log_metrics]
    stores the updated history on the token.  The result is the metrics
    logged per epoch and the history after the last one. *)
Fixpoint token_epochs (tagset_size : nat) (history : History)
    (epochs : list (list npfloat * nat)) : option (list Metrics * History) :=
  match epochs with
  | [] => Some ([], history)
  | (scores, gold_label) :: epochs' =>
      '(m, h) ← calculate_metrics_token tagset_size history
                  (softmax scores) gold_label;
      '(ms, h') ← token_epochs tagset_size h epochs';
      Some (m :: ms, h')
  end.

(** *** Layer metrics of the early-exit tagger *)

Record LayerMetrics : Type := mkLayerMetrics {
  prediction_depth : Z;
  first_layer : Z;
  layer_entropy : npfloat;
  total_agree_w_last : Z;
  total_agree_w_correct : Z
}.

(** The loop variables of [_calculate_layer_metrics]. *)
Record LayerState : Type := mkLayerState {
  pd : Z;
  final_pd : bool;
  fl : Z;
  agree_w_last : Z;
  agree_w_correct : Z
}.

(** The body of the loop for layer [i]. *)
Definition layer_step (pred_labels : list nat) (gold_label : nat)
    (st : LayerState) (i : nat) : option LayerState :=
  pred_i ← pred_labels !! i;
  let st :=
    if Nat.eqb pred_i gold_label
    then {| pd := pd st; final_pd := final_pd st; fl := Z.of_nat i;
            agree_w_last := agree_w_last st;
            agree_w_correct := agree_w_correct st + 1 |}
    else st in
  pred_last ← last pred_labels;
  Some (if Nat.eqb pred_i pred_last
        then {| pd := if negb (final_pd st) then pd st - 1 else pd st;
                final_pd := final_pd st; fl := fl st;
                agree_w_last := agree_w_last st + 1;
                agree_w_correct := agree_w_correct st |}
        else {| pd := pd st; final_pd := true; fl := fl st;
                agree_w_last := agree_w_last st;
                agree_w_correct := agree_w_correct st |}).

(** [for i in ...: body], threading the loop variables. *)
Fixpoint layer_loop (pred_labels : list nat) (gold_label : nat)
    (st : LayerState) (indices : list nat) : option LayerState :=
  match indices with
  | [] => Some st
  | i :: indices' =>
      st' ← layer_step pred_labels gold_label st i;
      layer_loop pred_labels gold_label st' indices'
  end.

(** [torch.bincount(pred_labels, minlength=num_labels)] *)
Definition bincount (pred_labels : list nat) (minlength : nat) : list Z :=
  let size :=
    match pred_labels with
    | [] => minlength
    | _ => Nat.max minlength (S (fold_right Nat.max 0%nat pred_labels))
    end in
  map (fun v => Z.of_nat (length (filter (Nat.eqb v) pred_labels)))
      (seq 0 size).

(** [EarlyExitSequenceTagger._calculate_layer_metrics]: [scores] holds one
    distribution per layer for one token; [n_layers] is [self.n_layers]
    and [num_labels] is [len(self.label_dictionary)]. *)
Definition _calculate_layer_metrics (n_layers num_labels : nat)
    (scores : list (list npfloat)) (gold_label : nat)
  : option LayerMetrics :=
  pred_labels ← mapM argmax scores;
  let counts := bincount pred_labels num_labels in
  let total := of_Z (fold_right Z.add 0 counts) in
  let frequencies := map (fun c => fdiv (of_Z c) total) counts in
  let layer_entropy :=
    fneg (fsum (zip_with fmul frequencies
                         (map (fun f => nan_to_num (flog f)) frequencies))) in
  let layer_entropy :=
    if feqb layer_entropy (of_Z 0) then Fin 0 else layer_entropy in
  st ← layer_loop pred_labels gold_label
         {| pd := Z.of_nat n_layers; final_pd := false;
            fl := Z.of_nat n_layers;
            agree_w_last := 0; agree_w_correct := 0 |}
         (rev (seq 0 n_layers));
  Some {| prediction_depth := pd st;
          first_layer := fl st;
          layer_entropy := layer_entropy;
          total_agree_w_last := agree_w_last st;
          total_agree_w_correct := agree_w_correct st |}.

End SequenceTaggerModel.

(** ** pipeline_sample_metrics_token_categories.py *)

Module Pipeline.

(** *** The flair data points the pipeline reads and writes

    A token carries, per label type, the list of its labels' values
    ([add_label] appends, [set_label] replaces, [get_label] reads the first
    or the default "O"), and named metrics.  A sentence carries its tokens
    and, per span (first and last token index) and label type, the
    span's label as a value and a score.  Metric values are the decimal
    numerals of an epoch log and thresholds those of a configuration, so
    both are rationals. *)

Record Token : Type := mkToken {
  text : string;
  labels : gmap string (list string);
  metrics : gmap string Q
}.

Record Sentence : Type := mkSentence {
  tokens : list Token;
  spans : gmap (nat * nat) (gmap string (string * Q))
}.

Definition get_label (token : Token) (typename : string) : string :=
  match labels token !! typename with
  | Some (value :: _) => value
  | _ => "O"
  end.

Definition set_label (token : Token) (typename value : string) : Token :=
  {| text := text token;
     labels := <[typename := [value]]> (labels token);
     metrics := metrics token |}.

Definition add_label (token : Token) (typename value : string) : Token :=
  {| text := text token;
     labels := <[typename := default [] (labels token !! typename) ++ [value]]>
                 (labels token);
     metrics := metrics token |}.

Definition get_metric (token : Token) (metric : string) : option Q :=
  metrics token !! metric.

Definition set_metric (token : Token) (metric : string) (value : Q) : Token :=
  {| text := text token;
     labels := labels token;
     metrics := <[metric := value]> (metrics token) |}.

(** [sent[first : last + 1].set_label(typename, value, score)] *)
Definition span_set_label (sent : Sentence) (first last : nat)
    (typename value : string) (score : Q) : Sentence :=
  {| tokens := tokens sent;
     spans := <[(first, last) :=
                 <[typename := (value, score)]>
                   (default ∅ (spans sent !! (first, last)))]> (spans sent) |}.

Definition with_tokens (sent : Sentence) (toks : list Token) : Sentence :=
  {| tokens := toks; spans := spans sent |}.

Definition Qltb (a b : Q) : bool := negb (Qle_bool b a).

(** *** Categories *)

Definition category_conditions (category_id : string) : option (bool * bool) :=
  if String.eqb category_id "1" then Some (true, true)
  else if String.eqb category_id "2" then Some (false, true)
  else if String.eqb category_id "3" then Some (true, false)
  else if String.eqb category_id "4" then Some (false, false)
  else None.

(** The test both passes apply to a token's observed and predicted BIO
    tags:
    [(not observed.endswith('MASK'))
       and (observed == predicted) == category_conditions[category_id][0]
       and (observed == 'O') == category_conditions[category_id][1]]. *)
Definition in_category (category_id observed predicted : string)
  : option bool :=
  if negb (PyStr.endswith observed "MASK") then
    (conditions ← category_conditions category_id;
     Some (Bool.eqb (String.eqb observed predicted) conditions.1
           && Bool.eqb (String.eqb observed "O") conditions.2))
  else Some false.

(** The threshold test: [<] for direction 'left', [>] otherwise. *)
Definition threshold_rule (direction : string) (value threshold : Q) : bool :=
  if String.eqb direction "left" then Qltb value threshold
  else Qltb threshold value.

(** An entry of [category_configs]: one step of the schedule. *)
Module Config.
Record category_config : Type := mk {
  epoch_change : Z;
  metric : string;
  threshold : Q;
  direction : string;
  modification : string;
  id : string
}.
End Config.

Section Passes.

(** [flair.data.get_spans_from_bio]: the spans of a tag sequence, each
    with the indices of its tokens, a score and a label. *)
Variable get_spans_from_bio : list string -> list (list nat * Q * string).

(** The tail of both passes: read the sentence's new BIO tags, decode them
    into spans and label every span that is not "O" in [new_tag_column]. *)
Definition write_spans (new_tag_column new_tag_column_bio : string)
    (sent : Sentence) : option Sentence :=
  let bioes_tags :=
    map (fun token => get_label token new_tag_column_bio) (tokens sent) in
  foldl (fun acc '(span_indices, score, label) =>
           sent ← acc;
           first ← head span_indices;
           last ← last span_indices;
           Some (if negb (String.eqb label "O")
                 then span_set_label sent first last new_tag_column label score
                 else sent))
        (Some sent) (get_spans_from_bio bioes_tags).

(** *** relabel_category *)

Record RelabelState : Type := mkRelabelState {
  prev : string;
  previous_changed : bool;
  tokens_changed : Z;
  tokens_changed_additionally : Z
}.

(** The body of the token loop of [relabel_category]. *)
Definition relabel_token
    (tag_column_bio new_tag_column_bio prediction_bio_column metric : string)
    (threshold : Q) (direction category_id : string)
    (st : RelabelState) (token : Token) : option (RelabelState * Token) :=
  let observed := get_label token tag_column_bio in
  let predicted := get_label token prediction_bio_column in
  in_category category_id observed predicted ≫= fun in_cat : bool =>
  if in_cat then
    (value ← get_metric token metric;
     if threshold_rule direction value threshold then
       Some ({| prev := predicted;
                previous_changed := true;
                tokens_changed := tokens_changed st + 1;
                tokens_changed_additionally := tokens_changed_additionally st |},
             set_label token new_tag_column_bio predicted)
     else Some (st, token))
  else
    let reset :=
      {| prev := prev st;
         previous_changed := false;
         tokens_changed := tokens_changed st;
         tokens_changed_additionally := tokens_changed_additionally st |} in
    if previous_changed st && negb (String.eqb (prev st) "O") then
      (entity ← PyStr.split "-"%char (prev st) !! 1%nat;
       if PyStr.endswith observed entity && PyStr.endswith predicted entity
       then
         Some ({| prev := prev st;
                  previous_changed := previous_changed st;
                  tokens_changed := tokens_changed st;
                  tokens_changed_additionally :=
                    tokens_changed_additionally st + 1 |},
               set_label token new_tag_column_bio predicted)
       else Some (reset, token))
    else Some (reset, token).

(** A loop over the tokens of a sentence (or the sentences of a dataset)
    that threads a state and rewrites each element. *)
Fixpoint for_each {St A : Type} (body : St -> A -> option (St * A))
    (st : St) (l : list A) : option (St * list A) :=
  match l with
  | [] => Some (st, [])
  | x :: l' =>
      '(st1, x') ← body st x;
      '(st2, l'') ← for_each body st1 l';
      Some (st2, x' :: l'')
  end.

(** The body of the sentence loop of [relabel_category]; the counters are
    threaded through the sentences, [prev] and [previous_changed] start
    afresh in each. *)
Definition relabel_sentence
    (tag_column new_tag_column prediction_bio_column metric : string)
    (threshold : Q) (direction category_id : string)
    (counts : Z * Z) (sent : Sentence) : option (Z * Z * Sentence) :=
  let tag_column_bio := tag_column +:+ "_bio" in
  let new_tag_column_bio := new_tag_column +:+ "_bio" in
  '(st, toks) ← for_each
      (relabel_token tag_column_bio new_tag_column_bio prediction_bio_column
                     metric threshold direction category_id)
      {| prev := "O"; previous_changed := false;
         tokens_changed := counts.1;
         tokens_changed_additionally := counts.2 |}
      (tokens sent);
  sent' ← write_spans new_tag_column new_tag_column_bio (with_tokens sent toks);
  Some (tokens_changed st, tokens_changed_additionally st, sent').

Definition relabel_category (dataset : list Sentence)
    (tag_column new_tag_column prediction_bio_column metric : string)
    (threshold : Q) (direction category_id : string)
  : option (Z * Z * list Sentence) :=
  for_each (relabel_sentence tag_column new_tag_column prediction_bio_column
                             metric threshold direction category_id)
           (0, 0) dataset.

(** *** mask_category *)

(** The body of the token loop of [mask_category]. *)
Definition mask_token
    (tag_column_bio new_tag_column_bio prediction_bio_column metric : string)
    (threshold : Q) (direction category_id : string)
    (tokens_changed : Z) (token : Token) : option (Z * Token) :=
  let observed := get_label token tag_column_bio in
  let predicted := get_label token prediction_bio_column in
  in_category category_id observed predicted ≫= fun in_cat : bool =>
  if in_cat then
    (value ← get_metric token metric;
     if threshold_rule direction value threshold then
       Some (tokens_changed + 1, set_label token new_tag_column_bio "S-MASK")
     else Some (tokens_changed, token))
  else Some (tokens_changed, token).

Definition mask_sentence
    (tag_column new_tag_column prediction_bio_column metric : string)
    (threshold : Q) (direction category_id : string)
    (tokens_changed : Z) (sent : Sentence) : option (Z * Sentence) :=
  let tag_column_bio := tag_column +:+ "_bio" in
  let new_tag_column_bio := new_tag_column +:+ "_bio" in
  '(tokens_changed, toks) ← for_each
      (mask_token tag_column_bio new_tag_column_bio prediction_bio_column
                  metric threshold direction category_id)
      tokens_changed (tokens sent);
  sent' ← write_spans new_tag_column new_tag_column_bio (with_tokens sent toks);
  Some (tokens_changed, sent').

Definition mask_category (dataset : list Sentence)
    (tag_column new_tag_column prediction_bio_column metric : string)
    (threshold : Q) (direction category_id : string)
  : option (Z * Z * list Sentence) :=
  '(tokens_changed, dataset') ← for_each
      (mask_sentence tag_column new_tag_column prediction_bio_column
                     metric threshold direction category_id)
      0 dataset;
  Some (tokens_changed, 0, dataset').

(** *** add_bioes_ner_tags and copy_new_tag_to_original *)

(** [sent.get_spans(typename)]: the spans labelled in [typename], with
    their values.  Spans of one label type do not overlap, so the order in
    which they are visited does not matter. *)
Definition get_spans (sent : Sentence) (typename : string)
  : list (nat * nat * string) :=
  omap (fun '(bounds, span_labels) =>
          '(value, _) ← span_labels !! typename;
          Some (bounds.1, bounds.2, value))
       (map_to_list (spans sent)).

(** The body of the span loop of [add_bioes_ner_tags]. *)
Definition encode_span (bio_tag_column : string) (toks : list Token)
    (span : nat * nat * string) : list Token :=
  let '(first, last, value) := span in
  if Nat.eqb first last then
    alter (fun t => set_label t bio_tag_column ("S-" +:+ value)) first toks
  else
    let toks :=
      alter (fun t => set_label t bio_tag_column ("B-" +:+ value)) first toks in
    let toks :=
      alter (fun t => set_label t bio_tag_column ("E-" +:+ value)) last toks in
    foldl (fun toks i =>
             alter (fun t => set_label t bio_tag_column ("I-" +:+ value))
                   i toks)
          toks (seq (S first) (last - S first)).

Definition add_bioes_ner_tags (dataset : list Sentence) (tag_column : string)
    (bio_tag_column : option string) : list Sentence :=
  let bio_tag_column := default (tag_column +:+ "_bio") bio_tag_column in
  map (fun sent =>
         let toks :=
           map (fun token =>
                  set_label (add_label token bio_tag_column "O")
                            "modified" "False")
               (tokens sent) in
         with_tokens sent
           (foldl (encode_span bio_tag_column) toks (get_spans sent tag_column)))
      dataset.

(** [copy_new_tag_to_original]: every data point of a sentence labelled in
    [new_tag_column] gets that value as its [tag_column] label. *)
Definition copy_new_tag_to_original (dataset : list Sentence)
    (tag_column new_tag_column : string) : list Sentence :=
  map (fun sent =>
         {| tokens :=
              map (fun token =>
                     match labels token !! new_tag_column ≫= last with
                     | Some value => set_label token tag_column value
                     | None => token
                     end)
                  (tokens sent);
            spans :=
              (fun span_labels : gmap string (string * Q) =>
                 match span_labels !! new_tag_column with
                 | Some (value, _) => <[tag_column := (value, 1%Q)]> span_labels
                 | None => span_labels
                 end) <$> spans sent |})
      dataset.

(** *** Reading an epoch log back onto the dataset *)

(** A line of an epoch log after its header: blank between sentences, or
    the row of one token with its columns parsed. *)
Record LogRow : Type := mkLogRow {
  sent_index : nat;
  token_index : nat;
  predicted : string;
  noisy : string;
  metric_columns : gmap string Q
}.

Inductive LogLine : Type :=
| Blank
| Row (row : LogRow).

(** The body of the line loop of [update_dataset_with_epoch_log_info];
    [sentence] is the index of the sentence the rows currently go to. *)
Definition update_line (metric predicted_bio_column tag_bio_column : string)
    (st : list Sentence * option nat) (line : LogLine)
  : option (list Sentence * option nat) :=
  let '(dataset, sentence) := st in
  match line with
  | Blank => Some (dataset, None)
  | Row row =>
      let sentence_id := default (sent_index row) sentence in
      sent ← dataset !! sentence_id;
      metric_value ← metric_columns row !! metric;
      token ← tokens sent !! token_index row;
      let token := set_label token predicted_bio_column (predicted row) in
      let token := set_label token tag_bio_column (noisy row) in
      let token := set_metric token metric metric_value in
      Some (<[sentence_id :=
               with_tokens sent (<[token_index row := token]> (tokens sent))]>
              dataset,
            Some sentence_id)
  end.

Definition update_dataset_with_epoch_log_info (epoch_log : list LogLine)
    (dataset : list Sentence)
    (metric predicted_bio_column tag_bio_column : string)
  : option (list Sentence) :=
  fst <$> foldl (fun acc line =>
                   st ← acc;
                   update_line metric predicted_bio_column tag_bio_column
                               st line)
                (Some (dataset, None)) epoch_log.

(** *** The remediation schedule of run_experiment *)

(** The body of the loop over [category_configs]: read the step's epoch
    log (an exception when there is none), then relabel or mask with the
    step's direction stripped of surrounding white space.  [epoch_logs]
    maps an epoch to the lines of its log.  The counts are those of the
    last pass run, none before the first.  The F1 score between the new
    and the clean column that the source computes and logs after each
    step is not part of this: it writes no label, and it is computed by
    flair and scikit-learn, which are not in the sources. *)
Definition remediation_step (tag_type : string)
    (epoch_logs : gmap Z (list LogLine))
    (st : option (Z * Z) * list Sentence) (cfg : Config.category_config)
  : option (option (Z * Z) * list Sentence) :=
  let '(counts, dataset) := st in
  epoch_file ← epoch_logs !! Config.epoch_change cfg;
  dataset ← update_dataset_with_epoch_log_info epoch_file dataset
              (Config.metric cfg) "predicted_bio" "ner_bio";
  if String.eqb (Config.modification cfg) "relabel" then
    ('(changed, additionally, dataset) ←
       relabel_category dataset tag_type "ner_new" "predicted_bio"
         (Config.metric cfg) (Config.threshold cfg)
         (PyStr.strip (Config.direction cfg)) (Config.id cfg);
     Some (Some (changed, additionally), dataset))
  else if String.eqb (Config.modification cfg) "mask" then
    ('(changed, additionally, dataset) ←
       mask_category dataset tag_type "ner_new" "predicted_bio"
         (Config.metric cfg) (Config.threshold cfg)
         (PyStr.strip (Config.direction cfg)) (Config.id cfg);
     Some (Some (changed, additionally), dataset))
  else Some (counts, dataset).

Definition remediation_loop (tag_type : string)
    (epoch_logs : gmap Z (list LogLine)) (dataset : list Sentence)
    (category_configs : list Config.category_config)
  : option (option (Z * Z) * list Sentence) :=
  foldl (fun acc cfg =>
           st ← acc; remediation_step tag_type epoch_logs st cfg)
        (Some (None, dataset)) category_configs.

(** The label bookkeeping of [run_experiment] up to the retraining: the
    BIO columns, the schedule, and the copy of the new spans onto the
    original column.  After the schedule the counts are written out once
    per step: a name error when there was a step but no pass has set
    them. *)
Definition run_experiment (tag_type category_id : string)
    (epoch_logs : gmap Z (list LogLine)) (train : list Sentence)
    (category_configs : list Config.category_config)
  : option (list Sentence) :=
  let train := add_bioes_ner_tags train tag_type None in
  if negb (String.eqb category_id "0") then
    (let train :=
       add_bioes_ner_tags train tag_type (Some (tag_type +:+ "_new_bio")) in
     '(counts, train) ← remediation_loop tag_type epoch_logs train
                          category_configs;
     match category_configs, counts with
     | _ :: _, None => None
     | _, _ =>
         Some (copy_new_tag_to_original train tag_type (tag_type +:+ "_new"))
     end)
  else Some train.

End Passes.

(** Modelled from the spec: BIOSpanCodec.decode, standing in for flair's
    [get_spans_from_bio], which is not part of the sources.  A span starts
    at [B-] or [S-], or at an [I-]/[E-] tag that does not continue a span of
    its type; it ends at [E-], [S-], "O" or where the next span starts.
    Every span has score 1. *)
Definition tag_prefix (tag : string) : string := String.substring 0 2 tag.
Definition tag_value (tag : string) : string :=
  String.substring 2 (String.length tag - 2) tag.

Fixpoint decode_from (idx : nat) (current : option (list nat * string))
    (bio_tags : list string) : list (list nat * Q * string) :=
  let close :=
    match current with
    | Some (indices, value) => [(indices, 1%Q, value)]
    | None => []
    end in
  match bio_tags with
  | [] => close
  | tag :: rest =>
      if String.eqb tag "O" || String.eqb tag "" || String.eqb tag "_" then
        close ++ decode_from (S idx) None rest
      else
        let value := tag_value tag in
        let continues :=
          match current with
          | Some (_, current_value) =>
              (String.eqb (tag_prefix tag) "I-"
               || String.eqb (tag_prefix tag) "E-")
              && String.eqb current_value value
          | None => false
          end in
        let opened :=
          match current with
          | Some (indices, _) =>
              if continues then (indices ++ [idx], value) else ([idx], value)
          | None => ([idx], value)
          end in
        let before := if continues then [] else close in
        if String.eqb (tag_prefix tag) "E-" || String.eqb (tag_prefix tag) "S-"
        then before ++ [(opened.1, 1%Q, opened.2)]
                    ++ decode_from (S idx) None rest
        else before ++ decode_from (S idx) (Some opened) rest
  end.

Definition decode (bio_tags : list string) : list (list nat * Q * string) :=
  decode_from 0 None bio_tags.

End Pipeline.

(** ** The specification's wording, for comparison with the code *)

Module SpecWording.

(** [classify(observed_tag, predicted_tag)] of the specification: a tag
    ending in MASK has no category; otherwise the category follows
    (match, is_O): (T,T) is 1, (F,T) is 2, (T,F) is 3, (F,F) is 4. *)
Definition classify (observed_tag predicted_tag : string) : option string :=
  if PyStr.endswith observed_tag "MASK" then None
  else
    let matches := String.eqb observed_tag predicted_tag in
    let is_O := String.eqb observed_tag "O" in
    Some (match matches, is_O with
          | true, true => "1"
          | false, true => "2"
          | true, false => "3"
          | false, false => "4"
          end).

(** The number of leading indices of [indices] whose prediction equals
    [last]: the contiguous run a backward scan sees before its first
    mismatch. *)
Fixpoint agree_run (pred : list nat) (last : nat) (indices : list nat) : nat :=
  match indices with
  | [] => 0
  | i :: indices' =>
      match pred !! i with
      | Some p => if Nat.eqb p last then S (agree_run pred last indices')
                  else 0
      | None => 0
      end
  end.

(** [prediction_depth] of the specification: start at [L], scan the layers
    from [L-2] down to [0] and decrement while they agree with the last
    layer, stopping at the first mismatch. *)
Definition prediction_depth (pred : list nat) : Z :=
  let L := length pred in
  Z.of_nat L
  - Z.of_nat (agree_run pred (default 0%nat (last pred)) (rev (seq 0 (L - 1)))).

End SpecWording.

(** ** Relations and observations the properties are stated with *)

Module Observe.

Import Pipeline.

(** A token rewritten in no label column but [column]. *)
Definition token_frame (column : string) (t t' : Token) : Prop :=
  text t' = text t /\ metrics t' = metrics t /\
  forall c : string, c <> column -> labels t' !! c = labels t !! c.

(** The label of span [k] of a sentence in column [c], if any. *)
Definition span_label (sent : Sentence) (k : nat * nat) (c : string)
  : option (string * Q) :=
  spans sent !! k ≫= fun span_labels : gmap string (string * Q) =>
  span_labels !! c.

(** A sentence rewritten in no token column but [token_column] and no span
    column but [span_column]. *)
Definition sentence_frame (span_column token_column : string)
    (s s' : Sentence) : Prop :=
  Forall2 (token_frame token_column) (tokens s) (tokens s') /\
  forall (k : nat * nat) (c : string),
    c <> span_column -> span_label s' k c = span_label s k c.

(** The original observed columns of a sentence, [tag_column] on its spans
    and tokens and [tag_column_bio] on its tokens, hold in [s'] what they
    hold in [s]. *)
Definition original_kept (tag_column : string) (s s' : Sentence) : Prop :=
  Forall2 (fun t t' =>
             labels t' !! (tag_column +:+ "_bio")
             = labels t !! (tag_column +:+ "_bio") /\
             get_label t' (tag_column +:+ "_bio")
             = get_label t (tag_column +:+ "_bio"))
          (tokens s) (tokens s') /\
  forall k : nat * nat, span_label s' k tag_column = span_label s k tag_column.

(** Every span of [s] labelled in [new_tag_column] carries that value in
    [tag_column] in [s']. *)
Definition copied_back (tag_column new_tag_column : string)
    (s s' : Sentence) : Prop :=
  forall (k : nat * nat) (value : string) (score : Q),
    span_label s k new_tag_column = Some (value, score) ->
    span_label s' k tag_column = Some (value, 1%Q).

(** The working BIO tags of a dataset, sentence by sentence. *)
Definition working_tags (dataset : list Sentence) : list (list string) :=
  map (fun sent => map (fun t => get_label t "ner_new_bio") (tokens sent))
      dataset.

(** The relation the code keeps between the two fields of a history: the
    correctness history is one flag longer than the epoch count. *)
Definition history_invariant (h : SequenceTaggerModel.History) : Prop :=
  Z.of_nat (length (SequenceTaggerModel.hist_MILD h))
  = SequenceTaggerModel.total_epochs h + 1.

(** An epoch's input for one token that the update accepts when the
    history counts [size] labels: at least two class scores, no more than
    the history counts, and an observed label among them. *)
Definition valid_epoch (size : nat) (epoch : list NpFloat.npfloat * nat)
  : Prop :=
  (2 <= length epoch.1 <= size)%nat /\ (epoch.2 < length epoch.1)%nat.

(** The term [p * log p] of an entropy as the code evaluates it on a
    finite [p]: zero unless [p] is positive. *)
Definition xlogx (p : R) : R :=
  if Rlt_dec 0 p then (p * ln p)%R else 0%R.

End Observe.

(** ** Concrete corpora, logs and schedules *)

Module Examples.

Import Pipeline.

(** A one-token sentence "Paris" observed as a LOC span. *)
Definition paris : Sentence :=
  {| tokens := [ {| text := "Paris"; labels := ∅; metrics := ∅ |} ];
     spans := {[ (0%nat, 0%nat) := {[ "ner" := ("LOC", 1%Q) ]} ]} |}.

Definition log_row (predicted noisy : string) (confidence : Q) : LogLine :=
  Row {| sent_index := 0; token_index := 0;
         predicted := predicted; noisy := noisy;
         metric_columns := {[ "confidence" := confidence ]} |}.

(** Epoch 1 predicts "O" for the token, epoch 2 predicts S-PER; the
    observed tag in both logs is S-LOC. *)
Definition paris_logs : gmap Z (list LogLine) :=
  {[ 1 := [log_row "O" "S-LOC" 0.2; Blank];
     2 := [log_row "S-PER" "S-LOC" 0.3; Blank] ]}.

Definition schedule_step (epoch : Z) (modification : string)
  : Config.category_config :=
  {| Config.epoch_change := epoch; Config.metric := "confidence";
     Config.threshold := 0.5; Config.direction := "left";
     Config.modification := modification; Config.id := "4" |}.

(** The training set as [run_experiment] hands it to the schedule. *)
Definition paris_train : list Sentence :=
  add_bioes_ner_tags (add_bioes_ner_tags [paris] "ner" None)
                     "ner" (Some "ner_new_bio").

(** A token as a step sees it, with its observed, predicted and working
    BIO tag and its confidence. *)
Definition seen (observed predicted working : string) (confidence : Q)
  : Token :=
  {| text := "w";
     labels := {[ "ner_bio" := [observed]; "predicted_bio" := [predicted];
                  "ner_new_bio" := [working] ]};
     metrics := {[ "confidence" := confidence ]} |}.

(** The model relabels the first token to B-PER with low confidence; the
    second token is observed I-PER and predicted E-PER with high
    confidence. *)
Definition two_tokens : list Sentence :=
  [ {| tokens := [seen "B-LOC" "B-PER" "B-LOC" 0.2;
                  seen "I-PER" "E-PER" "I-PER" 0.9];
       spans := ∅ |} ].

(** As [two_tokens], the second token observed and predicted E-PER. *)
Definition two_tokens_agreeing : list Sentence :=
  [ {| tokens := [seen "B-LOC" "B-PER" "B-LOC" 0.2;
                  seen "E-PER" "E-PER" "E-PER" 0.9];
       spans := ∅ |} ].

(** As [two_tokens_agreeing], with a token between the two that is in
    category 4 (observed I-LOC, predicted I-PER) and confident. *)
Definition three_tokens : list Sentence :=
  [ {| tokens := [seen "B-LOC" "B-PER" "B-LOC" 0.2;
                  seen "I-LOC" "I-PER" "I-LOC" 0.9;
                  seen "E-PER" "E-PER" "E-PER" 0.9];
       spans := ∅ |} ].

(** A sentence whose token was seen as a LOC span, now predicted "O" with
    low confidence; its span is labelled in both span columns. *)
Definition paris_seen : list Sentence :=
  [ {| tokens := [seen "S-LOC" "O" "S-LOC" 0.2];
       spans := {[ (0%nat, 0%nat) :=
                     {[ "ner" := ("LOC", 1%Q);
                        "ner_new" := ("LOC", 1%Q) ]} ]} |} ].

(** Three layers over two labels: the first layer prefers label 0, the
    other two label 1. *)
Definition layers_011 : list (list NpFloat.npfloat) :=
  [ [NpFloat.Fin 1; NpFloat.Fin 0];
    [NpFloat.Fin 0; NpFloat.Fin 1];
    [NpFloat.Fin 0; NpFloat.Fin 1] ].

(** Scores of two labels that prefer label 0. *)
Definition prefers_0 : list NpFloat.npfloat := [NpFloat.Fin 1; NpFloat.Fin 0].

(** Three epochs of one token: predicted 0 each time, observed 0, 1, 0. *)
Definition epochs_101 : list (list NpFloat.npfloat * nat) :=
  [(prefers_0, 0%nat); (prefers_0, 1%nat); (prefers_0, 0%nat)].

End Examples.

(** ** sequence_tagger_model.py: gold labels and the early-exit loss *)

Module SequenceTaggerMore.

Import NpFloat Pipeline.

(** [l[i] = x] on a Python list: IndexError outside the list. *)
Definition list_assign {A : Type} (l : list A) (i : nat) (x : A)
  : option (list A) :=
  if (i <? length l)%nat then Some (<[i := x]> l) else None.

(** [for i in indices: l[i] = x] *)
Definition list_assign_all {A : Type} (l : list A) (indices : list nat)
    (x : A) : option (list A) :=
  foldl (fun acc i => l ← acc; list_assign l i x) (Some l) indices.

(** The body of the label loop of [_get_gold_labels] for a span from
    token [first] to token [last] (counted from 0, so [span[0].idx - 1]
    is [first] and [span[-1].idx - 1] is [last]). *)
Definition gold_span_labels (tag_format : string)
    (sentence_labels : list string) (span : nat * nat * string)
  : option (list string) :=
  let '(first, last, value) := span in
  if String.eqb tag_format "BIOES" then
    if Nat.eqb first last then
      list_assign sentence_labels first ("S-" +:+ value)
    else
      (l ← list_assign sentence_labels first ("B-" +:+ value);
       l ← list_assign l last ("E-" +:+ value);
       list_assign_all l (seq (S first) (last - S first)) ("I-" +:+ value))
  else
    (l ← list_assign sentence_labels first ("B-" +:+ value);
     list_assign_all l (seq (S first) (last - first)) ("I-" +:+ value)).

(** [_get_gold_labels]: the labels of all tokens of a batch, in order.
    [self_label_type], [predict_spans] and [tag_format] are attributes of
    the tagger.  Without spans the labels are read from
    [self.label_type], whatever [label_type] is passed. *)
Definition _get_gold_labels (self_label_type : string) (predict_spans : bool)
    (tag_format : string) (sentences : list Sentence)
    (label_type : option string) : option (list string) :=
  let label_type := default self_label_type label_type in
  if predict_spans then
    (fun all_sentence_labels => concat all_sentence_labels) <$>
      mapM (fun sentence =>
              foldl (fun acc span =>
                       l ← acc; gold_span_labels tag_format l span)
                    (Some (repeat "O" (length (tokens sentence))))
                    (get_spans sentence label_type))
           sentences
  else
    Some (concat (map (fun sentence =>
                         map (fun token => get_label token self_label_type)
                             (tokens sentence))
                      sentences)).


End SequenceTaggerMore.

(** ** pipeline_sample_metrics_token_categories.py: the written data set
    and the schedule of main *)

Module PipelineMore.

Import Pipeline.

(** [s.startswith(prefix)] *)
Definition startswith (s prefix : string) : bool := String.prefix prefix s.

(** [s.replace(old, new)] for a pattern [old] of the two characters [a]
    and [b]: every occurrence, found from left to right without
    overlap. *)
Fixpoint replace_pair (a b : ascii) (new : string) (s : string) : string :=
  match s with
  | String x (String y rest as tail) =>
      if Ascii.eqb x a && Ascii.eqb y b
      then new +:+ replace_pair a b new rest
      else String x (replace_pair a b new tail)
  | _ => s
  end.

(** The tag [output_bio_dataset] writes for a token. *)
Definition written_tag (val : string) : string :=
  let val :=
    if startswith val "S-" then replace_pair "S" "-" "B-" val else val in
  if startswith val "E-" then replace_pair "E" "-" "I-" val else val.

(** [output_bio_dataset]: the lines written to the file, a line per token
    with its text, a tab and its tag, and an empty line after every
    sentence. *)
Definition output_bio_dataset (dataset : list Sentence) (tag_column : string)
  : list string :=
  concat (map (fun sentence =>
                 map (fun token =>
                        text token +:+ String "009" ""
                        +:+ written_tag (get_label token tag_column))
                     (tokens sentence)
                 ++ [""])
              dataset).

(** [sorted(category_configs, key=lambda x: int(x['epoch_change']))]:
    Python's sort is stable. *)
Fixpoint insert_by_epoch (cfg : Config.category_config)
    (sorted : list Config.category_config) : list Config.category_config :=
  match sorted with
  | [] => [cfg]
  | c :: rest =>
      if Z.ltb (Config.epoch_change cfg) (Config.epoch_change c)
      then cfg :: c :: rest
      else c :: insert_by_epoch cfg rest
  end.

Definition sorted_by_epoch (category_configs : list Config.category_config)
  : list Config.category_config :=
  foldl (fun sorted cfg => insert_by_epoch cfg sorted) [] category_configs.

Definition with_id (cfg : Config.category_config) (cat_id : string)
  : Config.category_config :=
  {| Config.epoch_change := Config.epoch_change cfg;
     Config.metric := Config.metric cfg;
     Config.threshold := Config.threshold cfg;
     Config.direction := Config.direction cfg;
     Config.modification := Config.modification cfg;
     Config.id := cat_id |}.

(** The schedule [main] builds: [modify_category] gives, for a category
    id, its entry of the configuration ([None] for [false]); the entries
    are visited in the order of the keys of [category_conditions].  The
    result is [category_id] and [category_configs]; with no entry the
    source appends a placeholder that only names the output path, left
    out here. *)
Definition main_schedule
    (modify_category : string -> option Config.category_config)
  : string * list Config.category_config :=
  let enabled :=
    omap (fun cat_id =>
            cfg ← modify_category cat_id; Some (cat_id, with_id cfg cat_id))
         ["1"; "2"; "3"; "4"] in
  let category_ids := map fst enabled in
  let category_configs := sorted_by_epoch (map snd enabled) in
  (if (0 <? length category_ids)%nat then PyStr.join category_ids else "0",
   category_configs).

End PipelineMore.

(** ** Further relations the properties are stated with *)

Module ObserveMore.

Import NpFloat SequenceTaggerModel Pipeline.

(** What the counters of a history add up to: the prediction counts to
    the number of epochs, the correctness flags (each 0 or 1) to the
    correctness sum; the iteration of the last change lies within the
    epochs; before the first epoch the last prediction is the marker -1,
    and from the first epoch on the iteration is at least 1 and the last
    prediction is a label. *)
Definition history_counts (h : History) : Prop :=
  foldr Z.add 0 (hist_prediction h) = total_epochs h /\
  Forall (fun c => 0 <= c) (hist_prediction h) /\
  Forall (fun f => f = 0 \/ f = 1) (hist_MILD h) /\
  foldr Z.add 0 (hist_MILD h) = last_correctness_sum h /\
  0 <= last_correctness_sum h <= total_epochs h /\
  0 <= last_iteration h <= total_epochs h /\
  (total_epochs h = 0 -> last_prediction h = -1) /\
  (0 < total_epochs h -> 1 <= last_iteration h /\ 0 <= last_prediction h).

(** A token rewritten by an epoch log: its text, its labels outside the
    two BIO columns and its metrics other than [metric] are kept. *)
Definition log_token_frame (metric predicted_bio_column tag_bio_column : string)
    (t t' : Token) : Prop :=
  text t' = text t /\
  (forall c : string,
     c <> predicted_bio_column -> c <> tag_bio_column ->
     labels t' !! c = labels t !! c) /\
  (forall m : string, m <> metric -> metrics t' !! m = metrics t !! m).

(** A data set rewritten by an epoch log: the same sentences with the same
    spans, and token by token the frame above. *)
Definition log_frame (metric predicted_bio_column tag_bio_column : string)
    (dataset dataset' : list Sentence) : Prop :=
  Forall2 (fun s s' =>
             spans s' = spans s /\
             Forall2 (log_token_frame metric predicted_bio_column
                                      tag_bio_column)
                     (tokens s) (tokens s'))
          dataset dataset'.

(** A row of an epoch log with another sentence index. *)
Definition in_sentence (sentence_id : nat) (row : LogRow) : LogRow :=
  {| sent_index := sentence_id;
     token_index := token_index row;
     predicted := predicted row;
     noisy := noisy row;
     metric_columns := metric_columns row |}.

(** The rows of an epoch log, each with the sentence index of the first
    row of its block; a block ends at a blank line.  [sentence] is the
    index of the block under way, if any. *)
Fixpoint block_rows (sentence : option nat) (epoch_log : list LogLine)
  : list LogRow :=
  match epoch_log with
  | [] => []
  | Blank :: epoch_log' => block_rows None epoch_log'
  | Row row :: epoch_log' =>
      let sentence_id := default (sent_index row) sentence in
      in_sentence sentence_id row :: block_rows (Some sentence_id) epoch_log'
  end.

End ObserveMore.

(** * Properties *)

Create HintDb frame.

(** Reduce the binds of the option monad whose argument is known. *)
#[local] Ltac step_bind := cbn [mbind option_bind].

Import NpFloat SequenceTaggerModel Pipeline Observe Examples.

(** ** Categories *)

Lemma category_conditions_Some (category_id : string) (c : bool * bool) :
  category_conditions category_id = Some c ->
  category_id = (match c with
                 | (true, true) => "1"
                 | (false, true) => "2"
                 | (true, false) => "3"
                 | (false, false) => "4"
                 end).
Proof.
  unfold category_conditions.
  destruct (String.eqb_spec category_id "1") as [->|_]; [intros [= <-]; done|].
  destruct (String.eqb_spec category_id "2") as [->|_]; [intros [= <-]; done|].
  destruct (String.eqb_spec category_id "3") as [->|_]; [intros [= <-]; done|].
  destruct (String.eqb_spec category_id "4") as [->|_]; [intros [= <-]; done|].
  discriminate.
Qed.

Lemma in_category_classify (category_id observed predicted : string) :
  in_category category_id observed predicted = Some true <->
  SpecWording.classify observed predicted = Some category_id.
Proof.
  unfold in_category, SpecWording.classify.
  destruct (PyStr.endswith observed "MASK"); simpl; [split; discriminate|].
  destruct (category_conditions category_id) as [[c0 c1]|] eqn:Hc; simpl.
  - apply category_conditions_Some in Hc. subst category_id.
    destruct (String.eqb observed predicted), (String.eqb observed "O"),
      c0, c1; simpl; split; congruence.
  - split; [discriminate|]. intros [= <-].
    destruct (String.eqb observed predicted), (String.eqb observed "O");
      vm_compute in Hc; discriminate.
Qed.

Lemma in_category_masked (category_id observed predicted : string) :
  PyStr.endswith observed "MASK" = true ->
  in_category category_id observed predicted = Some false.
Proof. unfold in_category. intros ->. reflexivity. Qed.

(** C8. For an observed tag that does not end in MASK, the category test
    of the passes holds for exactly one of the categories "1".."4", the
    one the mapping (observed == predicted, observed == "O") names:
    (T,T) is 1, (F,T) is 2, (T,F) is 3, (F,F) is 4.  For an observed tag
    that ends in MASK it holds for none. *)
Theorem C8_category_partition (observed predicted : string) :
  (forall category_id : string,
      in_category category_id observed predicted = Some true <->
      SpecWording.classify observed predicted = Some category_id) /\
  (PyStr.endswith observed "MASK" = false ->
   exists category_id : string,
     category_id ∈ ["1"; "2"; "3"; "4"] /\
     SpecWording.classify observed predicted = Some category_id /\
     in_category category_id observed predicted = Some true /\
     forall other : string,
       other ∈ ["1"; "2"; "3"; "4"] -> other <> category_id ->
       in_category other observed predicted = Some false) /\
  (PyStr.endswith observed "MASK" = true ->
   SpecWording.classify observed predicted = None /\
   forall category_id : string,
     in_category category_id observed predicted = Some false).
Proof.
  split; [intros; apply in_category_classify|]. split.
  - intros Hm.
    assert (Hex : exists category_id : string,
               category_id ∈ ["1"; "2"; "3"; "4"] /\
               SpecWording.classify observed predicted = Some category_id).
    { unfold SpecWording.classify. rewrite Hm.
      destruct (String.eqb observed predicted), (String.eqb observed "O");
        eexists; (split; [|reflexivity]); set_solver. }
    destruct Hex as (cid & Hin & Hcl). exists cid.
    split; [done|]. split; [done|].
    split; [by apply in_category_classify|].
    intros other Hother Hne.
    destruct (in_category other observed predicted) as [[]|] eqn:Ho.
    + apply in_category_classify in Ho. congruence.
    + reflexivity.
    + unfold in_category in Ho. rewrite Hm in Ho. simpl in Ho.
      repeat (apply elem_of_cons in Hother as [->|Hother];
              [vm_compute in Ho; discriminate|]).
      by apply elem_of_nil in Hother.
  - intros Hm. split; [unfold SpecWording.classify; by rewrite Hm|].
    intros. by apply in_category_masked.
Qed.

(** ** Frame of the mask and relabel passes *)

Lemma for_each_Forall2 {St A : Type} (body : St -> A -> option (St * A))
    (R : A -> A -> Prop) :
  (forall st x st' x', body st x = Some (st', x') -> R x x') ->
  forall l st st' l',
    for_each body st l = Some (st', l') -> Forall2 R l l'.
Proof.
  intros Hbody. induction l as [|x l IH]; simpl; intros st st' l' H.
  - injection H as <- <-. constructor.
  - destruct (body st x) as [[st1 x']|] eqn:Hx; simpl in H; [|discriminate].
    destruct (for_each body st1 l) as [[st2 l'']|] eqn:Hl; simpl in H;
      [|discriminate].
    injection H as <- <-. constructor; eauto.
Qed.

Lemma for_each_app {St A : Type} (body : St -> A -> option (St * A))
    (l1 l2 : list A) (st : St) :
  for_each body st (l1 ++ l2) =
  '(st1, l1') ← for_each body st l1;
  '(st2, l2') ← for_each body st1 l2;
  Some (st2, l1' ++ l2').
Proof.
  revert st. induction l1 as [|x l1 IH]; simpl; intros st.
  - destruct (for_each body st l2) as [[st2 l2']|]; reflexivity.
  - destruct (body st x) as [[st1 x']|]; simpl; [|reflexivity].
    rewrite IH.
    destruct (for_each body st1 l1) as [[st2 l1']|]; simpl; [|reflexivity].
    destruct (for_each body st2 l2) as [[st3 l2']|]; reflexivity.
Qed.

Lemma token_frame_refl (column : string) (t : Token) : token_frame column t t.
Proof. unfold token_frame. auto. Qed.

Lemma token_frame_set_label (column value : string) (t : Token) :
  token_frame column t (set_label t column value).
Proof.
  unfold token_frame, set_label; simpl. repeat split.
  intros c Hc. by rewrite lookup_insert_ne.
Qed.

#[local] Hint Resolve token_frame_refl token_frame_set_label : frame.

Lemma relabel_token_frame
    (tag_bio new_bio pred_bio metric : string) (threshold : Q)
    (direction category_id : string) (st st' : RelabelState) (t t' : Token) :
  relabel_token tag_bio new_bio pred_bio metric threshold direction
                category_id st t = Some (st', t') ->
  token_frame new_bio t t'.
Proof.
  unfold relabel_token. intros H.
  repeat match type of H with
         | context [?o ≫= _] => destruct o eqn:?; simpl in H
         | context [if ?b then _ else _] => destruct b eqn:?
         end; simplify_eq; auto with frame.
Qed.

Lemma mask_token_frame
    (tag_bio new_bio pred_bio metric : string) (threshold : Q)
    (direction category_id : string) (n n' : Z) (t t' : Token) :
  mask_token tag_bio new_bio pred_bio metric threshold direction
             category_id n t = Some (n', t') ->
  token_frame new_bio t t'.
Proof.
  unfold mask_token. intros H.
  repeat match type of H with
         | context [?o ≫= _] => destruct o eqn:?; simpl in H
         | context [if ?b then _ else _] => destruct b eqn:?
         end; simplify_eq; auto with frame.
Qed.

Lemma span_label_set_ne (sent : Sentence) (first last : nat)
    (column value : string) (score : Q) (k : nat * nat) (c : string) :
  c <> column ->
  span_label (span_set_label sent first last column value score) k c =
  span_label sent k c.
Proof.
  intros Hc. unfold span_label, span_set_label; simpl.
  destruct (decide (k = (first, last))) as [->|Hk].
  - rewrite lookup_insert_eq; simpl. rewrite lookup_insert_ne by done.
    by destruct (spans sent !! (first, last)).
  - by rewrite lookup_insert_ne.
Qed.

Section WriteSpans.

Variable get_spans_from_bio : list string -> list (list nat * Q * string).

(** Labelling the decoded spans leaves the tokens and every other span
    column as they are, whatever the decoder returns. *)
Lemma write_spans_frame (new_column new_bio : string) (sent sent' : Sentence) :
  write_spans get_spans_from_bio new_column new_bio sent = Some sent' ->
  tokens sent' = tokens sent /\
  forall (k : nat * nat) (c : string),
    c <> new_column -> span_label sent' k c = span_label sent k c.
Proof.
  unfold write_spans.
  generalize (get_spans_from_bio
                (map (fun token => get_label token new_bio) (tokens sent))).
  intros found. revert sent.
  induction found as [|[[span_indices score] label] found IH];
    simpl; intros sent H.
  - injection H as <-. auto.
  - destruct (head span_indices) as [first|]; simpl in H.
    2:{ exfalso. clear -H. induction found as [|[[? ?] ?] found IH]; simpl in H;
          [discriminate|auto]. }
    destruct (last span_indices) as [last|]; simpl in H.
    2:{ exfalso. clear -H. induction found as [|[[? ?] ?] found IH]; simpl in H;
          [discriminate|auto]. }
    apply IH in H as [Htok Hspan].
    destruct (negb (String.eqb label "O")); [|auto].
    split; [done|]. intros k c Hc.
    rewrite Hspan by done. by apply span_label_set_ne.
Qed.

Lemma relabel_category_frame (dataset dataset' : list Sentence)
    (tag_column new_tag_column pred_bio metric : string) (threshold : Q)
    (direction category_id : string) (changed additionally : Z) :
  relabel_category get_spans_from_bio dataset tag_column new_tag_column
    pred_bio metric threshold direction category_id
  = Some (changed, additionally, dataset') ->
  Forall2 (sentence_frame new_tag_column (new_tag_column +:+ "_bio"))
          dataset dataset'.
Proof.
  unfold relabel_category. apply for_each_Forall2.
  intros counts sent counts' sent'. unfold relabel_sentence. intros H.
  destruct (for_each _ _ (tokens sent)) as [[st toks]|] eqn:Htoks;
    simpl in H; [|discriminate].
  destruct (write_spans _ _ _ _) as [sent1|] eqn:Hw; simpl in H;
    [|discriminate].
  injection H as <- <-.
  apply write_spans_frame in Hw as [Htok Hspan]. simpl in Htok.
  split; [|exact Hspan].
  rewrite Htok.
  eapply for_each_Forall2; [|exact Htoks].
  intros ? ? ? ?. apply relabel_token_frame.
Qed.

Lemma mask_category_frame (dataset dataset' : list Sentence)
    (tag_column new_tag_column pred_bio metric : string) (threshold : Q)
    (direction category_id : string) (changed additionally : Z) :
  mask_category get_spans_from_bio dataset tag_column new_tag_column
    pred_bio metric threshold direction category_id
  = Some (changed, additionally, dataset') ->
  Forall2 (sentence_frame new_tag_column (new_tag_column +:+ "_bio"))
          dataset dataset'.
Proof.
  unfold mask_category. intros H.
  destruct (for_each _ _ dataset) as [[n ds]|] eqn:Hds; simpl in H;
    [|discriminate].
  injection H as <- <- <-.
  eapply for_each_Forall2; [|exact Hds].
  intros n0 sent n1 sent'. unfold mask_sentence. intros H.
  destruct (for_each _ _ (tokens sent)) as [[n2 toks]|] eqn:Htoks;
    simpl in H; [|discriminate].
  destruct (write_spans _ _ _ _) as [sent1|] eqn:Hw; simpl in H;
    [|discriminate].
  injection H as <- <-.
  apply write_spans_frame in Hw as [Htok Hspan]. simpl in Htok.
  split; [|exact Hspan].
  rewrite Htok.
  eapply for_each_Forall2; [|exact Htoks].
  intros ? ? ? ?. apply mask_token_frame.
Qed.

End WriteSpans.

Lemma append_length (s1 s2 : string) :
  String.length (s1 +:+ s2) = (String.length s1 + String.length s2)%nat.
Proof. induction s1 as [|c s1 IH]; simpl; [reflexivity|by rewrite IH]. Qed.

Lemma append_cancel_r (s1 s2 suffix : string) :
  s1 +:+ suffix = s2 +:+ suffix -> s1 = s2.
Proof.
  revert s2. induction s1 as [|c s1 IH]; intros [|c' s2] H; simpl in H.
  - reflexivity.
  - apply (f_equal String.length) in H.
    rewrite ?append_length in H. simpl in H.
    rewrite ?append_length in H. lia.
  - apply (f_equal String.length) in H.
    rewrite ?append_length in H. simpl in H.
    rewrite ?append_length in H. lia.
  - injection H as -> H. f_equal. by apply IH.
Qed.

Lemma sentence_frame_original_kept (tag_column new_tag_column : string)
    (s s' : Sentence) :
  tag_column <> new_tag_column ->
  sentence_frame new_tag_column (new_tag_column +:+ "_bio") s s' ->
  original_kept tag_column s s'.
Proof.
  intros Hne [Htok Hspan].
  assert (Hbio : tag_column +:+ "_bio" <> new_tag_column +:+ "_bio").
  { intros H. by apply append_cancel_r in H. }
  split; [|intros k; by apply Hspan].
  eapply Forall2_impl; [exact Htok|].
  intros t t' (_ & _ & Hlab). unfold get_label.
  rewrite (Hlab _ Hbio). done.
Qed.

Lemma copy_new_tag_to_original_copied (dataset : list Sentence)
    (tag_column new_tag_column : string) :
  Forall2 (copied_back tag_column new_tag_column) dataset
          (copy_new_tag_to_original dataset tag_column new_tag_column).
Proof.
  unfold copy_new_tag_to_original.
  induction dataset as [|sent dataset IH]; simpl; constructor; [|exact IH].
  intros k value score. unfold span_label; simpl.
  rewrite lookup_fmap.
  destruct (spans sent !! k) as [span_labels|]; simpl; [|discriminate].
  intros ->. by rewrite lookup_insert_eq.
Qed.

(** C9. Neither pass writes a column other than the new BIO column of the
    tokens and the new column of the spans: when the new column is not the
    original one, every token's original BIO label and every span's
    original label are after a mask or relabel pass what they were before,
    whatever spans the decoder finds.  The original span column is written
    by [copy_new_tag_to_original], which gives every span labelled in the
    new column that value. *)
Theorem C9_passes_keep_original_annotation
    (get_spans_from_bio : list string -> list (list nat * Q * string))
    (dataset : list Sentence)
    (tag_column new_tag_column prediction_bio_column metric : string)
    (threshold : Q) (direction category_id : string) :
  tag_column <> new_tag_column ->
  (forall (changed additionally : Z) (dataset' : list Sentence),
      mask_category get_spans_from_bio dataset tag_column new_tag_column
        prediction_bio_column metric threshold direction category_id
      = Some (changed, additionally, dataset') ->
      Forall2 (sentence_frame new_tag_column (new_tag_column +:+ "_bio"))
              dataset dataset' /\
      Forall2 (original_kept tag_column) dataset dataset') /\
  (forall (changed additionally : Z) (dataset' : list Sentence),
      relabel_category get_spans_from_bio dataset tag_column new_tag_column
        prediction_bio_column metric threshold direction category_id
      = Some (changed, additionally, dataset') ->
      Forall2 (sentence_frame new_tag_column (new_tag_column +:+ "_bio"))
              dataset dataset' /\
      Forall2 (original_kept tag_column) dataset dataset') /\
  Forall2 (copied_back tag_column new_tag_column) dataset
          (copy_new_tag_to_original dataset tag_column new_tag_column).
Proof.
  intros Hne. repeat split.
  - by eapply mask_category_frame.
  - eapply Forall2_impl; [by eapply mask_category_frame|].
    intros s s'. by apply sentence_frame_original_kept.
  - by eapply relabel_category_frame.
  - eapply Forall2_impl; [by eapply relabel_category_frame|].
    intros s s'. by apply sentence_frame_original_kept.
  - apply copy_new_tag_to_original_copied.
Qed.

Lemma C9_witness :
  "ner" <> "ner_new" /\
  exists dataset' : list Sentence,
    mask_category decode two_tokens "ner" "ner_new" "predicted_bio"
      "confidence" 0.5 "left" "4" = Some (1, 0, dataset') /\
    Forall2 (original_kept "ner") two_tokens dataset'.
Proof.
  split; [discriminate|].
  eexists. split; [vm_compute; reflexivity|].
  refine (proj2 (proj1 (C9_passes_keep_original_annotation
            decode two_tokens "ner" "ner_new" "predicted_bio" "confidence"
            0.5 "left" "4" _) 1 0 _ _)).
  - discriminate.
  - vm_compute; reflexivity.
Defined.

Lemma C8_witness :
  PyStr.endswith "B-LOC" "MASK" = false /\
  exists category_id : string,
    category_id ∈ ["1"; "2"; "3"; "4"] /\
    SpecWording.classify "B-LOC" "O" = Some category_id /\
    in_category category_id "B-LOC" "O" = Some true /\
    forall other : string,
      other ∈ ["1"; "2"; "3"; "4"] -> other <> category_id ->
      in_category other "B-LOC" "O" = Some false.
Proof.
  split; [reflexivity|].
  apply (proj1 (proj2 (C8_category_partition "B-LOC" "O"))). reflexivity.
Defined.

(** ** A masked token in a later step of the schedule *)

(** C4, evaluated: the first step masks the token (category 4, confidence
    0.2 < 0.5), so its working tag is S-MASK; the second step reads the
    observed tag S-LOC of its epoch log, finds the token in category 4
    again and relabels it, so the working tag ends as S-PER. *)
Theorem C4_masked_token_relabelled_by_later_step :
  working_tags <$> (snd <$> remediation_loop decode "ner" paris_logs
                              paris_train [schedule_step 1 "mask"])
  = Some [["S-MASK"]] /\
  working_tags <$> (snd <$> remediation_loop decode "ner" paris_logs
                              paris_train
                              [schedule_step 1 "mask";
                               schedule_step 2 "relabel"])
  = Some [["S-PER"]] /\
  fst <$> remediation_loop decode "ner" paris_logs
            paris_train [schedule_step 1 "mask"; schedule_step 2 "relabel"]
  = Some (Some (1, 0)) /\
  working_tags <$> (snd <$> remediation_loop decode "ner" paris_logs
                              paris_train
                              [schedule_step 1 "mask"; schedule_step 1 "mask"])
  = Some [["S-MASK"]] /\
  fst <$> remediation_loop decode "ner" paris_logs
            paris_train [schedule_step 1 "mask"; schedule_step 1 "mask"]
  = Some (Some (1, 0)).
Proof. vm_compute. repeat split; reflexivity. Qed.

(** ** The continuation rule of the relabel pass *)

Lemma get_label_set_label (t : Token) (column value : string) :
  get_label (set_label t column value) column = value.
Proof. unfold get_label, set_label; simpl. by rewrite lookup_insert_eq. Qed.

Section RelabelStep.

Variables tag_bio new_bio pred_bio metric : string.
Variable threshold : Q.
Variables direction category_id : string.

#[local] Abbreviation body :=
  (relabel_token tag_bio new_bio pred_bio metric threshold direction
                 category_id).

(** A step that raises a counter has relabelled its token to the
    predicted tag and leaves the continuation armed: by the threshold test
    [prev] becomes that tag, by continuation [prev] stays what it was, a
    tag other than "O". *)
Lemma relabel_token_relabelled (st0 st : RelabelState) (t t' : Token) :
  body st0 t = Some (st, t') ->
  tokens_changed st + tokens_changed_additionally st
  = tokens_changed st0 + tokens_changed_additionally st0 + 1 ->
  t' = set_label t new_bio (get_label t pred_bio) /\
  previous_changed st = true /\
  (prev st = get_label t pred_bio \/
   prev st = prev st0 /\ prev st0 <> "O").
Proof.
  unfold relabel_token. intros H Hcount.
  repeat match type of H with
         | context [?o ≫= _] => destruct o eqn:?; simpl in H
         | context [if ?b then _ else _] => destruct b eqn:?
         end; simplify_eq; simpl in *; try lia.
  all: split; [reflexivity|].
  all: try match goal with
           | Hb : previous_changed _ && negb _ = true |- _ =>
               apply andb_prop in Hb as [Harmed Hprev];
               apply negb_true_iff, String.eqb_neq in Hprev
           end.
  all: split;
    [first [reflexivity | assumption]
    |first [left; reflexivity | right; split; [reflexivity | assumption]]].
Qed.

(** A token outside the category on which the continuation fires. *)
Lemma relabel_token_continues (st : RelabelState) (t : Token)
    (entity : string) :
  in_category category_id (get_label t tag_bio) (get_label t pred_bio)
  = Some false ->
  previous_changed st = true ->
  prev st <> "O" ->
  PyStr.split "-"%char (prev st) !! 1%nat = Some entity ->
  PyStr.endswith (get_label t tag_bio) entity = true ->
  PyStr.endswith (get_label t pred_bio) entity = true ->
  body st t =
  Some ({| prev := prev st;
           previous_changed := true;
           tokens_changed := tokens_changed st;
           tokens_changed_additionally := tokens_changed_additionally st + 1 |},
        set_label t new_bio (get_label t pred_bio)).
Proof.
  intros Hcat Hchanged Hprev Hsplit Hobs Hpred.
  unfold relabel_token. rewrite Hcat; simpl.
  rewrite Hchanged. apply String.eqb_neq in Hprev. rewrite Hprev; simpl.
  rewrite Hsplit; simpl. rewrite Hobs, Hpred; simpl. reflexivity.
Qed.

(** A token outside the category on which the continuation does not fire
    disarms it and is left as it is. *)
Lemma relabel_token_resets (st : RelabelState) (t : Token) :
  in_category category_id (get_label t tag_bio) (get_label t pred_bio)
  = Some false ->
  (previous_changed st = false \/ prev st = "O" \/
   exists entity : string,
     PyStr.split "-"%char (prev st) !! 1%nat = Some entity /\
     PyStr.endswith (get_label t tag_bio) entity
     && PyStr.endswith (get_label t pred_bio) entity = false) ->
  body st t =
  Some ({| prev := prev st;
           previous_changed := false;
           tokens_changed := tokens_changed st;
           tokens_changed_additionally := tokens_changed_additionally st |},
        t).
Proof.
  intros Hcat Hfail.
  unfold relabel_token. rewrite Hcat; simpl.
  destruct Hfail as [->| [-> | (entity & Hsplit & Hends)]].
  - reflexivity.
  - simpl. by rewrite andb_false_r.
  - destruct (previous_changed st && negb (String.eqb (prev st) "O"));
      [|reflexivity].
    rewrite Hsplit; simpl. by rewrite Hends.
Qed.

(** A token in the category that fails the threshold test is left as it
    is, and so is the state of the continuation. *)
Lemma relabel_token_in_category_below (st : RelabelState) (t : Token)
    (value : Q) :
  in_category category_id (get_label t tag_bio) (get_label t pred_bio)
  = Some true ->
  get_metric t metric = Some value ->
  threshold_rule direction value threshold = false ->
  body st t = Some (st, t).
Proof.
  intros Hcat Hmetric Hrule.
  unfold relabel_token. rewrite Hcat; simpl.
  rewrite Hmetric; simpl. by rewrite Hrule.
Qed.

End RelabelStep.

(** C5, as the code has it.  In the token loop of a relabel pass, let the
    token before [t] have been relabelled in this pass (a counter went
    up) to a tag other than "O", and let [entity] be the entity type of
    [prev], the tag the threshold test wrote last.  If [t] is not in the
    category of the pass and its observed and predicted tags both end in
    [entity], then [t] is relabelled to its predicted tag, the
    continuation counter goes up by one and the continuation stays armed.
    The pass is one left-to-right sweep: the rest of the sentence is
    processed from the state this leaves.  A token outside the category on
    which the rule does not fire disarms the continuation and is not
    touched.  A token in the category is handled by the threshold test
    alone, whatever the state of the continuation: if it passes it is
    relabelled to its predicted tag, counted in the first counter, and
    arms the continuation with that tag; if it fails it is not touched
    and the state is left as it is, so the continuation stays armed
    across it. *)
Theorem C5_relabel_continuation
    (tag_bio new_bio pred_bio metric : string) (threshold : Q)
    (direction category_id : string)
    (init st0 st : RelabelState) (pre pre' post : list Token)
    (t_prev t_prev' t : Token) (entity : string) :
  let step := relabel_token tag_bio new_bio pred_bio metric threshold
                            direction category_id in
  let st' := {| prev := prev st;
                previous_changed := true;
                tokens_changed := tokens_changed st;
                tokens_changed_additionally :=
                  tokens_changed_additionally st + 1 |} in
  let t' := set_label t new_bio (get_label t pred_bio) in
  for_each step init pre = Some (st0, pre') ->
  step st0 t_prev = Some (st, t_prev') ->
  tokens_changed st + tokens_changed_additionally st
  = tokens_changed st0 + tokens_changed_additionally st0 + 1 ->
  get_label t_prev' new_bio <> "O" ->
  in_category category_id (get_label t tag_bio) (get_label t pred_bio)
  = Some false ->
  PyStr.split "-"%char (prev st) !! 1%nat = Some entity ->
  PyStr.endswith (get_label t tag_bio) entity = true ->
  PyStr.endswith (get_label t pred_bio) entity = true ->
  step st t = Some (st', t') /\
  for_each step init (pre ++ t_prev :: t :: post)
  = ('(st2, post') ← for_each step st' post;
     Some (st2, pre' ++ t_prev' :: t' :: post')) /\
  (forall (s : RelabelState) (u : Token),
      in_category category_id (get_label u tag_bio) (get_label u pred_bio)
      = Some false ->
      (previous_changed s = false \/ prev s = "O" \/
       exists e : string,
         PyStr.split "-"%char (prev s) !! 1%nat = Some e /\
         PyStr.endswith (get_label u tag_bio) e
         && PyStr.endswith (get_label u pred_bio) e = false) ->
      step s u = Some ({| prev := prev s;
                          previous_changed := false;
                          tokens_changed := tokens_changed s;
                          tokens_changed_additionally :=
                            tokens_changed_additionally s |}, u)) /\
  (forall (s : RelabelState) (u : Token) (value : Q),
      in_category category_id (get_label u tag_bio) (get_label u pred_bio)
      = Some true ->
      get_metric u metric = Some value ->
      step s u
      = Some (if threshold_rule direction value threshold
              then ({| prev := get_label u pred_bio;
                       previous_changed := true;
                       tokens_changed := tokens_changed s + 1;
                       tokens_changed_additionally :=
                         tokens_changed_additionally s |},
                    set_label u new_bio (get_label u pred_bio))
              else (s, u))).
Proof.
  intros step st' t' Hpre Hprev Hcount Hnew Hcat Hsplit Hobs Hpred.
  destruct (relabel_token_relabelled _ _ _ _ _ _ _ _ _ _ _ Hprev Hcount)
    as (Ht_prev & Harmed & Hwhich).
  assert (HnotO : prev st <> "O").
  { destruct Hwhich as [Heq | [Heq HnotO]].
    - rewrite Heq. rewrite Ht_prev, get_label_set_label in Hnew. exact Hnew.
    - by rewrite Heq. }
  assert (Hstep : step st t = Some (st', t')).
  { by apply relabel_token_continues with (entity := entity). }
  split; [exact Hstep|]. split; [|split].
  - rewrite for_each_app, Hpre; simpl.
    fold step. rewrite Hprev; simpl. rewrite Hstep; simpl.
    destruct (for_each step st' post) as [[st2 post']|]; reflexivity.
  - intros s u Hu Hfail. by apply relabel_token_resets.
  - intros s u value Hu Hmetric. unfold step, relabel_token.
    rewrite Hu. step_bind. rewrite Hmetric. step_bind.
    by destruct (threshold_rule direction value threshold).
Qed.

Lemma C5_witness :
  relabel_token "ner_bio" "ner_new_bio" "predicted_bio" "confidence" 0.5
    "left" "4"
    {| prev := "B-PER"; previous_changed := true;
       tokens_changed := 1; tokens_changed_additionally := 0 |}
    (seen "E-PER" "E-PER" "E-PER" 0.9)
  = Some ({| prev := "B-PER"; previous_changed := true;
             tokens_changed := 1; tokens_changed_additionally := 0 + 1 |},
          set_label (seen "E-PER" "E-PER" "E-PER" 0.9) "ner_new_bio" "E-PER").
Proof.
  refine (proj1 (C5_relabel_continuation
            "ner_bio" "ner_new_bio" "predicted_bio" "confidence" 0.5
            "left" "4"
            {| prev := "O"; previous_changed := false;
               tokens_changed := 0; tokens_changed_additionally := 0 |}
            {| prev := "O"; previous_changed := false;
               tokens_changed := 0; tokens_changed_additionally := 0 |}
            {| prev := "B-PER"; previous_changed := true;
               tokens_changed := 1; tokens_changed_additionally := 0 |}
            [] [] []
            (seen "B-LOC" "B-PER" "B-LOC" 0.2)
            (set_label (seen "B-LOC" "B-PER" "B-LOC" 0.2)
                       "ner_new_bio" "B-PER")
            (seen "E-PER" "E-PER" "E-PER" 0.9) "PER"
            _ _ _ _ _ _ _ _)).
  - reflexivity.
  - vm_compute; reflexivity.
  - reflexivity.
  - vm_compute; discriminate.
  - vm_compute; reflexivity.
  - vm_compute; reflexivity.
  - vm_compute; reflexivity.
  - vm_compute; reflexivity.
Defined.

(** The claim as it is written fails on a token of the category that does
    not pass the threshold test: the first token is relabelled to B-PER,
    the second is observed I-PER and predicted E-PER, both of type PER,
    yet it keeps its working tag and the continuation counter stays 0. *)
Lemma C5_counterexample :
  working_tags <$> (snd <$> relabel_category decode two_tokens "ner"
                              "ner_new" "predicted_bio" "confidence" 0.5
                              "left" "4")
  = Some [["B-PER"; "I-PER"]] /\
  fst <$> relabel_category decode two_tokens "ner" "ner_new"
            "predicted_bio" "confidence" 0.5 "left" "4"
  = Some (1, 0) /\
  PyStr.split "-"%char "B-PER" !! 1%nat = Some "PER" /\
  PyStr.endswith "I-PER" "PER" = true /\
  PyStr.endswith "E-PER" "PER" = true.
Proof. vm_compute. repeat split; reflexivity. Qed.

(** The continuation stays armed across a token of the category that
    fails the threshold test: the first token is relabelled, the second is
    in the category and confident, and the third, outside the category,
    is still relabelled by continuation. *)
Lemma relabel_continues_across_category_token :
  working_tags <$> (snd <$> relabel_category decode three_tokens "ner"
                              "ner_new" "predicted_bio" "confidence" 0.5
                              "left" "4")
  = Some [["B-PER"; "I-LOC"; "E-PER"]] /\
  fst <$> relabel_category decode three_tokens "ner" "ner_new"
            "predicted_bio" "confidence" 0.5 "left" "4"
  = Some (1, 1).
Proof. vm_compute. split; reflexivity. Qed.

(** ** Layer metrics of the early-exit tagger *)

Lemma fltb_Fin_lt (x y : R) : (x < y)%R -> fltb (Fin x) (Fin y) = true.
Proof.
  intros H. simpl. destruct (Rlt_dec x y); [reflexivity|contradiction].
Qed.

Lemma fltb_Fin_ge (x y : R) : (y <= x)%R -> fltb (Fin x) (Fin y) = false.
Proof. intros H. simpl. destruct (Rlt_dec x y); [lra|reflexivity]. Qed.

Lemma agree_run_le (pred : list nat) (last : nat) (indices : list nat) :
  (SpecWording.agree_run pred last indices <= length indices)%nat.
Proof.
  induction indices as [|i indices IH]; simpl; [lia|].
  destruct (pred !! i) as [p|]; [|lia].
  destruct (Nat.eqb p last); lia.
Qed.

Lemma agree_run_all (pred : list nat) (last : nat) (indices : list nat) :
  Forall (fun i => pred !! i = Some last) indices ->
  SpecWording.agree_run pred last indices = length indices.
Proof.
  induction 1 as [|i indices Hi _ IH]; simpl; [reflexivity|].
  by rewrite Hi, Nat.eqb_refl, IH.
Qed.

(** The loop over any indices inside the prediction list: it returns, the
    depth loses one per index of the leading run that agrees with the
    last layer (unless a mismatch came earlier), and the agreement counter
    grows at least by that run. *)
Lemma layer_loop_run (pred_labels : list nat) (pred_last gold_label : nat)
    (indices : list nat) :
  last pred_labels = Some pred_last ->
  Forall (fun i => (i < length pred_labels)%nat) indices ->
  forall st : LayerState,
  exists st' : LayerState,
    layer_loop pred_labels gold_label st indices = Some st' /\
    let run := SpecWording.agree_run pred_labels pred_last indices in
    pd st' = (if final_pd st then pd st else pd st - Z.of_nat run) /\
    agree_w_last st + Z.of_nat run <= agree_w_last st'.
Proof.
  intros Hlast. induction 1 as [|i indices Hi _ IH]; intros st; simpl.
  - exists st. split; [reflexivity|]. destruct (final_pd st); lia.
  - apply lookup_lt_is_Some_2 in Hi as [p Hp].
    unfold layer_step. rewrite Hp, Hlast; simpl.
    destruct (Nat.eqb p pred_last) eqn:Hagree.
    + match goal with
      | |- context [layer_loop _ _ ?s indices] =>
          destruct (IH s) as (st' & Hloop & Hpd & Hcount)
      end.
      exists st'. split; [exact Hloop|].
      rewrite Hpd; clear Hpd. revert Hcount.
      destruct (Nat.eqb p gold_label); simpl;
        destruct (final_pd st); simpl; intros; split; lia.
    + match goal with
      | |- context [layer_loop _ _ ?s indices] =>
          destruct (IH s) as (st' & Hloop & Hpd & Hcount)
      end.
      exists st'. split; [exact Hloop|].
      rewrite Hpd; clear Hpd. revert Hcount.
      pose proof (agree_run_le pred_labels pred_last indices).
      destruct (Nat.eqb p gold_label); simpl;
        destruct (final_pd st); simpl; intros; split; lia.
Qed.

Lemma rev_seq_S (n : nat) : rev (seq 0 (S n)) = n :: rev (seq 0 n).
Proof. rewrite seq_S, rev_app_distr. reflexivity. Qed.

Lemma argmax_nonempty (row : list npfloat) :
  row <> [] -> is_Some (argmax row).
Proof. destruct row; [done|]. intros _. by eexists. Qed.

(** The integer results of [_calculate_layer_metrics] in terms of the
    layers' predictions: the depth is one less than the depth the
    specification describes, because the scan starts at the last layer,
    which agrees with itself. *)
Lemma calculate_layer_metrics_depth (num_labels : nat)
    (scores : list (list npfloat)) (gold_label : nat)
    (pred_labels : list nat) :
  mapM argmax scores = Some pred_labels ->
  (1 <= length scores)%nat ->
  exists m : LayerMetrics,
    _calculate_layer_metrics (length scores) num_labels scores gold_label
    = Some m /\
    prediction_depth m = SpecWording.prediction_depth pred_labels - 1 /\
    1 <= total_agree_w_last m.
Proof.
  intros Hpred Hlen.
  assert (Hsame : length pred_labels = length scores).
  { apply length_mapM in Hpred. done. }
  assert (Hlast : is_Some (last pred_labels)).
  { rewrite last_lookup, Hsame. apply lookup_lt_is_Some_2. lia. }
  destruct Hlast as [pred_last Hlast].
  destruct (layer_loop_run pred_labels pred_last gold_label
              (rev (seq 0 (length scores))) Hlast) with
    (st := {| pd := Z.of_nat (length scores); final_pd := false;
              fl := Z.of_nat (length scores);
              agree_w_last := 0; agree_w_correct := 0 |})
    as (st' & Hloop & Hpd & Hcount).
  { apply Forall_forall. intros i Hi.
    apply list_elem_of_In, in_rev, in_seq in Hi. lia. }
  unfold _calculate_layer_metrics. rewrite Hpred; simpl.
  rewrite Hloop; simpl. eexists. split; [reflexivity|]. simpl.
  simpl in Hpd, Hcount.
  unfold SpecWording.prediction_depth. rewrite Hlast, Hsame; simpl.
  destruct (length scores) as [|n]; [lia|].
  rewrite rev_seq_S in Hpd, Hcount. simpl in Hpd, Hcount.
  rewrite last_lookup, Hsame in Hlast. simpl in Hlast.
  rewrite Hlast, Nat.eqb_refl in Hpd, Hcount.
  simpl. rewrite Nat.sub_0_r.
  split; lia.
Qed.

(** C10. On a stack of L >= 1 layers, each with at least one class score,
    the layer metrics are returned with [total_agree_w_last >= 1] and
    [0 <= prediction_depth <= L - 1]: the scan starts at the last layer,
    which agrees with itself.  When every layer predicts what the last one
    predicts, the depth is 0. *)
Theorem C10_layer_metrics_bounds (n_layers num_labels : nat)
    (scores : list (list npfloat)) (gold_label : nat) :
  n_layers = length scores ->
  (1 <= n_layers)%nat ->
  Forall (fun row => row <> []) scores ->
  exists (m : LayerMetrics) (pred_labels : list nat),
    mapM argmax scores = Some pred_labels /\
    _calculate_layer_metrics n_layers num_labels scores gold_label = Some m /\
    1 <= total_agree_w_last m /\
    0 <= SequenceTaggerModel.prediction_depth m <= Z.of_nat n_layers - 1 /\
    ((forall p : nat, p ∈ pred_labels -> last pred_labels = Some p) ->
     SequenceTaggerModel.prediction_depth m = 0).
Proof.
  intros -> Hlen Hrows.
  destruct (mapM_is_Some_2 argmax scores) as [pred_labels Hpred].
  { eapply Forall_impl; [exact Hrows|]. intros row. apply argmax_nonempty. }
  destruct (calculate_layer_metrics_depth num_labels scores gold_label
              pred_labels Hpred Hlen) as (m & Hm & Hpd & Hcount).
  exists m, pred_labels. repeat split; try done.
  - rewrite Hpd. unfold SpecWording.prediction_depth.
    apply length_mapM in Hpred. rewrite <- Hpred.
    match goal with
    | |- context [SpecWording.agree_run ?p ?l ?i] =>
        pose proof (agree_run_le p l i) as Hle
    end.
    rewrite length_rev, length_seq in Hle. lia.
  - rewrite Hpd. unfold SpecWording.prediction_depth.
    apply length_mapM in Hpred. rewrite <- Hpred. lia.
  - intros Hall. rewrite Hpd. unfold SpecWording.prediction_depth.
    assert (Hsame : length scores = length pred_labels)
      by by apply length_mapM in Hpred.
    assert (Hlast : is_Some (last pred_labels)).
    { rewrite last_lookup. apply lookup_lt_is_Some_2. lia. }
    destruct Hlast as [pred_last Hlast]. rewrite Hlast; simpl.
    rewrite agree_run_all.
    + rewrite length_rev, length_seq. lia.
    + apply Forall_forall. intros i Hi.
      apply list_elem_of_In, in_rev, in_seq in Hi.
      destruct (lookup_lt_is_Some_2 pred_labels i) as [p Hp]; [lia|].
      rewrite Hp. rewrite <- Hlast. symmetry. apply Hall.
      by eapply list_elem_of_lookup_2.
Qed.

Lemma C10_witness :
  exists (m : LayerMetrics) (pred_labels : list nat),
    mapM argmax layers_011 = Some pred_labels /\
    _calculate_layer_metrics 3 2 layers_011 1 = Some m /\
    1 <= total_agree_w_last m /\
    0 <= SequenceTaggerModel.prediction_depth m <= Z.of_nat 3 - 1 /\
    ((forall p : nat, p ∈ pred_labels -> last pred_labels = Some p) ->
     SequenceTaggerModel.prediction_depth m = 0).
Proof.
  apply (C10_layer_metrics_bounds 3 2 layers_011 1).
  - reflexivity.
  - simpl. lia.
  - unfold layers_011. repeat constructor; discriminate.
Defined.

Lemma argmax_layers_011 : mapM argmax layers_011 = Some [0; 1; 1]%nat.
Proof.
  unfold layers_011, argmax. cbn [mapM mbind mret option_bind option_ret
                                   argmax_from].
  rewrite (fltb_Fin_ge 1 0) by lra. rewrite (fltb_Fin_lt 0 1) by lra.
  reflexivity.
Qed.

(** C6, evaluated.  Three layers predict 0, 1, 1.  The depth the
    specification describes is 3 - 1 = 2: one layer before the last
    agrees with it.  The code returns 1, having also counted the last
    layer itself. *)
Theorem C6_prediction_depth_counts_last_layer :
  mapM argmax layers_011 = Some [0; 1; 1]%nat /\
  SpecWording.prediction_depth [0; 1; 1]%nat = 2 /\
  SequenceTaggerModel.prediction_depth
    <$> _calculate_layer_metrics 3 2 layers_011 1 = Some 1.
Proof.
  split; [exact argmax_layers_011|]. split; [reflexivity|].
  destruct (calculate_layer_metrics_depth 2 layers_011 1 [0; 1; 1]%nat
              argmax_layers_011) as (m & Hm & Hpd & _).
  { simpl. lia. }
  change (length layers_011) with 3%nat in Hm. rewrite Hm. simpl.
  rewrite Hpd. reflexivity.
Qed.

(** ** The metrics of one token *)

(** *** [np.argsort] returns the indices of the array *)

Lemma insert_index_Permutation (key : nat -> npfloat) (i : nat)
    (sorted : list nat) :
  Permutation (insert_index key i sorted) (i :: sorted).
Proof.
  induction sorted as [|j rest IH]; simpl; [reflexivity|].
  destruct (fltb (key i) (key j)); [reflexivity|].
  rewrite IH. apply perm_swap.
Qed.

Lemma argsort_Permutation (a : list npfloat) :
  Permutation (argsort a) (seq 0 (length a)).
Proof.
  unfold argsort.
  rewrite <- (app_nil_r (seq 0 (length a))) at 2.
  generalize (seq 0 (length a)) as indices. generalize (@nil nat) as acc.
  intros acc indices. revert acc.
  induction indices as [|i indices IH]; intros acc; simpl; [reflexivity|].
  rewrite IH, insert_index_Permutation.
  symmetry. apply Permutation_middle.
Qed.

Lemma top_two_indices (a : list npfloat) :
  (2 <= length a)%nat ->
  exists first second : nat,
    take 2 (rev (argsort a)) !! 0%nat = Some first /\
    take 2 (rev (argsort a)) !! 1%nat = Some second /\
    (first < length a)%nat /\ (second < length a)%nat.
Proof.
  intros Hlen.
  assert (Hperm : Permutation (rev (argsort a)) (seq 0 (length a))).
  { rewrite <- Permutation_rev. apply argsort_Permutation. }
  assert (Hsize : length (rev (argsort a)) = length a).
  { rewrite (Permutation_length Hperm). apply length_seq. }
  assert (Hin : forall i k : nat,
             take 2 (rev (argsort a)) !! i = Some k -> (k < length a)%nat).
  { intros i k Hk. apply lookup_take_Some in Hk as [Hk _].
    apply list_elem_of_lookup_2 in Hk. rewrite Hperm in Hk.
    apply elem_of_seq in Hk. lia. }
  destruct (lookup_lt_is_Some_2 (take 2 (rev (argsort a))) 0) as [p Hp].
  { rewrite length_take. lia. }
  destruct (lookup_lt_is_Some_2 (take 2 (rev (argsort a))) 1) as [s Hs].
  { rewrite length_take. lia. }
  exists p, s. repeat split; eauto.
Qed.

(** *** What an update returns *)

(** The fields of a returned update that the properties below rest on. *)
Lemma calculate_metrics_token_Some (tagset_size : nat) (history : History)
    (softmax_token : list npfloat) (gold_label : nat)
    (m : Metrics) (h : History) :
  calculate_metrics_token tagset_size history softmax_token gold_label
  = Some (m, h) ->
  exists (p_y : npfloat) (flag : Z),
    softmax_token !! gold_label = Some p_y /\
    prediction_correct softmax_token gold_label = Some flag /\
    total_epochs h = total_epochs history + 1 /\
    hist_MILD h = hist_MILD history ++ [flag] /\
    length (hist_prediction h) = length (hist_prediction history) /\
    mild_m m = calculate_mild_m (hist_MILD h) /\
    mild_f m = calculate_mild_f (hist_MILD h) /\
    mild m = mild_m m - mild_f m /\
    last_confidence_sum h = fadd (last_confidence_sum history) p_y /\
    confidence m = fdiv (last_confidence_sum h) (of_Z (total_epochs h)) /\
    last_sq_difference_sum h
    = fadd (last_sq_difference_sum history)
           (fsquare (fsub p_y (confidence m))) /\
    variability m
    = fsqrt (fdiv (last_sq_difference_sum h) (of_Z (total_epochs h))) /\
    cross_entropy m
    = (if feqb (fneg (nan_to_num (flog p_y))) (of_Z 0) then Fin 0
       else fneg (nan_to_num (flog p_y))) /\
    entropy m
    = fneg (fsum (zip_with fmul softmax_token
                    (map (fun p => nan_to_num (flog p)) softmax_token))).
Proof.
  unfold calculate_metrics_token, prediction_correct, prediction_of.
  intros H.
  repeat match type of H with
         | context [?o ≫= _] => destruct o eqn:?; simpl in H; [|discriminate]
         end.
  injection H as <- <-. simpl.
  eexists _, _. repeat split; try reflexivity.
  by rewrite length_insert.
Qed.

Lemma int_truediv_Some (a b : Z) : b <> 0 -> is_Some (int_truediv a b).
Proof.
  intros Hb. unfold int_truediv.
  destruct (Z.eqb_spec b 0); [contradiction|by eexists].
Qed.

(** An update returns whenever the token has at least two class scores,
    its observed label is one of them, the history counts predictions for
    each of them, and the epoch count does not become zero. *)
Lemma calculate_metrics_token_total (tagset_size : nat) (history : History)
    (softmax_token : list npfloat) (gold_label : nat) :
  (2 <= length softmax_token)%nat ->
  (gold_label < length softmax_token)%nat ->
  (length softmax_token <= length (hist_prediction history))%nat ->
  total_epochs history + 1 <> 0 ->
  exists (m : Metrics) (h : History),
    calculate_metrics_token tagset_size history softmax_token gold_label
    = Some (m, h).
Proof.
  intros Hlen Hgold Hhist Hn.
  destruct (top_two_indices softmax_token Hlen)
    as (p & s & Hp & Hs & Hp_lt & Hs_lt).
  destruct (lookup_lt_is_Some_2 softmax_token p Hp_lt) as [vp Hvp].
  destruct (lookup_lt_is_Some_2 softmax_token s Hs_lt) as [vs Hvs].
  destruct (lookup_lt_is_Some_2 softmax_token gold_label Hgold) as [vy Hvy].
  destruct (lookup_lt_is_Some_2 (hist_prediction history) p) as [c Hc];
    [lia|].
  unfold calculate_metrics_token. cbv zeta.
  rewrite Hp. step_bind. rewrite Hvp. step_bind.
  rewrite Hs. step_bind. rewrite Hvs. step_bind.
  rewrite Hvy. step_bind.
  match goal with
  | |- context [int_truediv ?a ?b ≫= _] =>
      destruct (int_truediv_Some a b Hn) as [q1 ->]
  end. step_bind.
  match goal with
  | |- context [int_truediv ?a ?b ≫= _] =>
      destruct (int_truediv_Some a b Hn) as [q2 ->]
  end. step_bind.
  rewrite Hc. step_bind.
  match goal with
  | |- context [mapM ?f ?l ≫= _] =>
      destruct (mapM_is_Some_2 f l) as [freq ->]
  end.
  { apply Forall_forall. intros x _. by apply int_truediv_Some. }
  step_bind. eexists _, _. reflexivity.
Qed.

Lemma length_softmax (row : list npfloat) :
  length (softmax row) = length row.
Proof. unfold softmax. by rewrite !length_map. Qed.

(** *** One token over the epochs *)

(** Over valid epochs the updates all return; the epoch counter advances
    by the number of epochs and the correctness history grows by one flag
    per epoch, the flag of that epoch's prediction. *)
Lemma token_epochs_history (tagset_size : nat)
    (epochs : list (list npfloat * nat)) (history : History) :
  0 <= total_epochs history ->
  Forall (valid_epoch (length (hist_prediction history))) epochs ->
  exists (ms : list Metrics) (h : History) (flags : list Z),
    token_epochs tagset_size history epochs = Some (ms, h) /\
    length ms = length epochs /\
    mapM (fun epoch => prediction_correct (softmax epoch.1) epoch.2) epochs
    = Some flags /\
    total_epochs h = total_epochs history + Z.of_nat (length epochs) /\
    hist_MILD h = hist_MILD history ++ flags.
Proof.
  intros Hn Hvalid. revert history Hn Hvalid.
  induction epochs as [|[scores gold_label] epochs IH];
    intros history Hn Hvalid; simpl.
  - exists [], history, []. rewrite app_nil_r.
    repeat split; simpl; lia.
  - apply Forall_cons in Hvalid as [[Hsize Hgold] Hvalid]. simpl in *.
    destruct (calculate_metrics_token_total tagset_size history
                (softmax scores) gold_label) as (m & h1 & Hstep);
      rewrite ?length_softmax; try lia.
    rewrite Hstep. step_bind.
    apply calculate_metrics_token_Some in Hstep
      as (p_y & flag & _ & Hflag & Htotal & Hmild & Hcount & _).
    destruct (IH h1) as (ms & h & flags & Hrest & Hlen & Hflags & Hn' & Hm).
    { lia. }
    { by rewrite Hcount. }
    rewrite Hrest. step_bind.
    exists (m :: ms), h, (flag :: flags).
    rewrite Hflag, Hflags. step_bind.
    repeat split.
    + simpl. by rewrite Hlen.
    + lia.
    + rewrite Hm, Hmild, <- app_assoc. reflexivity.
Qed.

Lemma length_hist_prediction_init (tagset_size : nat) :
  length (hist_prediction (_init_metrics_logging tagset_size)) = tagset_size.
Proof. simpl. apply repeat_length. Qed.

(** C1, as the code has it.  From its initialization a token's history
    goes through any number of valid epoch updates, and after n of them
    [total_epochs] is n while the correctness history [hist_MILD] holds
    n + 1 flags: the 0 it is initialized with and one flag per epoch. *)
Theorem C1_correctness_history_length (tagset_size : nat)
    (epochs : list (list npfloat * nat)) :
  Forall (valid_epoch tagset_size) epochs ->
  exists (ms : list Metrics) (h : History),
    token_epochs tagset_size (_init_metrics_logging tagset_size) epochs
    = Some (ms, h) /\
    total_epochs h = Z.of_nat (length epochs) /\
    Z.of_nat (length (hist_MILD h)) = total_epochs h + 1.
Proof.
  intros Hvalid.
  destruct (token_epochs_history tagset_size epochs
              (_init_metrics_logging tagset_size))
    as (ms & h & flags & Hrun & _ & Hflags & Htotal & Hmild).
  { simpl. lia. }
  { by rewrite length_hist_prediction_init. }
  exists ms, h. split; [exact Hrun|].
  apply length_mapM in Hflags.
  rewrite Htotal, Hmild, length_app, <- Hflags. simpl. lia.
Qed.

Lemma valid_epochs_101 : Forall (valid_epoch 2) epochs_101.
Proof. unfold epochs_101, valid_epoch. repeat constructor. Qed.

Lemma C1_witness :
  exists (ms : list Metrics) (h : History),
    token_epochs 2 (_init_metrics_logging 2) epochs_101 = Some (ms, h) /\
    total_epochs h = Z.of_nat (length epochs_101) /\
    Z.of_nat (length (hist_MILD h)) = total_epochs h + 1.
Proof.
  apply (C1_correctness_history_length 2 epochs_101).
  unfold epochs_101, valid_epoch. repeat constructor.
Defined.

(** The invariant of the claim fails from the start: the initial history
    counts no epoch and holds one flag, and after the three epochs of
    [epochs_101] it counts three and holds four. *)
Lemma C1_counterexample :
  total_epochs (_init_metrics_logging 2)
  <> Z.of_nat (length (hist_MILD (_init_metrics_logging 2))) /\
  exists (ms : list Metrics) (h : History),
    token_epochs 2 (_init_metrics_logging 2) epochs_101 = Some (ms, h) /\
    total_epochs h <> Z.of_nat (length (hist_MILD h)).
Proof.
  split; [simpl; lia|].
  destruct (token_epochs_history 2 epochs_101 (_init_metrics_logging 2))
    as (ms & h & flags & Hrun & _ & Hflags & Htotal & Hmild).
  { simpl. lia. }
  { apply valid_epochs_101. }
  exists ms, h. split; [exact Hrun|].
  apply length_mapM in Hflags.
  rewrite Htotal, Hmild, length_app, <- Hflags. simpl. lia.
Qed.

Lemma token_epochs_app (tagset_size : nat) (history : History)
    (l1 l2 : list (list npfloat * nat)) :
  token_epochs tagset_size history (l1 ++ l2) =
  '(ms1, h1) ← token_epochs tagset_size history l1;
  '(ms2, h2) ← token_epochs tagset_size h1 l2;
  Some (ms1 ++ ms2, h2).
Proof.
  revert history. induction l1 as [|[scores gold_label] l1 IH];
    intros history; simpl.
  - destruct (token_epochs tagset_size history l2) as [[ms2 h2]|]; reflexivity.
  - destruct (calculate_metrics_token _ _ _ _) as [[m h]|]; step_bind;
      [|reflexivity].
    rewrite IH.
    destruct (token_epochs tagset_size h l1) as [[ms1 h1]|]; step_bind;
      [|reflexivity].
    destruct (token_epochs tagset_size h1 l2) as [[ms2 h2]|]; reflexivity.
Qed.

(** The softmax of two finite scores, the first the larger, and the
    prediction read off it. *)
Lemma prediction_of_softmax_pair (x y : R) :
  (y < x)%R -> prediction_of (softmax [Fin x; Fin y]) = Some 0%nat.
Proof.
  intros Hlt.
  pose proof (exp_pos (x + - x)) as Hx. pose proof (exp_pos (y + - x)) as Hy.
  assert (Hsum : (0 + exp (x + - x) + exp (y + - x))%R <> 0%R) by lra.
  unfold softmax, fsum, row_max. cbn [fold_left fmax].
  rewrite fltb_Fin_ge by lra.
  cbn [map fold_left fexp fsub fneg fadd fdiv].
  destruct (Req_dec_T (0 + exp (x + - x) + exp (y + - x)) 0) as [|_];
    [contradiction|].
  unfold prediction_of, argsort.
  cbn [length seq fold_left insert_index nth].
  rewrite fltb_Fin_lt.
  - reflexivity.
  - apply Rmult_lt_compat_r; [apply Rinv_0_lt_compat; lra|].
    apply exp_increasing. lra.
Qed.

Lemma prediction_correct_epochs_101 :
  mapM (fun epoch => prediction_correct (softmax epoch.1) epoch.2) epochs_101
  = Some [1; 0; 1].
Proof.
  unfold epochs_101, prefers_0, prediction_correct.
  cbn [mapM fst snd]. rewrite prediction_of_softmax_pair by lra.
  reflexivity.
Qed.

(** After three valid epoch updates of a fresh token with correctness
    flags 1, 0, 1 the history holds 0, 1, 0, 1 and the third epoch's MILD
    metrics are those of that sequence. *)
Lemma mild_after_three_epochs (tagset_size : nat)
    (e1 e2 e3 : list npfloat * nat) :
  Forall (valid_epoch tagset_size) [e1; e2; e3] ->
  mapM (fun epoch => prediction_correct (softmax epoch.1) epoch.2)
       [e1; e2; e3] = Some [1; 0; 1] ->
  exists (m1 m2 m3 : Metrics) (h : History),
    token_epochs tagset_size (_init_metrics_logging tagset_size) [e1; e2; e3]
    = Some ([m1; m2; m3], h) /\
    hist_MILD h = [0; 1; 0; 1] /\
    mild_f m3 = calculate_mild_f [0; 1; 0; 1] /\
    mild_m m3 = calculate_mild_m [0; 1; 0; 1] /\
    mild m3 = mild_m m3 - mild_f m3.
Proof.
  intros Hvalid Hflags.
  destruct (token_epochs_history tagset_size [e1; e2; e3]
              (_init_metrics_logging tagset_size))
    as (ms & h & flags & Hrun & Hlen & Hflags' & _ & Hmild).
  { simpl. lia. }
  { by rewrite length_hist_prediction_init. }
  rewrite Hflags in Hflags'. injection Hflags' as <-.
  change (hist_MILD (_init_metrics_logging tagset_size) ++ [1; 0; 1])
    with [0; 1; 0; 1] in Hmild.
  pose proof Hrun as Hsplit.
  change [e1; e2; e3] with ([e1; e2] ++ [e3]) in Hsplit.
  rewrite token_epochs_app in Hsplit.
  destruct (token_epochs tagset_size _ [e1; e2]) as [[ms1 h1]|] eqn:Hfirst;
    [|discriminate].
  cbn [mbind option_bind] in Hsplit. destruct e3 as [scores gold_label].
  cbn [token_epochs] in Hsplit.
  destruct (calculate_metrics_token tagset_size h1 (softmax scores) gold_label)
    as [[m3 h3]|] eqn:Hthird; [|discriminate].
  cbn [mbind option_bind] in Hsplit. injection Hsplit as <- <-.
  rewrite length_app in Hlen.
  destruct ms1 as [|m1 [|m2 [|? ?]]]; simpl in Hlen; try lia.
  exists m1, m2, m3, h3. split; [exact Hrun|]. split; [exact Hmild|].
  apply calculate_metrics_token_Some in Hthird
    as (_ & _ & _ & _ & _ & _ & _ & Hm & Hf & Hd & _).
  rewrite Hd, Hm, Hf, Hmild. repeat split; reflexivity.
Qed.

(** C2, as the code has it.  After three valid epoch updates of a fresh
    token whose predictions were correct, wrong, correct, the stored
    correctness history is 0, 1, 0, 1 (the initial 0 first), and the
    metrics of the third epoch are [mild_f = 2], [mild_m = 2] and
    [mild = 0]. *)
Theorem C2_mild_after_three_epochs (tagset_size : nat)
    (e1 e2 e3 : list npfloat * nat) :
  Forall (valid_epoch tagset_size) [e1; e2; e3] ->
  mapM (fun epoch => prediction_correct (softmax epoch.1) epoch.2)
       [e1; e2; e3] = Some [1; 0; 1] ->
  exists (m1 m2 m3 : Metrics) (h : History),
    token_epochs tagset_size (_init_metrics_logging tagset_size) [e1; e2; e3]
    = Some ([m1; m2; m3], h) /\
    hist_MILD h = [0; 1; 0; 1] /\
    mild_f m3 = 2 /\ mild_m m3 = 2 /\ mild m3 = 0.
Proof.
  intros Hvalid Hflags.
  destruct (mild_after_three_epochs tagset_size e1 e2 e3 Hvalid Hflags)
    as (m1 & m2 & m3 & h & Hrun & Hhist & Hf & Hm & Hd).
  exists m1, m2, m3, h. rewrite Hd, Hm, Hf. repeat split; done.
Qed.

Lemma C2_witness :
  exists (m1 m2 m3 : Metrics) (h : History),
    token_epochs 2 (_init_metrics_logging 2) epochs_101
    = Some ([m1; m2; m3], h) /\
    hist_MILD h = [0; 1; 0; 1] /\
    mild_f m3 = 2 /\ mild_m m3 = 2 /\ mild m3 = 0.
Proof.
  apply (C2_mild_after_three_epochs 2
           (prefers_0, 0%nat) (prefers_0, 1%nat) (prefers_0, 0%nat)).
  - unfold prefers_0, valid_epoch. repeat constructor.
  - exact prediction_correct_epochs_101.
Defined.

(** The values the claim names fail on the same three epochs: the
    correctness flags are 1, 0, 1, yet the third epoch's [mild_m] is 2, not
    1, and its [mild] is 0, not -1.  On the bare flags the two functions
    do return 2 and 1. *)
Lemma C2_counterexample :
  mapM (fun epoch => prediction_correct (softmax epoch.1) epoch.2) epochs_101
  = Some [1; 0; 1] /\
  calculate_mild_f [1; 0; 1] = 2 /\ calculate_mild_m [1; 0; 1] = 1 /\
  exists (m1 m2 m3 : Metrics) (h : History),
    token_epochs 2 (_init_metrics_logging 2) epochs_101
    = Some ([m1; m2; m3], h) /\
    mild_f m3 = 2 /\ mild_m m3 <> 1 /\ mild m3 <> -1.
Proof.
  split; [exact prediction_correct_epochs_101|].
  split; [reflexivity|]. split; [reflexivity|].
  destruct (mild_after_three_epochs 2
              (prefers_0, 0%nat) (prefers_0, 1%nat) (prefers_0, 0%nat))
    as (m1 & m2 & m3 & h & Hrun & _ & Hf & Hm & Hd).
  { apply valid_epochs_101. }
  { exact prediction_correct_epochs_101. }
  exists m1, m2, m3, h. split; [exact Hrun|].
  rewrite Hd, Hm, Hf. repeat split; vm_compute; discriminate.
Qed.

(** *** The same relation on the tokens of a batch *)

Lemma calculate_metrics_token_invariant (tagset_size : nat)
    (history : History) (softmax_token : list npfloat) (gold_label : nat)
    (m : Metrics) (h : History) :
  calculate_metrics_token tagset_size history softmax_token gold_label
  = Some (m, h) ->
  history_invariant history -> history_invariant h.
Proof.
  unfold history_invariant. intros Hstep Hinv.
  apply calculate_metrics_token_Some in Hstep
    as (_ & flag & _ & _ & Htotal & Hmild & _).
  rewrite Htotal, Hmild, length_app. simpl. lia.
Qed.

Lemma calculate_metrics_loop_invariant (tagset_size : nat)
    (rows : list (list npfloat)) (history_metrics : list History)
    (gold_labels : list nat) (ms : list Metrics) (updated : list History) :
  calculate_metrics_loop tagset_size history_metrics rows gold_labels
  = Some (ms, updated) ->
  Forall history_invariant history_metrics ->
  Forall history_invariant updated /\ length updated = length rows.
Proof.
  revert history_metrics gold_labels ms updated.
  induction rows as [|softmax_token rows IH];
    intros history_metrics gold_labels ms updated H Hinv; simpl in H.
  - injection H as <- <-. split; [constructor|reflexivity].
  - destruct history_metrics as [|history history_metrics]; [discriminate|].
    destruct gold_labels as [|gold_label gold_labels]; [discriminate|].
    destruct (calculate_metrics_token _ _ _ _) as [[m h]|] eqn:Hstep;
      cbn [mbind option_bind] in H; [|discriminate].
    destruct (calculate_metrics_loop _ _ _ _) as [[ms' hs]|] eqn:Hrest;
      cbn [mbind option_bind] in H; [|discriminate].
    injection H as <- <-.
    apply Forall_cons in Hinv as [Hh Hinv].
    destruct (IH _ _ _ _ Hrest Hinv) as [Hhs Hlen].
    split; [|simpl; by rewrite Hlen].
    constructor; [|exact Hhs].
    by eapply calculate_metrics_token_invariant.
Qed.

(** Every history a call of [calculate_and_log_metrics] leaves on the
    tokens of its batch satisfies the relation, when the histories the
    tokens brought did. *)
Lemma calculate_and_log_metrics_invariant (tagset_size : nat)
    (tokens : list (option History)) (scores : list (list npfloat))
    (observed_labels : list nat) (ms : list Metrics)
    (tokens' : list (option History)) :
  calculate_and_log_metrics tagset_size tokens scores observed_labels
  = Some (ms, tokens') ->
  Forall (fun t => forall h, t = Some h -> history_invariant h) tokens ->
  length tokens' = length tokens /\
  Forall (fun t => exists h, t = Some h /\ history_invariant h) tokens'.
Proof.
  unfold calculate_and_log_metrics, _calculate_metrics. intros H Hinv.
  destruct (tokens !! 0%nat) as [first|]; cbn [mbind option_bind] in H;
    [|discriminate].
  set (stored := match first with
                 | Some _ => tokens
                 | None => map (fun _ => Some (_init_metrics_logging
                                                 tagset_size)) tokens
                 end) in H.
  assert (Hstored : Forall (fun t => forall h, t = Some h ->
                                               history_invariant h) stored
                    /\ length stored = length tokens).
  { unfold stored. destruct first; [done|]. rewrite length_map.
    split; [|reflexivity]. apply Forall_forall. intros t Ht h ->.
    apply list_elem_of_In, in_map_iff in Ht as (_ & [= <-] & _).
    unfold history_invariant. simpl. lia. }
  destruct Hstored as [Hstored Hlen].
  destruct (mapM (fun history => history) stored) as [history_metrics|]
    eqn:Hread; cbn [mbind option_bind] in H; [|discriminate].
  destruct (mapM argmax (map softmax scores)) as [pred|];
    cbn [mbind option_bind] in H; [|discriminate].
  destruct (calculate_metrics_loop _ _ _ _) as [[metrics updated]|] eqn:Hloop;
    cbn [mbind option_bind] in H; [|discriminate].
  destruct (negb (Nat.eqb (length updated) (length stored))) eqn:Hsame;
    [discriminate|].
  injection H as <- <-.
  apply negb_false_iff, Nat.eqb_eq in Hsame.
  split; [rewrite length_map; lia|].
  apply calculate_metrics_loop_invariant in Hloop as [Hupdated _].
  - apply Forall_forall. intros t Ht.
    apply list_elem_of_In, in_map_iff in Ht as (h & <- & Hh).
    exists h. split; [reflexivity|].
    rewrite Forall_forall in Hupdated. apply Hupdated.
    by apply list_elem_of_In.
  - apply mapM_Some_1 in Hread.
    apply Forall_forall. intros h Hh.
    apply list_elem_of_lookup_1 in Hh as [i Hi].
    destruct (Forall2_lookup_r _ _ _ _ _ Hread Hi) as (t & Ht & Hth).
    rewrite Forall_forall in Hstored.
    apply (Hstored t); [by eapply list_elem_of_lookup_2|exact Hth].
Qed.

(** ** Confidence and variability *)

Lemma fdiv_Fin (a b : R) : b <> 0%R -> fdiv (Fin a) (Fin b) = Fin (a / b).
Proof.
  intros Hb. simpl. destruct (Req_dec_T b 0); [contradiction|reflexivity].
Qed.

Lemma fsqrt_Fin (a : R) : (0 <= a)%R -> fsqrt (Fin a) = Fin (sqrt a).
Proof. intros Ha. simpl. destruct (Rlt_dec a 0); [lra|reflexivity]. Qed.

(** C3. For every history and score vector the update accepts, with
    [n = total_epochs + 1] and [p_y] the softmax probability of the
    observed label, the update returns
    [confidence_sum' = last_confidence_sum + p_y],
    [confidence = confidence_sum' / n],
    [sq_diff_sum' = last_sq_difference_sum + (p_y - confidence)^2] and
    [variability = sqrt (sq_diff_sum' / n)], and the returned history
    holds both sums.  On finite values these are the real-number
    formulas. *)
Theorem C3_confidence_and_variability (tagset_size : nat) (history : History)
    (scores : list npfloat) (gold_label : nat) :
  (2 <= length scores)%nat ->
  (gold_label < length scores)%nat ->
  (length scores <= length (hist_prediction history))%nat ->
  0 <= total_epochs history ->
  let n := total_epochs history + 1 in
  exists (m : Metrics) (h : History) (p_y : npfloat),
    calculate_metrics_token tagset_size history (softmax scores) gold_label
    = Some (m, h) /\
    softmax scores !! gold_label = Some p_y /\
    total_epochs h = n /\
    last_confidence_sum h = fadd (last_confidence_sum history) p_y /\
    confidence m = fdiv (last_confidence_sum h) (of_Z n) /\
    last_sq_difference_sum h
    = fadd (last_sq_difference_sum history)
           (fsquare (fsub p_y (confidence m))) /\
    variability m = fsqrt (fdiv (last_sq_difference_sum h) (of_Z n)) /\
    (forall sum sq p : R,
        last_confidence_sum history = Fin sum ->
        last_sq_difference_sum history = Fin sq ->
        (0 <= sq)%R ->
        p_y = Fin p ->
        let mean := ((sum + p) / IZR n)%R in
        last_confidence_sum h = Fin (sum + p) /\
        confidence m = Fin mean /\
        last_sq_difference_sum h = Fin (sq + (p - mean) * (p - mean)) /\
        variability m
        = Fin (sqrt ((sq + (p - mean) * (p - mean)) / IZR n))).
Proof.
  intros Hlen Hgold Hhist Hn n.
  destruct (calculate_metrics_token_total tagset_size history
              (softmax scores) gold_label) as (m & h & Hstep);
    rewrite ?length_softmax; try lia.
  destruct (calculate_metrics_token_Some _ _ _ _ _ _ Hstep)
    as (p_y & flag & Hp & _ & Htotal & _ & _ & _ & _ & _
        & Hsum & Hconf & Hsq & Hvar & _).
  exists m, h, p_y. fold n in Htotal. rewrite Htotal in Hconf, Hvar.
  repeat (split; [done|]).
  intros sum sq p Hs Hq Hq0 -> mean.
  assert (Hn0 : IZR n <> 0%R).
  { apply not_0_IZR. unfold n. lia. }
  assert (Hnpos : (0 < IZR n)%R).
  { apply IZR_lt. unfold n. lia. }
  rewrite Hs in Hsum. simpl in Hsum.
  rewrite Hsum in Hconf. unfold of_Z in Hconf, Hvar.
  rewrite fdiv_Fin in Hconf by done. fold mean in Hconf.
  rewrite Hq, Hconf in Hsq. simpl in Hsq.
  replace (p + - mean)%R with (p - mean)%R in Hsq by lra.
  rewrite Hsq in Hvar. rewrite fdiv_Fin in Hvar by done.
  rewrite fsqrt_Fin in Hvar.
  - done.
  - apply Rmult_le_pos; [|left; by apply Rinv_0_lt_compat].
    pose proof (Rle_0_sqr (p - mean)) as Hsqr. unfold Rsqr in Hsqr. lra.
Qed.

Lemma C3_witness :
  exists (m : Metrics) (h : History) (p_y : npfloat),
    calculate_metrics_token 2 (_init_metrics_logging 2) (softmax prefers_0) 0
    = Some (m, h) /\
    softmax prefers_0 !! 0%nat = Some p_y /\
    total_epochs h = 1 /\
    last_confidence_sum h = fadd (Fin 0) p_y /\
    confidence m = fdiv (last_confidence_sum h) (of_Z 1) /\
    last_sq_difference_sum h
    = fadd (Fin 0) (fsquare (fsub p_y (confidence m))) /\
    variability m = fsqrt (fdiv (last_sq_difference_sum h) (of_Z 1)).
Proof.
  destruct (C3_confidence_and_variability 2 (_init_metrics_logging 2)
              prefers_0 0)
    as (m & h & p_y & H1 & H2 & H3 & H4 & H5 & H6 & H7 & _).
  - simpl. lia.
  - simpl. lia.
  - simpl. lia.
  - simpl. lia.
  - exists m, h, p_y. repeat split; assumption.
Defined.

(** ** Entropy and cross entropy at probability zero *)

Lemma float_max_pos : (0 < float_max)%R.
Proof.
  unfold float_max.
  assert (H23 : (1 < 2 ^ 23)%R) by (apply Rlt_pow_R1; [lra|lia]).
  assert (H127 : (0 < 2 ^ 127)%R) by (apply pow_lt; lra).
  assert (Hinv : (/ 2 ^ 23 < 1)%R).
  { rewrite <- Rinv_1. apply Rinv_lt_contravar; lra. }
  apply Rmult_lt_0_compat; lra.
Qed.

(** [-np.nan_to_num(np.log(0.0))] is the largest finite float, and the
    test [cross_entropy == 0] that follows leaves it so. *)
Lemma cross_entropy_of_zero :
  (if feqb (fneg (nan_to_num (flog (Fin 0)))) (of_Z 0) then Fin 0
   else fneg (nan_to_num (flog (Fin 0)))) = Fin float_max.
Proof.
  pose proof float_max_pos as Hpos.
  simpl. destruct (Rlt_dec 0 0) as [|_]; [lra|].
  destruct (Req_dec_T 0 0) as [_|]; [|contradiction]. simpl.
  destruct (Req_dec_T (- - float_max) 0) as [|_]; [lra|].
  f_equal. lra.
Qed.

Lemma fmul_log_Fin (p : R) :
  fmul (Fin p) (nan_to_num (flog (Fin p))) = Fin (xlogx p).
Proof.
  unfold xlogx. simpl. destruct (Rlt_dec 0 p); [reflexivity|].
  destruct (Req_dec_T p 0) as [->|]; simpl; f_equal; lra.
Qed.

Lemma fsum_Fin (ps : list R) : fsum (map Fin ps) = Fin (fold_left Rplus ps 0%R).
Proof.
  unfold fsum. generalize 0%R as acc.
  induction ps as [|p ps IH]; intros acc; simpl; [reflexivity|apply IH].
Qed.

Lemma entropy_terms_Fin (ps : list R) :
  zip_with fmul (map Fin ps) (map (fun p => nan_to_num (flog p)) (map Fin ps))
  = map Fin (map xlogx ps).
Proof.
  induction ps as [|p ps IH]; [reflexivity|].
  cbn [map zip_with]. rewrite IH. f_equal. apply fmul_log_Fin.
Qed.

(** What an update returns for the two logarithmic metrics when the
    probabilities are finite and the observed label's is zero. *)
Lemma entropies_at_zero (tagset_size : nat) (history : History)
    (ps : list R) (gold_label : nat) (m : Metrics) (h : History) :
  calculate_metrics_token tagset_size history (map Fin ps) gold_label
  = Some (m, h) ->
  ps !! gold_label = Some 0%R ->
  cross_entropy m = Fin float_max /\
  entropy m = Fin (- fold_left Rplus (map xlogx ps) 0%R).
Proof.
  intros Hstep Hzero.
  apply calculate_metrics_token_Some in Hstep
    as (p_y & _ & Hp & _ & _ & _ & _ & _ & _ & _ & _ & _ & _ & _ & Hce & He).
  rewrite list_lookup_fmap, Hzero in Hp. injection Hp as <-.
  split.
  - rewrite Hce. apply cross_entropy_of_zero.
  - rewrite He, entropy_terms_Fin, fsum_Fin. reflexivity.
Qed.

(** C7, as the code has it.  When a token's probabilities are finite and
    the probability of its observed label is zero, the update returns
    [cross_entropy] equal to the largest finite float, a positive number:
    [log 0] is [-inf], which [nan_to_num] replaces by the most negative
    finite float, not by zero.  The result is neither NaN nor infinite.
    The entropy is finite: each term is [p * log p] for a positive [p] and
    zero otherwise. *)
Theorem C7_cross_entropy_at_zero (tagset_size : nat) (history : History)
    (ps : list R) (gold_label : nat) :
  (2 <= length ps)%nat ->
  (length ps <= length (hist_prediction history))%nat ->
  0 <= total_epochs history ->
  ps !! gold_label = Some 0%R ->
  exists (m : Metrics) (h : History),
    calculate_metrics_token tagset_size history (map Fin ps) gold_label
    = Some (m, h) /\
    cross_entropy m = Fin float_max /\
    (0 < float_max)%R /\
    entropy m = Fin (- fold_left Rplus (map xlogx ps) 0%R) /\
    xlogx 0 = 0%R.
Proof.
  intros Hlen Hhist Hn Hzero.
  destruct (calculate_metrics_token_total tagset_size history
              (map Fin ps) gold_label) as (m & h & Hstep);
    rewrite ?length_map; try lia.
  { by apply lookup_lt_Some in Hzero. }
  exists m, h. split; [exact Hstep|].
  destruct (entropies_at_zero _ _ _ _ _ _ Hstep Hzero) as [Hce He].
  repeat split; try done.
  - apply float_max_pos.
  - unfold xlogx. destruct (Rlt_dec 0 0); [lra|reflexivity].
Qed.

Lemma C7_witness :
  exists (m : Metrics) (h : History),
    calculate_metrics_token 2 (_init_metrics_logging 2)
      (map Fin [1%R; 0%R]) 1 = Some (m, h) /\
    cross_entropy m = Fin float_max /\
    (0 < float_max)%R /\
    entropy m = Fin (- fold_left Rplus (map xlogx [1%R; 0%R]) 0%R) /\
    xlogx 0 = 0%R.
Proof.
  apply (C7_cross_entropy_at_zero 2 (_init_metrics_logging 2) [1%R; 0%R] 1).
  - simpl. lia.
  - simpl. lia.
  - simpl. lia.
  - reflexivity.
Defined.

(** The claim as it is written fails on the probabilities 1 and 0 with
    the second label observed: the cross entropy returned is not 0.0. *)
Lemma C7_counterexample :
  exists (m : Metrics) (h : History),
    calculate_metrics_token 2 (_init_metrics_logging 2)
      [Fin 1; Fin 0] 1 = Some (m, h) /\
    [Fin 1; Fin 0] !! 1%nat = Some (Fin 0) /\
    cross_entropy m <> Fin 0.
Proof.
  destruct (calculate_metrics_token_total 2 (_init_metrics_logging 2)
              [Fin 1; Fin 0] 1) as (m & h & Hstep); simpl; try lia.
  exists m, h. split; [exact Hstep|]. split; [reflexivity|].
  destruct (entropies_at_zero 2 (_init_metrics_logging 2) [1%R; 0%R] 1 m h
              Hstep eq_refl) as [Hce _].
  rewrite Hce. intros [= Heq]. pose proof float_max_pos. lra.
Qed.

(** * Further properties of the code *)

Import SequenceTaggerMore PipelineMore ObserveMore.

(** ** What the MILD functions count *)

(** The characters [calculate_mild_f] and [calculate_mild_m] keep of a
    flag string: the total length of the non-empty pieces between
    separators. *)
Lemma join_length (l : list string) :
  String.length (PyStr.join l)
  = foldr (fun piece n => (String.length piece + n)%nat) 0%nat l.
Proof.
  induction l as [|piece l IH]; simpl; [reflexivity|].
  change (String.length (piece +:+ PyStr.join l)
          = (String.length piece
             + foldr (fun piece n => (String.length piece + n)%nat) 0%nat l)%nat).
  by rewrite append_length, IH.
Qed.

Lemma kept_length_cons (sep a : ascii) (s : string) :
  String.length
    (PyStr.join (filter (fun item => negb (String.eqb item ""))
                        (PyStr.split sep (String a s))))
  = ((if Ascii.eqb a sep then 0 else 1)
     + String.length
         (PyStr.join (filter (fun item => negb (String.eqb item ""))
                             (PyStr.split sep s))))%nat.
Proof.
  simpl. destruct (Ascii.eqb a sep).
  - rewrite filter_cons_False by (simpl; tauto). reflexivity.
  - destruct (PyStr.split sep s) as [|piece pieces].
    + reflexivity.
    + rewrite filter_cons_True by (simpl; tauto).
      rewrite !join_length. simpl.
      destruct piece as [|c piece].
      * rewrite filter_cons_False by (simpl; tauto). reflexivity.
      * rewrite filter_cons_True by (simpl; tauto). simpl. lia.
Qed.

Lemma kept_length_flags (sep : ascii) (flags : list Z) :
  Forall (fun f => f = 0 \/ f = 1) flags ->
  sep = "0"%char \/ sep = "1"%char ->
  Z.of_nat
    (String.length
       (PyStr.join (filter (fun item => negb (String.eqb item ""))
                           (PyStr.split sep
                              (PyStr.join (map PyStr.str_int flags))))))
  = if Ascii.eqb sep "0" then foldr Z.add 0 flags
    else Z.of_nat (length flags) - foldr Z.add 0 flags.
Proof.
  intros Hflags Hsep.
  induction Hflags as [|f flags Hf _ IH].
  - destruct Hsep as [-> | ->]; reflexivity.
  - change (PyStr.join (map PyStr.str_int (f :: flags)))
      with (PyStr.str_int f +:+ PyStr.join (map PyStr.str_int flags)).
    assert (Hhead : PyStr.str_int f
                    = String (if Z.eqb f 0 then "0" else "1")%char "").
    { destruct Hf as [-> | ->]; reflexivity. }
    rewrite Hhead.
    match goal with
    | |- context [String ?c "" +:+ ?r] =>
        change (String c "" +:+ r) with (String c r)
    end.
    rewrite kept_length_cons, Nat2Z.inj_add, IH. cbn [length foldr].
    destruct Hf as [-> | ->], Hsep as [-> | ->]; simpl; lia.
Qed.

Lemma mild_total (keep : list string) :
  (if negb (Nat.eqb (length keep) 0)
   then Z.of_nat (String.length (PyStr.join keep)) else 0)
  = Z.of_nat (String.length (PyStr.join keep)).
Proof. destruct keep; reflexivity. Qed.

(** X1. On 0/1 flags [calculate_mild_f] is the number of 1s and
    [calculate_mild_m] the number of 0s, wherever they stand: the two add
    up to the length, and an all-1 (all-0) sequence gives the length for
    [mild_f] ([mild_m]) and 0 for the other. *)
Theorem mild_counts_flags (flags : list Z) :
  Forall (fun f => f = 0 \/ f = 1) flags ->
  calculate_mild_f flags = foldr Z.add 0 flags /\
  calculate_mild_m flags = Z.of_nat (length flags) - foldr Z.add 0 flags /\
  calculate_mild_f flags + calculate_mild_m flags = Z.of_nat (length flags).
Proof.
  intros Hflags.
  assert (Hf : calculate_mild_f flags = foldr Z.add 0 flags).
  { unfold calculate_mild_f. cbv zeta. rewrite mild_total.
    by rewrite (kept_length_flags "0" flags Hflags) by auto. }
  assert (Hm : calculate_mild_m flags
               = Z.of_nat (length flags) - foldr Z.add 0 flags).
  { unfold calculate_mild_m. cbv zeta. rewrite mild_total.
    by rewrite (kept_length_flags "1" flags Hflags) by auto. }
  rewrite Hf, Hm. repeat split; lia.
Qed.

Lemma mild_counts_flags_witness :
  calculate_mild_f [0; 1; 1; 0; 1; 1; 0; 0] = 4 /\
  calculate_mild_m [0; 1; 1; 0; 1; 1; 0; 0] = 8 - 4.
Proof.
  destruct (mild_counts_flags [0; 1; 1; 0; 1; 1; 0; 0]) as (Hf & Hm & _).
  - repeat (constructor; [lia|]). constructor.
  - split; [exact Hf|exact Hm].
Defined.

(** ** The counters of a history *)

(** The remaining fields of a returned update. *)
Lemma calculate_metrics_token_fields (tagset_size : nat) (history : History)
    (softmax_token : list npfloat) (gold_label : nat)
    (m : Metrics) (h : History) :
  calculate_metrics_token tagset_size history softmax_token gold_label
  = Some (m, h) ->
  exists (prediction second : nat) (p_max p_2nd : npfloat) (count : Z),
    take 2 (rev (argsort softmax_token)) !! 0%nat = Some prediction /\
    take 2 (rev (argsort softmax_token)) !! 1%nat = Some second /\
    softmax_token !! prediction = Some p_max /\
    softmax_token !! second = Some p_2nd /\
    msp m = p_max /\
    BvSB m = fsub p_max p_2nd /\
    last_prediction h = Z.of_nat prediction /\
    last_correctness_sum h
    = last_correctness_sum history
      + int_of_bool (Nat.eqb gold_label prediction) /\
    int_truediv (last_correctness_sum h) (total_epochs history + 1)
    = Some (correctness m) /\
    last_iteration h
    = (if negb (Z.eqb (Z.of_nat prediction) (last_prediction history))
       then total_epochs history + 1 else last_iteration history) /\
    int_truediv (last_iteration h) (total_epochs history + 1)
    = Some (iter_norm m) /\
    hist_prediction history !! prediction = Some count /\
    hist_prediction h = <[prediction := count + 1]> (hist_prediction history).
Proof.
  unfold calculate_metrics_token. intros H.
  repeat match type of H with
         | context [?o ≫= _] => destruct o eqn:?; simpl in H; [|discriminate]
         end.
  injection H as <- <-. simpl.
  eexists _, _, _, _, _. repeat split; eassumption.
Qed.

Lemma sum_insert_succ (l : list Z) (i : nat) (c : Z) :
  l !! i = Some c ->
  foldr Z.add 0 (<[i := c + 1]> l) = foldr Z.add 0 l + 1.
Proof.
  revert i. induction l as [|x l IH]; intros [|i] H; simpl in *; try done.
  - injection H as ->. lia.
  - rewrite (IH i H). lia.
Qed.

Lemma int_of_bool_01 (b : bool) : int_of_bool b = 0 \/ int_of_bool b = 1.
Proof. destruct b; auto. Qed.

Lemma history_counts_init (tagset_size : nat) :
  history_counts (_init_metrics_logging tagset_size).
Proof.
  unfold history_counts. simpl. repeat split; try lia.
  - induction tagset_size as [|n IH]; simpl; [reflexivity|]. by rewrite IH.
  - apply Forall_forall. intros c Hc.
    apply list_elem_of_In, repeat_spec in Hc. lia.
  - repeat constructor.
Qed.

(** An update keeps the counters of a history consistent: the
    prediction counts still add up to the number of epochs, the flags to
    the correctness sum, and the last change lies within the epochs. *)
Lemma history_counts_kept (tagset_size : nat) (history : History)
    (softmax_token : list npfloat) (gold_label : nat)
    (m : Metrics) (h : History) :
  calculate_metrics_token tagset_size history softmax_token gold_label
  = Some (m, h) ->
  0 <= total_epochs history ->
  history_counts history ->
  history_counts h.
Proof.
  intros Hstep Hn
    (Hsum & Hpos & Hflags & Hcorrect & Hbound & Hiter & Hfresh & Hfirst).
  destruct (calculate_metrics_token_Some _ _ _ _ _ _ Hstep)
    as (_ & flag & _ & Hflag & Htotal & Hmild & _).
  destruct (calculate_metrics_token_fields _ _ _ _ _ _ Hstep)
    as (prediction & _ & _ & _ & count & Hpred & _ & _ & _ & _ & _ & Hlast
        & Hcs & _ & Hli & _ & Hcount & Hhist).
  unfold prediction_correct, prediction_of in Hflag. rewrite Hpred in Hflag.
  injection Hflag as <-.
  pose proof (int_of_bool_01 (Nat.eqb prediction gold_label)) as H01.
  assert (Hflag01 : int_of_bool (Nat.eqb gold_label prediction)
                    = int_of_bool (Nat.eqb prediction gold_label)).
  { by rewrite Nat.eqb_sym. }
  unfold history_counts.
  rewrite Htotal, Hhist, Hmild, Hcs, Hli, Hlast, Hflag01.
  repeat split.
  - rewrite (sum_insert_succ _ _ _ Hcount). lia.
  - apply Forall_insert; [exact Hpos|].
    rewrite Forall_forall in Hpos.
    assert (0 <= count) by (eapply Hpos, list_elem_of_lookup_2, Hcount). lia.
  - apply Forall_app. split; [exact Hflags|]. by constructor.
  - rewrite foldr_app. simpl.
    assert (Hshift : forall (l : list Z) (a : Z),
               foldr Z.add a l = foldr Z.add 0 l + a).
    { induction l as [|x l IHl]; intros a; simpl; [lia|].
      rewrite (IHl a). lia. }
    rewrite Hshift. lia.
  - lia.
  - lia.
  - destruct (negb _); lia.
  - destruct (negb _); lia.
  - lia.
  - destruct (negb (Z.eqb (Z.of_nat prediction) (last_prediction history)))
      eqn:Hchanged; [lia|].
    apply negb_false_iff, Z.eqb_eq in Hchanged.
    assert (0 < total_epochs history \/ total_epochs history = 0) as [Hp|H0]
      by lia.
    + apply Hfirst in Hp. lia.
    + apply Hfresh in H0. lia.
  - lia.
Qed.

Lemma token_epochs_counts_from (tagset_size : nat)
    (epochs : list (list npfloat * nat)) (history : History)
    (ms : list Metrics) (h : History) :
  token_epochs tagset_size history epochs = Some (ms, h) ->
  0 <= total_epochs history ->
  history_counts history ->
  0 <= total_epochs h /\ history_counts h.
Proof.
  revert history ms h.
  induction epochs as [|[scores gold_label] epochs IH];
    intros history ms h Hrun Hn Hinv; simpl in Hrun.
  - injection Hrun as <- <-. auto.
  - destruct (calculate_metrics_token _ _ _ _) as [[m1 h1]|] eqn:Hstep;
      cbn [mbind option_bind] in Hrun; [|discriminate].
    destruct (token_epochs tagset_size h1 epochs) as [[ms' h']|] eqn:Hrest;
      cbn [mbind option_bind] in Hrun; [|discriminate].
    injection Hrun as <- <-.
    apply (IH h1 ms' h' Hrest).
    + apply calculate_metrics_token_Some in Hstep
        as (_ & _ & _ & _ & Htotal & _). lia.
    + by eapply history_counts_kept.
Qed.

Lemma lookup_repeat {A : Type} (x : A) (n i : nat) :
  repeat x n !! i = if (i <? n)%nat then Some x else None.
Proof.
  revert i. induction n as [|n IH]; intros [|i]; simpl; try reflexivity.
  rewrite IH. reflexivity.
Qed.

(** The predictions a run of epochs has counted: the prediction of every
    epoch is an index of the prediction counts, the last one is stored as
    [last_prediction], and the count of every label has grown by the
    number of epochs that predicted it. *)
Lemma token_epochs_predictions (tagset_size : nat)
    (epochs : list (list npfloat * nat)) (history : History)
    (ms : list Metrics) (h : History) :
  token_epochs tagset_size history epochs = Some (ms, h) ->
  exists predictions : list nat,
    mapM (fun epoch => prediction_of (softmax epoch.1)) epochs
    = Some predictions /\
    Forall (fun p => (p < length (hist_prediction history))%nat)
           predictions /\
    last_prediction h
    = from_option Z.of_nat (last_prediction history) (last predictions) /\
    length (hist_prediction h) = length (hist_prediction history) /\
    forall l : nat,
      hist_prediction h !! l
      = (fun c => c + Z.of_nat (length (filter (fun p => p = l) predictions)))
          <$> hist_prediction history !! l.
Proof.
  revert history ms h.
  induction epochs as [|[scores gold_label] epochs IH];
    intros history ms h Hrun; simpl in Hrun.
  - injection Hrun as <- <-. exists []. repeat split; [constructor|].
    intros l. simpl. destruct (hist_prediction history !! l) as [c|];
      simpl; [f_equal; lia|reflexivity].
  - destruct (calculate_metrics_token _ _ _ _) as [[m1 h1]|] eqn:Hstep;
      cbn [mbind option_bind] in Hrun; [|discriminate].
    destruct (token_epochs tagset_size h1 epochs) as [[ms' h']|] eqn:Hrest;
      cbn [mbind option_bind] in Hrun; [|discriminate].
    injection Hrun as <- <-.
    destruct (calculate_metrics_token_fields _ _ _ _ _ _ Hstep)
      as (prediction & _ & _ & _ & count & Hpred & _ & _ & _ & _ & _ & Hlast
          & _ & _ & _ & _ & Hcount & Hhist).
    destruct (IH h1 ms' h' Hrest)
      as (predictions & Hpreds & Hbound & Hlast' & Hlen & Hcounts).
    assert (Hp : (prediction < length (hist_prediction history))%nat)
      by (eapply lookup_lt_Some; exact Hcount).
    rewrite Hhist, length_insert in Hlen, Hbound.
    exists (prediction :: predictions). repeat split.
    + cbn [mapM fst].
      replace (prediction_of (softmax scores)) with (Some prediction)
        by (symmetry; exact Hpred).
      step_bind. by rewrite Hpreds.
    + by constructor.
    + rewrite Hlast', Hlast, last_cons.
      by destruct (last predictions).
    + exact Hlen.
    + intros l. rewrite Hcounts, Hhist.
      destruct (decide (l = prediction)) as [->|Hne].
      * rewrite list_lookup_insert_eq by exact Hp. rewrite Hcount. simpl.
        rewrite filter_cons_True by reflexivity. simpl. f_equal. lia.
      * rewrite list_lookup_insert_ne by congruence.
        rewrite filter_cons_False by congruence. reflexivity.
Qed.

(** X2. After any number of valid epochs of a token, counted from its
    initialization, the updates have all returned and the counters of its
    history are consistent: the prediction counts add up to the number of
    epochs, the 0/1 correctness flags to the correctness sum, and the
    iteration of the last change lies within the epochs.  The prediction
    of every epoch is a label index (below [tagset_size]);
    [last_prediction] is the prediction of the last epoch (-1 before the
    first), the count of every label is the number of epochs that
    predicted it, and the correctness history is the initial 0 followed
    by the flag of every epoch's prediction. *)
Theorem token_epochs_counts (tagset_size : nat)
    (epochs : list (list npfloat * nat)) :
  Forall (valid_epoch tagset_size) epochs ->
  exists (ms : list Metrics) (h : History) (predictions : list nat)
         (flags : list Z),
    token_epochs tagset_size (_init_metrics_logging tagset_size) epochs
    = Some (ms, h) /\
    history_counts h /\
    mapM (fun epoch => prediction_correct (softmax epoch.1) epoch.2) epochs
    = Some flags /\
    hist_MILD h = 0 :: flags /\
    mapM (fun epoch => prediction_of (softmax epoch.1)) epochs
    = Some predictions /\
    Forall (fun p => (p < tagset_size)%nat) predictions /\
    last_prediction h = from_option Z.of_nat (-1) (last predictions) /\
    hist_prediction h
    = map (fun l =>
             Z.of_nat (length (filter (fun p => p = l) predictions)))
          (seq 0 tagset_size).
Proof.
  intros Hvalid.
  destruct (token_epochs_history tagset_size epochs
              (_init_metrics_logging tagset_size))
    as (ms & h & flags & Hrun & _ & Hflags & _ & Hmild).
  { simpl. lia. }
  { by rewrite length_hist_prediction_init. }
  destruct (token_epochs_predictions _ _ _ _ _ Hrun)
    as (predictions & Hpreds & Hbound & Hlast & Hlen & Hcounts).
  rewrite length_hist_prediction_init in Hbound, Hlen.
  exists ms, h, predictions, flags. split; [exact Hrun|].
  split; [|split; [exact Hflags|split; [exact Hmild|]]].
  2: split; [exact Hpreds|split; [exact Hbound|split; [exact Hlast|]]].
  - eapply token_epochs_counts_from; [exact Hrun|simpl; lia|].
    apply history_counts_init.
  - apply list_eq. intros l. rewrite Hcounts, list_lookup_fmap.
    cbn [_init_metrics_logging hist_prediction]. rewrite lookup_repeat.
    destruct (Nat.ltb_spec l tagset_size) as [Hl|Hl].
    + rewrite lookup_seq_lt by exact Hl. simpl. reflexivity.
    + rewrite lookup_seq_ge by exact Hl. reflexivity.
Qed.

Lemma token_epochs_counts_witness :
  exists (ms : list Metrics) (h : History) (predictions : list nat)
         (flags : list Z),
    token_epochs 2 (_init_metrics_logging 2) epochs_101 = Some (ms, h) /\
    history_counts h /\
    mapM (fun epoch => prediction_correct (softmax epoch.1) epoch.2)
         epochs_101 = Some flags /\
    hist_MILD h = 0 :: flags /\
    mapM (fun epoch => prediction_of (softmax epoch.1)) epochs_101
    = Some predictions /\
    Forall (fun p => (p < 2)%nat) predictions /\
    last_prediction h = from_option Z.of_nat (-1) (last predictions) /\
    hist_prediction h
    = map (fun l =>
             Z.of_nat (length (filter (fun p => p = l) predictions)))
          (seq 0 2).
Proof.
  apply (token_epochs_counts 2 epochs_101). exact valid_epochs_101.
Defined.

Lemma Rdiv_le_one (a b : R) : (0 < b)%R -> (a <= b)%R -> (a / b <= 1)%R.
Proof.
  intros Hb Hab. apply (Rmult_le_reg_r b); [exact Hb|].
  replace (a / b * b)%R with a by (field; lra). lra.
Qed.

(** X3. The metrics an update derives from consistent counters:
    [mild_f] is the correctness sum itself and [mild_m] the rest of the
    history's length, [correctness] is the share of correct epochs, a
    number from 0 to 1, and [iter_norm] is positive and at most 1. *)
Theorem update_metrics_from_counts (tagset_size : nat) (history : History)
    (softmax_token : list npfloat) (gold_label : nat)
    (m : Metrics) (h : History) :
  calculate_metrics_token tagset_size history softmax_token gold_label
  = Some (m, h) ->
  0 <= total_epochs history ->
  history_counts history ->
  mild_f m = last_correctness_sum h /\
  mild_m m = Z.of_nat (length (hist_MILD h)) - last_correctness_sum h /\
  correctness m
  = Fin (IZR (last_correctness_sum h) / IZR (total_epochs h)) /\
  (0 <= IZR (last_correctness_sum h) / IZR (total_epochs h) <= 1)%R /\
  iter_norm m = Fin (IZR (last_iteration h) / IZR (total_epochs h)) /\
  (0 < IZR (last_iteration h) / IZR (total_epochs h) <= 1)%R.
Proof.
  intros Hstep Hn Hinv.
  pose proof (history_counts_kept _ _ _ _ _ _ Hstep Hn Hinv)
    as (_ & _ & Hflags & Hcorrect & Hbound & Hiter & _ & Hfirst).
  destruct (calculate_metrics_token_Some _ _ _ _ _ _ Hstep)
    as (_ & _ & _ & _ & Htotal & _ & _ & Hm & Hf & _).
  destruct (calculate_metrics_token_fields _ _ _ _ _ _ Hstep)
    as (prediction & second & p_max & p_2nd & count
        & _ & _ & _ & _ & _ & _ & _ & _ & Hc & _ & Hi & _).
  rewrite <- Htotal in Hc, Hi.
  assert (Hpos : 0 < total_epochs h) by lia.
  destruct (Hfirst Hpos) as [Hiter1 _].
  assert (HposR : (0 < IZR (total_epochs h))%R) by (apply IZR_lt; lia).
  destruct (mild_counts_flags (hist_MILD h) Hflags) as (Hf' & Hm' & _).
  unfold int_truediv in Hc, Hi.
  destruct (Z.eqb_spec (total_epochs h) 0); [lia|].
  injection Hc as Hcor. injection Hi as Hit.
  repeat split.
  - by rewrite Hf, Hf'.
  - by rewrite Hm, Hm', Hcorrect.
  - by rewrite <- Hcor.
  - apply Rmult_le_pos; [apply IZR_le; lia|].
    left. by apply Rinv_0_lt_compat.
  - apply Rdiv_le_one; [lra|]. apply IZR_le. lia.
  - by rewrite <- Hit.
  - apply Rmult_lt_0_compat; [apply IZR_lt; lia|].
    by apply Rinv_0_lt_compat.
  - apply Rdiv_le_one; [lra|]. apply IZR_le. lia.
Qed.

Lemma update_metrics_from_counts_witness :
  exists (m : Metrics) (h : History),
    calculate_metrics_token 2 (_init_metrics_logging 2) (softmax prefers_0) 0
    = Some (m, h) /\
    mild_f m = last_correctness_sum h /\
    correctness m
    = Fin (IZR (last_correctness_sum h) / IZR (total_epochs h)).
Proof.
  destruct (calculate_metrics_token_total 2 (_init_metrics_logging 2)
              (softmax prefers_0) 0) as (m & h & Hstep);
    rewrite ?length_softmax; simpl; try lia.
  exists m, h. split; [exact Hstep|].
  destruct (update_metrics_from_counts 2 (_init_metrics_logging 2)
              (softmax prefers_0) 0 m h Hstep)
    as (Hf & _ & Hc & _).
  - simpl. lia.
  - apply history_counts_init.
  - split; [exact Hf|exact Hc].
Defined.

(** ** The prediction is a largest score *)

Lemma fltb_irrefl (a : npfloat) : fltb a a = false.
Proof.
  destruct a; simpl; try reflexivity. destruct (Rlt_dec r r); [lra|done].
Qed.

Lemma fltb_asym (a b : npfloat) : fltb a b = true -> fltb b a = false.
Proof.
  destruct a, b; simpl; try done.
  destruct (Rlt_dec r r0), (Rlt_dec r0 r); try done. lra.
Qed.

(** [a <= b] and [b <= c] give [a <= c], where [x <= y] is "y does not
    rank below x". *)
Lemma fltb_le_trans (a b c : npfloat) :
  fltb b a = false -> fltb c b = false -> fltb c a = false.
Proof.
  destruct a, b, c; simpl; try done.
  destruct (Rlt_dec r0 r), (Rlt_dec r1 r0), (Rlt_dec r1 r); try done. lra.
Qed.

Section ArgsortSorted.

Variable key : nat -> npfloat.

Let le (i j : nat) : Prop := fltb (key j) (key i) = false.

Lemma insert_index_sorted (i : nat) (sorted : list nat) :
  StronglySorted le sorted -> StronglySorted le (insert_index key i sorted).
Proof.
  induction 1 as [|j rest Hrest IH Hj]; simpl.
  - repeat constructor.
  - destruct (fltb (key i) (key j)) eqn:Hij.
    + constructor; [by constructor|].
      constructor; [by apply fltb_asym|].
      eapply Forall_impl; [exact Hj|]. intros k Hk. unfold le in *.
      eapply fltb_le_trans; [|exact Hk]. by apply fltb_asym.
    + constructor; [exact IH|].
      rewrite insert_index_Permutation. by constructor.
Qed.

Lemma fold_insert_index_sorted (indices acc : list nat) :
  StronglySorted le acc ->
  StronglySorted le
    (fold_left (fun sorted i => insert_index key i sorted) indices acc).
Proof.
  revert acc. induction indices as [|i indices IH]; intros acc Hacc; simpl;
    [exact Hacc|].
  apply IH. by apply insert_index_sorted.
Qed.

Lemma sorted_snoc_inv (l : list nat) (p : nat) :
  StronglySorted le (l ++ [p]) ->
  StronglySorted le l /\ Forall (fun x => le x p) l.
Proof.
  induction l as [|x l IH]; simpl; intros H.
  - split; constructor.
  - apply StronglySorted_inv in H as [Hl Hx].
    destruct (IH Hl) as [Hsorted Hall].
    apply Forall_app in Hx as [Hxl Hxp].
    split; [by constructor|].
    constructor; [|exact Hall]. by apply Forall_inv in Hxp.
Qed.

(** The first two entries of a sorted list read backwards: the first
    ranks below no entry, the second below none but the first. *)
Lemma sorted_rev_top (l : list nat) (p s : nat) (rest : list nat) :
  StronglySorted le l ->
  rev l = p :: s :: rest ->
  le s p /\ Forall (fun x => le x s) rest /\
  forall x : nat, x ∈ l -> le x p.
Proof.
  intros Hsorted Hrev.
  assert (Hl : l = (rev rest ++ [s]) ++ [p]).
  { rewrite <- (rev_involutive l), Hrev. simpl. reflexivity. }
  subst l.
  apply sorted_snoc_inv in Hsorted as [Hsorted Hp].
  apply sorted_snoc_inv in Hsorted as [_ Hs].
  apply Forall_app in Hp as [Hrest Hsp].
  split; [by apply Forall_inv in Hsp|].
  split.
  - apply Forall_forall. intros x Hx. rewrite Forall_forall in Hs.
    apply Hs. by apply list_elem_of_In, in_rev, list_elem_of_In in Hx.
  - intros x Hx. apply elem_of_app in Hx as [Hx|Hx].
    + apply elem_of_app in Hx as [Hx|Hx].
      * rewrite Forall_forall in Hrest. by apply Hrest.
      * apply list_elem_of_singleton in Hx as ->.
        by apply Forall_inv in Hsp.
    + apply list_elem_of_singleton in Hx as ->. apply fltb_irrefl.
Qed.

End ArgsortSorted.

(** The two indices the update reads off [np.argsort]: no score ranks
    above the score of the first, and the score of the second ranks below
    none but that. *)
Lemma top_two_are_largest (a : list npfloat) (p s : nat) (vp vs : npfloat) :
  take 2 (rev (argsort a)) !! 0%nat = Some p ->
  take 2 (rev (argsort a)) !! 1%nat = Some s ->
  a !! p = Some vp ->
  a !! s = Some vs ->
  fltb vp vs = false /\
  forall (i : nat) (v : npfloat), a !! i = Some v -> fltb vp v = false.
Proof.
  intros Hp Hs Hvp Hvs.
  apply lookup_take_Some in Hp as [Hp _].
  apply lookup_take_Some in Hs as [Hs _].
  destruct (rev (argsort a)) as [|p' [|s' rest]] eqn:Hrev; try done.
  simpl in Hp, Hs. injection Hp as ->. injection Hs as ->.
  assert (Hsorted : StronglySorted
                      (fun i j => fltb (nth j a NaN) (nth i a NaN) = false)
                      (argsort a)).
  { unfold argsort. apply fold_insert_index_sorted. constructor. }
  destruct (sorted_rev_top _ _ _ _ _ Hsorted Hrev) as (Hsp & _ & Hall).
  assert (Hnth : forall (i : nat) (v : npfloat),
             a !! i = Some v -> nth i a NaN = v).
  { intros i v Hi. by rewrite nth_lookup, Hi. }
  rewrite (Hnth _ _ Hvp), (Hnth _ _ Hvs) in Hsp.
  split; [exact Hsp|].
  intros i v Hi.
  assert (Hin : i ∈ argsort a).
  { rewrite argsort_Permutation. apply elem_of_seq.
    apply lookup_lt_Some in Hi. lia. }
  specialize (Hall i Hin). simpl in Hall.
  by rewrite (Hnth _ _ Hvp), (Hnth _ _ Hi) in Hall.
Qed.

(** The second of the two indices is another index than the first, and
    no score but that of the first ranks above its score. *)
Lemma runner_up_is_second (a : list npfloat) (p s : nat) (vs : npfloat) :
  take 2 (rev (argsort a)) !! 0%nat = Some p ->
  take 2 (rev (argsort a)) !! 1%nat = Some s ->
  a !! s = Some vs ->
  p <> s /\
  forall (i : nat) (v : npfloat),
    i <> p -> a !! i = Some v -> fltb vs v = false.
Proof.
  intros Hp Hs Hvs.
  apply lookup_take_Some in Hp as [Hp _].
  apply lookup_take_Some in Hs as [Hs _].
  destruct (rev (argsort a)) as [|p' [|s' rest]] eqn:Hrev; try done.
  simpl in Hp, Hs. injection Hp as ->. injection Hs as ->.
  assert (Hsorted : StronglySorted
                      (fun i j => fltb (nth j a NaN) (nth i a NaN) = false)
                      (argsort a)).
  { unfold argsort. apply fold_insert_index_sorted. constructor. }
  destruct (sorted_rev_top _ _ _ _ _ Hsorted Hrev) as (_ & Hrest & _).
  assert (Hperm : p :: s :: rest ≡ₚ seq 0 (length a)).
  { rewrite <- Hrev, <- Permutation_rev. apply argsort_Permutation. }
  assert (Hnodup : NoDup (p :: s :: rest)).
  { rewrite Hperm. apply NoDup_seq. }
  assert (Hnth : forall (i : nat) (v : npfloat),
             a !! i = Some v -> nth i a NaN = v).
  { intros i v Hi. by rewrite nth_lookup, Hi. }
  split.
  - apply NoDup_cons in Hnodup as [Hnotin _].
    intros ->. apply Hnotin. by left.
  - intros i v Hne Hi.
    assert (Hin : i ∈ p :: s :: rest).
    { rewrite Hperm. apply elem_of_seq.
      apply lookup_lt_Some in Hi. lia. }
    apply elem_of_cons in Hin as [->|Hin]; [done|].
    apply elem_of_cons in Hin as [->|Hin].
    + rewrite Hvs in Hi. injection Hi as <-. apply fltb_irrefl.
    + rewrite Forall_forall in Hrest. specialize (Hrest i Hin).
      simpl in Hrest.
      by rewrite (Hnth _ _ Hvs), (Hnth _ _ Hi) in Hrest.
Qed.

(** X4. [msp] is a largest probability of the token, the one of the
    prediction stored as [last_prediction]: no probability ranks above it.
    On finite probabilities [BvSB] is its distance to the runner-up, the
    probability at another index that no probability but that of the
    prediction exceeds, and is not negative. *)
Theorem msp_is_largest (tagset_size : nat) (history : History)
    (softmax_token : list npfloat) (gold_label : nat)
    (m : Metrics) (h : History) :
  calculate_metrics_token tagset_size history softmax_token gold_label
  = Some (m, h) ->
  softmax_token !! Z.to_nat (last_prediction h) = Some (msp m) /\
  (forall (i : nat) (v : npfloat),
      softmax_token !! i = Some v -> fltb (msp m) v = false) /\
  (forall ps : list R,
      softmax_token = map Fin ps ->
      exists (second : nat) (top runner_up : R),
        second <> Z.to_nat (last_prediction h) /\
        ps !! Z.to_nat (last_prediction h) = Some top /\
        ps !! second = Some runner_up /\
        msp m = Fin top /\
        (forall p : R, p ∈ ps -> (p <= top)%R) /\
        (forall (i : nat) (p : R),
            i <> Z.to_nat (last_prediction h) -> ps !! i = Some p ->
            (p <= runner_up)%R) /\
        BvSB m = Fin (top - runner_up) /\
        (0 <= top - runner_up)%R).
Proof.
  intros Hstep.
  destruct (calculate_metrics_token_fields _ _ _ _ _ _ Hstep)
    as (prediction & second & p_max & p_2nd & count
        & Hp & Hs & Hvp & Hvs & Hmsp & Hbvsb & Hlast & _).
  destruct (top_two_are_largest _ _ _ _ _ Hp Hs Hvp Hvs) as [Hrunner Hall].
  destruct (runner_up_is_second _ _ _ _ Hp Hs Hvs) as [Hne Hothers].
  rewrite Hmsp, Hlast, Nat2Z.id.
  split; [exact Hvp|]. split; [exact Hall|].
  intros ps ->.
  rewrite list_lookup_fmap in Hvp, Hvs.
  destruct (ps !! prediction) as [top|] eqn:Htop; [|discriminate].
  destruct (ps !! second) as [runner_up|] eqn:Hrun; [|discriminate].
  injection Hvp as <-. injection Hvs as <-.
  exists second, top, runner_up.
  assert (Hle : forall x p : R,
             fltb (Fin x) (Fin p) = false -> (p <= x)%R).
  { intros x p. simpl. destruct (Rlt_dec x p); [discriminate|lra]. }
  split; [congruence|]. split; [reflexivity|]. split; [exact Hrun|].
  split; [reflexivity|]. split; [|split; [|split]].
  - intros p Hin. apply list_elem_of_lookup_1 in Hin as [i Hi].
    apply Hle, (Hall i). by rewrite list_lookup_fmap, Hi.
  - intros i p Hi Hp'. apply Hle, (Hothers i); [exact Hi|].
    by rewrite list_lookup_fmap, Hp'.
  - rewrite Hbvsb. reflexivity.
  - apply Hle in Hrunner. lra.
Qed.

Lemma msp_is_largest_witness :
  exists (m : Metrics) (h : History) (second : nat) (top runner_up : R),
    calculate_metrics_token 2 (_init_metrics_logging 2)
      (map Fin [0.75%R; 0.25%R]) 1 = Some (m, h) /\
    second <> Z.to_nat (last_prediction h) /\
    [0.75%R; 0.25%R] !! Z.to_nat (last_prediction h) = Some top /\
    [0.75%R; 0.25%R] !! second = Some runner_up /\
    msp m = Fin top /\
    (forall p : R, p ∈ [0.75%R; 0.25%R] -> (p <= top)%R) /\
    (forall (i : nat) (p : R),
        i <> Z.to_nat (last_prediction h) ->
        [0.75%R; 0.25%R] !! i = Some p -> (p <= runner_up)%R) /\
    BvSB m = Fin (top - runner_up) /\
    (0 <= top - runner_up)%R.
Proof.
  destruct (calculate_metrics_token_total 2 (_init_metrics_logging 2)
              (map Fin [0.75%R; 0.25%R]) 1) as (m & h & Hstep);
    simpl; try lia.
  destruct (msp_is_largest 2 (_init_metrics_logging 2)
              (map Fin [0.75%R; 0.25%R]) 1 m h Hstep) as (_ & _ & Hfinite).
  destruct (Hfinite [0.75%R; 0.25%R] eq_refl)
    as (second & top & runner_up & Hrest).
  exists m, h, second, top, runner_up. split; [exact Hstep|exact Hrest].
Defined.

(** *** [torch.argmax] and the prediction of the update *)

Lemma argmax_from_largest (l : list npfloat) (i best : nat) (bestv : npfloat)
    (seen : list npfloat) :
  length seen = i ->
  seen !! best = Some bestv ->
  (forall (j : nat) (v : npfloat), seen !! j = Some v -> fltb bestv v = false) ->
  exists v : npfloat,
    (seen ++ l) !! argmax_from i best bestv l = Some v /\
    forall (j : nat) (w : npfloat),
      (seen ++ l) !! j = Some w -> fltb v w = false.
Proof.
  revert i best bestv seen.
  induction l as [|x l IH]; intros i best bestv seen Hlen Hbest Hall; simpl.
  - exists bestv. rewrite app_nil_r. auto.
  - destruct (fltb bestv x) eqn:Hx.
    + destruct (IH (S i) i x (seen ++ [x])) as (v & Hv & Hmax).
      * rewrite length_app. simpl. lia.
      * rewrite lookup_app_r by lia. by rewrite Hlen, Nat.sub_diag.
      * intros j w Hj. apply lookup_app_Some in Hj as [Hj|[_ Hj]].
        -- eapply fltb_le_trans; [apply (Hall j w Hj)|by apply fltb_asym].
        -- apply list_lookup_singleton_Some in Hj as [_ <-].
           apply fltb_irrefl.
      * exists v. by rewrite <- app_assoc in Hv, Hmax.
    + destruct (IH (S i) best bestv (seen ++ [x])) as (v & Hv & Hmax).
      * rewrite length_app. simpl. lia.
      * by apply lookup_app_l_Some.
      * intros j w Hj. apply lookup_app_Some in Hj as [Hj|[_ Hj]].
        -- by apply (Hall j w).
        -- by apply list_lookup_singleton_Some in Hj as [_ <-].
      * exists v. by rewrite <- app_assoc in Hv, Hmax.
Qed.

(** X5. When one score of a token ranks above all others, the label
    [torch.argmax] returns for the log and the prediction the update
    takes from [np.argsort] are both that score's index. *)
Theorem unique_largest_agree (a : list npfloat) (i : nat) (v : npfloat) :
  (2 <= length a)%nat ->
  a !! i = Some v ->
  (forall (j : nat) (w : npfloat),
      j <> i -> a !! j = Some w -> fltb w v = true) ->
  argmax a = Some i /\ prediction_of a = Some i.
Proof.
  intros Hlen Hi Hunique. split.
  - destruct a as [|x a]; [simpl in Hlen; lia|]. simpl.
    destruct (argmax_from_largest a 1 0 x [x]) as (w & Hw & Hmax);
      try done.
    { intros j u Hj. apply list_lookup_singleton_Some in Hj as [_ <-].
      apply fltb_irrefl. }
    simpl in Hw, Hmax. f_equal.
    destruct (decide (argmax_from 1 0 x a = i)) as [|Hne]; [done|].
    specialize (Hunique _ _ Hne Hw). specialize (Hmax _ _ Hi). congruence.
  - destruct (top_two_indices a Hlen) as (p & s & Hp & Hs & Hp_lt & Hs_lt).
    destruct (lookup_lt_is_Some_2 a p Hp_lt) as [vp Hvp].
    destruct (lookup_lt_is_Some_2 a s Hs_lt) as [vs Hvs].
    destruct (top_two_are_largest _ _ _ _ _ Hp Hs Hvp Hvs) as [_ Hall].
    unfold prediction_of. rewrite Hp. f_equal.
    destruct (decide (p = i)) as [|Hne]; [done|].
    specialize (Hunique _ _ Hne Hvp). specialize (Hall _ _ Hi). congruence.
Qed.

Lemma unique_largest_agree_witness :
  argmax [Fin 0.25; Fin 0.75] = Some 1%nat /\
  prediction_of [Fin 0.25; Fin 0.75] = Some 1%nat.
Proof.
  apply (unique_largest_agree [Fin 0.25; Fin 0.75] 1 (Fin 0.75)).
  - simpl. lia.
  - reflexivity.
  - intros [|[|j]] w Hne Hj; simpl in Hj; try done.
    injection Hj as <-. apply fltb_Fin_lt. lra.
Defined.

(** ** What the layer loop counts *)

(** The backward scan over the first [n] layers: both counters grow by
    the number of those layers that predict the gold label and the last
    layer's label, and [fl] becomes the lowest of those layers that
    predicts the gold label, if there is one. *)
Lemma layer_loop_scan (pred_labels : list nat) (pred_last gold_label : nat) :
  last pred_labels = Some pred_last ->
  forall (n : nat) (st : LayerState),
    (n <= length pred_labels)%nat ->
    exists st' : LayerState,
      layer_loop pred_labels gold_label st (rev (seq 0 n)) = Some st' /\
      agree_w_correct st'
      = agree_w_correct st
        + Z.of_nat (length (filter (fun p => p = gold_label)
                                   (take n pred_labels))) /\
      agree_w_last st'
      = agree_w_last st
        + Z.of_nat (length (filter (fun p => p = pred_last)
                                   (take n pred_labels))) /\
      ((exists i : nat,
           (i < n)%nat /\ pred_labels !! i = Some gold_label /\
           (forall j : nat, (j < i)%nat ->
                            pred_labels !! j <> Some gold_label) /\
           fl st' = Z.of_nat i) \/
       ((forall j : nat, (j < n)%nat ->
                         pred_labels !! j <> Some gold_label) /\
        fl st' = fl st)).
Proof.
  intros Hlast. induction n as [|n IH]; intros st Hn.
  - exists st. simpl. repeat split; try lia. right. split; [|done]. lia.
  - rewrite rev_seq_S. cbn [layer_loop].
    destruct (lookup_lt_is_Some_2 pred_labels n) as [p Hp]; [lia|].
    unfold layer_step. rewrite Hp, Hlast. cbn [mbind option_bind].
    rewrite (take_S_r _ _ _ Hp), !filter_app, !length_app.
    match goal with
    | |- context [layer_loop _ _ ?s (rev (seq 0 n))] =>
        destruct (IH s) as (st' & Hloop & Hc & Hl & Hfl); [lia|]
    end.
    exists st'. split; [exact Hloop|].
    rewrite Hc, Hl. clear Hc Hl Hloop.
    assert (Hcount : forall g : nat,
               length (filter (fun q => q = g) [p])
               = if Nat.eqb p g then 1%nat else 0%nat).
    { intros g. destruct (Nat.eqb_spec p g) as [->|Hne].
      - by rewrite filter_cons_True.
      - by rewrite filter_cons_False. }
    rewrite !Hcount.
    split; [|split].
    + destruct (Nat.eqb p gold_label), (Nat.eqb p pred_last); simpl; lia.
    + destruct (Nat.eqb p gold_label), (Nat.eqb p pred_last); simpl; lia.
    + destruct Hfl as [(i & Hi & Hgold & Hmin & Hfl) | [Hnone Hfl]].
      * left. exists i. repeat split; try done. lia.
      * destruct (Nat.eqb_spec p gold_label) as [->|Hne].
        -- left. exists n. repeat split; try done; [lia|].
           rewrite Hfl. by destruct (Nat.eqb gold_label pred_last).
        -- right. split.
           ++ intros j Hj. destruct (decide (j = n)) as [->|Hjn].
              ** rewrite Hp. congruence.
              ** apply Hnone. lia.
           ++ rewrite Hfl. by destruct (Nat.eqb p pred_last).
Qed.

(** X6. On a stack of L >= 1 layers with at least one class score each,
    [total_agree_w_correct] is the number of layers predicting the gold
    label, [total_agree_w_last] the number of layers predicting what the
    last layer predicts, and [first_layer] the lowest layer predicting the
    gold label, or L when no layer does; so [first_layer = L] exactly
    when [total_agree_w_correct = 0]. *)
Theorem layer_metrics_count (n_layers num_labels : nat)
    (scores : list (list npfloat)) (gold_label : nat) :
  n_layers = length scores ->
  (1 <= n_layers)%nat ->
  Forall (fun row => row <> []) scores ->
  exists (m : LayerMetrics) (pred_labels : list nat) (pred_last : nat),
    mapM argmax scores = Some pred_labels /\
    last pred_labels = Some pred_last /\
    _calculate_layer_metrics n_layers num_labels scores gold_label = Some m /\
    total_agree_w_correct m
    = Z.of_nat (length (filter (fun p => p = gold_label) pred_labels)) /\
    total_agree_w_last m
    = Z.of_nat (length (filter (fun p => p = pred_last) pred_labels)) /\
    ((exists i : nat,
         pred_labels !! i = Some gold_label /\
         (forall j : nat, (j < i)%nat -> pred_labels !! j <> Some gold_label) /\
         first_layer m = Z.of_nat i /\ 0 < total_agree_w_correct m) \/
     ((gold_label ∉ pred_labels) /\
      first_layer m = Z.of_nat n_layers /\ total_agree_w_correct m = 0)).
Proof.
  intros -> Hlen Hrows.
  destruct (mapM_is_Some_2 argmax scores) as [pred_labels Hpred].
  { eapply Forall_impl; [exact Hrows|]. intros row. apply argmax_nonempty. }
  assert (Hsame : length pred_labels = length scores).
  { by apply length_mapM in Hpred. }
  assert (Hlast : is_Some (last pred_labels)).
  { rewrite last_lookup, Hsame. apply lookup_lt_is_Some_2. lia. }
  destruct Hlast as [pred_last Hlast].
  destruct (layer_loop_scan pred_labels pred_last gold_label Hlast
              (length scores)
              {| pd := Z.of_nat (length scores); final_pd := false;
                 fl := Z.of_nat (length scores);
                 agree_w_last := 0; agree_w_correct := 0 |})
    as (st' & Hloop & Hc & Hl & Hfl); [lia|].
  rewrite <- Hsame, firstn_all in Hc, Hl. simpl in Hc, Hl, Hfl.
  assert (Hm : exists m : LayerMetrics,
             _calculate_layer_metrics (length scores) num_labels scores
               gold_label = Some m /\
             total_agree_w_correct m = agree_w_correct st' /\
             total_agree_w_last m = agree_w_last st' /\
             first_layer m = fl st').
  { unfold _calculate_layer_metrics. rewrite Hpred.
    cbn [mbind option_bind]. rewrite Hloop.
    eexists. split; [reflexivity|]. simpl. auto. }
  destruct Hm as (m & Hm & Hmc & Hml & Hmf).
  exists m, pred_labels, pred_last.
  rewrite Hmc, Hml, Hmf, Hc, Hl.
  repeat (split; [done|]).
  destruct Hfl as [(i & Hi & Hgold & Hmin & Hfl) | [Hnone Hfl]].
  - left. exists i. repeat split; try done.
    assert (Hin : gold_label ∈ filter (fun p => p = gold_label) pred_labels).
    { apply list_elem_of_filter. split; [done|].
      by eapply list_elem_of_lookup_2. }
    destruct (filter _ pred_labels); [by apply elem_of_nil in Hin|].
    simpl. lia.
  - assert (Hnot : gold_label ∉ pred_labels).
    { intros Hin. apply list_elem_of_lookup_1 in Hin as [j Hj].
      apply (Hnone j); [|done]. apply lookup_lt_Some in Hj. lia. }
    right. split; [exact Hnot|]. split; [by rewrite Hfl, <- Hsame|].
    destruct (filter (fun p => p = gold_label) pred_labels) as [|x rest]
      eqn:Hfilter; [reflexivity|].
    exfalso. apply Hnot.
    assert (Hx : x ∈ filter (fun p => p = gold_label) pred_labels).
    { rewrite Hfilter. by left. }
    by apply list_elem_of_filter in Hx as [-> Hx].
Qed.

Lemma layer_metrics_count_witness :
  exists (m : LayerMetrics) (pred_labels : list nat) (pred_last : nat),
    mapM argmax layers_011 = Some pred_labels /\
    last pred_labels = Some pred_last /\
    _calculate_layer_metrics 3 2 layers_011 1 = Some m /\
    total_agree_w_correct m
    = Z.of_nat (length (filter (fun p => p = 1%nat) pred_labels)) /\
    total_agree_w_last m
    = Z.of_nat (length (filter (fun p => p = pred_last) pred_labels)).
Proof.
  destruct (layer_metrics_count 3 2 layers_011 1)
    as (m & pred_labels & pred_last & H1 & H2 & H3 & H4 & H5 & _).
  - reflexivity.
  - lia.
  - unfold layers_011. repeat constructor; discriminate.
  - exists m, pred_labels, pred_last. repeat split; assumption.
Defined.

(** ** The loss of the early-exit tagger *)




(** ** The data set written in BIO format *)

Lemma replace_pair_prefix (a b : ascii) (new s : string) :
  startswith s (String a (String b "")) = true ->
  exists rest, s = String a (String b rest) /\
               replace_pair a b new s = new +:+ replace_pair a b new rest.
Proof.
  unfold startswith. destruct s as [|x [|y rest]]; simpl.
  - discriminate.
  - destruct (ascii_dec a x); discriminate.
  - destruct (ascii_dec a x) as [<-|]; [|discriminate].
    destruct (ascii_dec b y) as [<-|]; [|discriminate].
    intros _. exists rest. by rewrite !Ascii.eqb_refl.
Qed.

Lemma written_tag_bio (val : string) :
  startswith (written_tag val) "S-" = false /\
  startswith (written_tag val) "E-" = false /\
  (startswith val "S-" = false -> startswith val "E-" = false ->
   written_tag val = val).
Proof.
  unfold written_tag.
  destruct (startswith val "S-") eqn:HS.
  - destruct (replace_pair_prefix "S" "-" "B-" val HS) as (rest & -> & ->).
    repeat split; try reflexivity. discriminate.
  - destruct (startswith val "E-") eqn:HE.
    + destruct (replace_pair_prefix "E" "-" "I-" val HE) as (rest & -> & ->).
      repeat split; try reflexivity. discriminate.
    + repeat split; assumption || reflexivity.
Qed.

Lemma elem_of_concat {A : Type} (x : A) (ls : list (list A)) :
  x ∈ concat ls <-> exists l, x ∈ l /\ l ∈ ls.
Proof.
  induction ls as [|l ls IH]; simpl.
  - split; [by intros ?%elem_of_nil|].
    by intros (l & _ & ?%elem_of_nil).
  - rewrite elem_of_app, IH. split.
    + intros [Hx|(l' & Hx & Hl')].
      * exists l. split; [assumption|by left].
      * exists l'. split; [assumption|by right].
    + intros (l' & Hx & Hl'). apply elem_of_cons in Hl' as [->|Hl'].
      * by left.
      * right. by exists l'.
Qed.

(** X8. Every line [output_bio_dataset] writes is empty (the end of a
    sentence) or holds a token's text, a tab and a tag that starts with
    neither S- nor E-; a tag of the data set that starts with neither is
    written as it is. *)
Theorem output_bio_dataset_is_bio (dataset : list Sentence)
    (tag_column line : string) :
  line ∈ output_bio_dataset dataset tag_column ->
  line = "" \/
  exists (sentence : Sentence) (token : Token) (tag : string),
    sentence ∈ dataset /\ token ∈ tokens sentence /\
    line = text token +:+ String "009" "" +:+ tag /\
    startswith tag "S-" = false /\ startswith tag "E-" = false /\
    (startswith (get_label token tag_column) "S-" = false ->
     startswith (get_label token tag_column) "E-" = false ->
     tag = get_label token tag_column).
Proof.
  unfold output_bio_dataset. intros Hline.
  apply elem_of_concat in Hline as (lines & Hline & Hlines).
  apply list_elem_of_fmap in Hlines as (sentence & -> & Hsentence).
  apply elem_of_app in Hline as [Hline|Hline].
  - apply list_elem_of_fmap in Hline as (token & -> & Htoken).
    right. exists sentence, token, (written_tag (get_label token tag_column)).
    destruct (written_tag_bio (get_label token tag_column)) as (HS & HE & Hid).
    repeat split; assumption.
  - left. by apply list_elem_of_singleton in Hline.
Qed.

Lemma output_bio_dataset_is_bio_witness :
  let line := "w" +:+ String "009" "" +:+ "I-PER" in
  line ∈ output_bio_dataset two_tokens "predicted_bio" /\
  (line = "" \/
   exists (sentence : Sentence) (token : Token) (tag : string),
     sentence ∈ two_tokens /\ token ∈ tokens sentence /\
     line = text token +:+ String "009" "" +:+ tag /\
     startswith tag "S-" = false /\ startswith tag "E-" = false /\
     (startswith (get_label token "predicted_bio") "S-" = false ->
      startswith (get_label token "predicted_bio") "E-" = false ->
      tag = get_label token "predicted_bio")).
Proof.
  intros line.
  assert (Hin : line ∈ output_bio_dataset two_tokens "predicted_bio").
  { vm_compute. apply elem_of_cons. right. apply elem_of_cons. by left. }
  split; [exact Hin|].
  exact (output_bio_dataset_is_bio two_tokens "predicted_bio" line Hin).
Defined.

(** ** The schedule of main *)

Section Schedule.

#[local] Abbreviation epoch := Config.epoch_change.
#[local] Abbreviation by_epoch :=
  (fun a b : Config.category_config => epoch a <= epoch b).

Lemma insert_by_epoch_Permutation (cfg : Config.category_config)
    (sorted : list Config.category_config) :
  insert_by_epoch cfg sorted ≡ₚ cfg :: sorted.
Proof.
  induction sorted as [|c rest IH]; simpl; [reflexivity|].
  destruct (Z.ltb (epoch cfg) (epoch c)); [reflexivity|].
  rewrite IH. apply Permutation_swap.
Qed.

Lemma insert_by_epoch_sorted (cfg : Config.category_config)
    (sorted : list Config.category_config) :
  StronglySorted by_epoch sorted ->
  StronglySorted by_epoch (insert_by_epoch cfg sorted).
Proof.
  induction 1 as [|c rest Hrest IH Hc]; simpl.
  - repeat constructor.
  - destruct (Z.ltb_spec (epoch cfg) (epoch c)) as [Hlt|Hge].
    + constructor; [by constructor|].
      constructor; [simpl; lia|].
      eapply Forall_impl; [exact Hc|]. simpl. intros; lia.
    + constructor; [exact IH|].
      rewrite insert_by_epoch_Permutation. by constructor.
Qed.

Lemma filter_epoch_above (e : Z) (l : list Config.category_config) :
  Forall (fun c => e < epoch c) l ->
  filter (fun c => epoch c = e) l = [].
Proof.
  induction 1 as [|c l Hc _ IH]; [reflexivity|].
  rewrite filter_cons_False by lia. exact IH.
Qed.

Lemma insert_by_epoch_stable (e : Z) (cfg : Config.category_config)
    (sorted : list Config.category_config) :
  StronglySorted by_epoch sorted ->
  filter (fun c => epoch c = e) (insert_by_epoch cfg sorted)
  = filter (fun c => epoch c = e) (sorted ++ [cfg]).
Proof.
  induction 1 as [|c rest Hrest IH Hc]; simpl; [reflexivity|].
  destruct (Z.ltb_spec (epoch cfg) (epoch c)) as [Hlt|Hge].
  - change (c :: rest ++ [cfg]) with ((c :: rest) ++ [cfg]).
    rewrite filter_app.
    destruct (decide (epoch cfg = e)) as [He|He].
    + rewrite filter_cons_True by exact He.
      rewrite (filter_epoch_above e (c :: rest)); [by rewrite filter_cons_True|].
      constructor; [lia|].
      eapply Forall_impl; [exact Hc|]. simpl. intros; lia.
    + rewrite filter_cons_False by exact He.
      rewrite (filter_cons_False _ cfg []) by exact He.
      by rewrite filter_nil, app_nil_r.
  - destruct (decide (epoch c = e)) as [He|He].
    + rewrite !(filter_cons_True _ c) by exact He. by rewrite IH.
    + rewrite !(filter_cons_False _ c) by exact He. exact IH.
Qed.

Lemma sorted_by_epoch_from (e : Z)
    (category_configs acc : list Config.category_config) :
  StronglySorted by_epoch acc ->
  let sorted := foldl (fun sorted cfg => insert_by_epoch cfg sorted)
                      acc category_configs in
  StronglySorted by_epoch sorted /\
  sorted ≡ₚ acc ++ category_configs /\
  filter (fun c => epoch c = e) sorted
  = filter (fun c => epoch c = e) (acc ++ category_configs).
Proof.
  revert acc. induction category_configs as [|cfg cs IH]; intros acc Hacc.
  - simpl. by rewrite app_nil_r.
  - simpl.
    destruct (IH (insert_by_epoch cfg acc)) as (Hs & Hp & Hf).
    { by apply insert_by_epoch_sorted. }
    split; [exact Hs|]. split.
    + rewrite Hp, insert_by_epoch_Permutation.
      apply Permutation_middle.
    + rewrite Hf, (cons_middle cfg acc cs), app_assoc.
      rewrite (filter_app _ (insert_by_epoch cfg acc) cs).
      rewrite (filter_app _ (acc ++ [cfg]) cs).
      by rewrite insert_by_epoch_stable.
Qed.

End Schedule.

(** X9. The steps [main] hands to the experiment are the enabled
    categories, each with its id, in the order of their epochs; steps of
    one epoch keep the order of the categories (1, 2, 3, 4). *)
Theorem main_schedule_order
    (modify_category : string -> option Config.category_config) :
  let enabled :=
    omap (fun cat_id =>
            cfg ← modify_category cat_id; Some (with_id cfg cat_id))
         ["1"; "2"; "3"; "4"] in
  let category_configs := (main_schedule modify_category).2 in
  StronglySorted
    (fun a b => Config.epoch_change a <= Config.epoch_change b)
    category_configs /\
  category_configs ≡ₚ enabled /\
  forall e : Z,
    filter (fun c => Config.epoch_change c = e) category_configs
    = filter (fun c => Config.epoch_change c = e) enabled.
Proof.
  intros enabled category_configs.
  assert (Henabled :
    map snd (omap (fun cat_id =>
                     cfg ← modify_category cat_id;
                     Some (cat_id, with_id cfg cat_id))
                  ["1"; "2"; "3"; "4"]) = enabled).
  { unfold enabled. simpl.
    destruct (modify_category "1"), (modify_category "2"),
      (modify_category "3"), (modify_category "4"); reflexivity. }
  subst category_configs. unfold main_schedule. cbn [snd].
  rewrite Henabled. unfold sorted_by_epoch.
  split; [|split; [|intros e]].
  - by apply (sorted_by_epoch_from 0 enabled []); constructor.
  - by apply (sorted_by_epoch_from 0 enabled []); constructor.
  - by apply (sorted_by_epoch_from e enabled []); constructor.
Qed.

Lemma sorted_by_epoch_Permutation
    (category_configs : list Config.category_config) :
  sorted_by_epoch category_configs ≡ₚ category_configs.
Proof.
  by apply (sorted_by_epoch_from 0 category_configs []); constructor.
Qed.

(** X10. [main] names the experiment "0" exactly when no category is
    enabled, which is when it runs the baseline only; under any other name
    the schedule it passes to [run_experiment] has a step. *)
Theorem main_schedule_category_id
    (modify_category : string -> option Config.category_config) :
  ((main_schedule modify_category).1 = "0" <->
   forall cat_id : string,
     cat_id ∈ ["1"; "2"; "3"; "4"] -> modify_category cat_id = None) /\
  ((main_schedule modify_category).1 = "0" <->
   (main_schedule modify_category).2 = []).
Proof.
  unfold main_schedule. cbn [fst snd omap list_omap].
  destruct (modify_category "1") as [c1|] eqn:H1,
           (modify_category "2") as [c2|] eqn:H2,
           (modify_category "3") as [c3|] eqn:H3,
           (modify_category "4") as [c4|] eqn:H4;
    cbn [mbind option_bind map fst snd length Nat.ltb Nat.leb].
  all: split; split.
  all: try (intros Hid; vm_compute in Hid; discriminate Hid).
  all: try (intros Hall;
            first [ rewrite Hall in H1 by set_solver; discriminate H1
                  | rewrite Hall in H2 by set_solver; discriminate H2
                  | rewrite Hall in H3 by set_solver; discriminate H3
                  | rewrite Hall in H4 by set_solver; discriminate H4 ]).
  all: try (intros Hnil;
            match type of Hnil with
            | sorted_by_epoch ?l = [] =>
                pose proof (sorted_by_epoch_Permutation l) as Hp;
                rewrite Hnil in Hp; apply Permutation_nil in Hp;
                discriminate Hp
            end).
  - intros _ cat_id Hin.
    repeat (apply elem_of_cons in Hin as [->|Hin]; [assumption|]).
    by apply elem_of_nil in Hin.
  - reflexivity.
  - reflexivity.
  - reflexivity.
Qed.

(** ** The gold labels of the tagger and the BIOES column of the pipeline *)

Lemma bio_column_not_modified (tag_column : string) :
  tag_column +:+ "_bio" <> "modified".
Proof.
  intros H. assert (Hlen := f_equal String.length H).
  rewrite append_length in Hlen. simpl in Hlen.
  destruct tag_column as [|a [|b [|c [|d [|e tag_column]]]]];
    simpl in Hlen; try lia.
  simpl in H. discriminate H.
Qed.

Lemma get_label_add_label (t : Token) (column : string) :
  get_label (add_label t column "O") column = get_label t column.
Proof.
  unfold get_label, add_label; simpl. rewrite lookup_insert_eq.
  destruct (labels t !! column) as [[|value values]|]; reflexivity.
Qed.

Lemma get_label_set_label_ne (t : Token) (column column' value : string) :
  column <> column' ->
  get_label (set_label t column value) column' = get_label t column'.
Proof.
  intros Hne. unfold get_label, set_label; simpl.
  by rewrite lookup_insert_ne.
Qed.

Lemma map_alter_set_label (column value : string) (i : nat)
    (toks : list Token) :
  (i < length toks)%nat ->
  list_assign (map (fun t => get_label t column) toks) i value
  = Some (map (fun t => get_label t column)
              (alter (fun t => set_label t column value) i toks)).
Proof.
  intros Hi. unfold list_assign.
  rewrite length_map. destruct (Nat.ltb_spec i (length toks)); [|lia].
  f_equal. clear -toks. revert i.
  induction toks as [|t toks IH]; intros [|i]; simpl; try reflexivity.
  - by rewrite get_label_set_label.
  - f_equal. apply IH.
Qed.

Lemma list_assign_all_alter (column value : string) (indices : list nat)
    (toks : list Token) :
  Forall (fun i => (i < length toks)%nat) indices ->
  list_assign_all (map (fun t => get_label t column) toks) indices value
  = Some (map (fun t => get_label t column)
              (foldl (fun toks i =>
                        alter (fun t => set_label t column value) i toks)
                     toks indices)).
Proof.
  unfold list_assign_all. revert toks.
  induction indices as [|i indices IH]; intros toks Hin; [reflexivity|].
  apply Forall_cons in Hin as [Hi Hin]. simpl.
  rewrite map_alter_set_label by exact Hi.
  apply IH. eapply Forall_impl; [exact Hin|].
  intros j Hj. by rewrite length_alter.
Qed.

Lemma length_encode_span (column : string) (toks : list Token)
    (span : nat * nat * string) :
  length (encode_span column toks span) = length toks.
Proof.
  destruct span as [[first last] value]. unfold encode_span.
  destruct (Nat.eqb first last); [apply length_alter|].
  generalize (seq (S first) (last - S first)).
  intros indices.
  transitivity
    (length (alter (fun t => set_label t column ("E-" +:+ value)) last
               (alter (fun t => set_label t column ("B-" +:+ value)) first
                  toks))); [|by rewrite !length_alter].
  generalize (alter (fun t => set_label t column ("E-" +:+ value)) last
                (alter (fun t => set_label t column ("B-" +:+ value)) first
                   toks)).
  induction indices as [|i indices IH]; intros l; simpl; [reflexivity|].
  by rewrite IH, length_alter.
Qed.

Lemma gold_span_labels_encode_span (column : string) (toks : list Token)
    (first last : nat) (value : string) :
  (first <= last < length toks)%nat ->
  gold_span_labels "BIOES" (map (fun t => get_label t column) toks)
                   (first, last, value)
  = Some (map (fun t => get_label t column)
              (encode_span column toks (first, last, value))).
Proof.
  intros Hspan. unfold gold_span_labels, encode_span.
  change (String.eqb "BIOES" "BIOES") with true. cbv iota.
  destruct (Nat.eqb first last).
  - apply map_alter_set_label. lia.
  - rewrite map_alter_set_label by lia. step_bind.
    rewrite map_alter_set_label by (rewrite length_alter; lia). step_bind.
    apply list_assign_all_alter.
    apply Forall_forall. intros i Hi.
    apply elem_of_seq in Hi.
    rewrite !length_alter. lia.
Qed.

Lemma gold_labels_of_sentence (column : string)
    (sentence_spans : list (nat * nat * string)) (toks : list Token) :
  Forall (fun '(first, last, _) => (first <= last < length toks)%nat)
         sentence_spans ->
  foldl (fun acc span => l ← acc; gold_span_labels "BIOES" l span)
        (Some (map (fun t => get_label t column) toks)) sentence_spans
  = Some (map (fun t => get_label t column)
              (foldl (encode_span column) toks sentence_spans)).
Proof.
  revert toks.
  induction sentence_spans as [|[[first last] value] sentence_spans IH];
    intros toks Hspans; [reflexivity|].
  apply Forall_cons in Hspans as [Hspan Hspans]. cbn [foldl]. step_bind.
  rewrite gold_span_labels_encode_span by exact Hspan.
  apply IH. eapply Forall_impl; [exact Hspans|].
  intros [[f l] v] Hfl. by rewrite length_encode_span.
Qed.

Lemma mapM_map_Some {A B : Type} (f : A -> option B) (g : A -> B)
    (l : list A) :
  Forall (fun x => f x = Some (g x)) l -> mapM f l = Some (map g l).
Proof.
  induction 1 as [|x l Hx _ IH]; [reflexivity|].
  simpl. rewrite Hx. simpl. by rewrite IH.
Qed.

Lemma initial_bio_tags (tag_column : string) (toks : list Token) :
  Forall (fun token => get_label token (tag_column +:+ "_bio") = "O") toks ->
  map (fun token =>
         get_label (set_label (add_label token (tag_column +:+ "_bio") "O")
                              "modified" "False")
                   (tag_column +:+ "_bio"))
      toks
  = repeat "O" (length toks).
Proof.
  induction 1 as [|token toks Htoken _ IH]; [reflexivity|].
  simpl. f_equal; [|exact IH].
  rewrite get_label_set_label_ne
    by (intros Heq; symmetry in Heq; by apply bio_column_not_modified in Heq).
  by rewrite get_label_add_label.
Qed.

(** X11. On sentences whose spans lie within their tokens and whose
    tokens carry no tag yet in the BIOES column (or the tag "O"), the
    gold labels the tagger derives from the spans in BIOES format are the
    tags that [add_bioes_ner_tags] writes to that column. *)
Theorem gold_labels_are_bioes_tags (self_label_type tag_column : string)
    (dataset : list Sentence) :
  Forall (fun sent =>
            Forall (fun token => get_label token (tag_column +:+ "_bio") = "O")
                   (tokens sent) /\
            Forall (fun '(first, last, _) =>
                      (first <= last < length (tokens sent))%nat)
                   (get_spans sent tag_column))
         dataset ->
  _get_gold_labels self_label_type true "BIOES" dataset (Some tag_column)
  = Some (concat
            (map (fun sent =>
                    map (fun token => get_label token (tag_column +:+ "_bio"))
                        (tokens sent))
                 (add_bioes_ner_tags dataset tag_column None))).
Proof.
  intros Hdataset. unfold _get_gold_labels, add_bioes_ner_tags.
  cbn [default]. rewrite map_map.
  erewrite mapM_map_Some; [reflexivity|].
  eapply Forall_impl; [exact Hdataset|].
  intros sent [Htokens Hspans]. cbn [tokens with_tokens].
  rewrite <- gold_labels_of_sentence
    by (by rewrite length_map).
  f_equal. f_equal. rewrite map_map.
  symmetry. by apply initial_bio_tags.
Qed.

Lemma gold_labels_are_bioes_tags_witness :
  _get_gold_labels "ner" true "BIOES" [paris] (Some "ner") = Some ["S-LOC"].
Proof.
  etrans; [apply (gold_labels_are_bioes_tags "ner" "ner" [paris])|].
  - constructor; [split|constructor].
    + repeat constructor.
    + vm_compute. repeat constructor.
  - vm_compute. reflexivity.
Defined.

Lemma list_assign_length {A : Type} (l l' : list A) (i : nat) (x : A) :
  list_assign l i x = Some l' -> length l' = length l.
Proof.
  unfold list_assign. destruct (i <? length l)%nat; [|discriminate].
  intros [= <-]. apply length_insert.
Qed.

Lemma list_assign_all_length {A : Type} (indices : list nat) (l l' : list A)
    (x : A) :
  list_assign_all l indices x = Some l' -> length l' = length l.
Proof.
  unfold list_assign_all. revert l.
  induction indices as [|i indices IH]; intros l; simpl.
  - by intros [= <-].
  - destruct (list_assign l i x) as [l1|] eqn:H1; simpl.
    + intros H. rewrite (IH _ H). by eapply list_assign_length.
    + intros H. exfalso. clear -H.
      induction indices as [|j indices IH]; simpl in H; [discriminate|].
      exact (IH H).
Qed.

Lemma gold_span_labels_length (tag_format : string)
    (sentence_labels l' : list string) (span : nat * nat * string) :
  gold_span_labels tag_format sentence_labels span = Some l' ->
  length l' = length sentence_labels.
Proof.
  destruct span as [[first last] value]. unfold gold_span_labels.
  destruct (String.eqb tag_format "BIOES").
  - destruct (Nat.eqb first last); [apply list_assign_length|].
    destruct (list_assign sentence_labels first _) as [l1|] eqn:H1;
      [|discriminate]. step_bind.
    destruct (list_assign l1 last _) as [l2|] eqn:H2; [|discriminate].
    step_bind. intros H3.
    rewrite (list_assign_all_length _ _ _ _ H3).
    rewrite (list_assign_length _ _ _ _ H2).
    by rewrite (list_assign_length _ _ _ _ H1).
  - destruct (list_assign sentence_labels first _) as [l1|] eqn:H1;
      [|discriminate]. step_bind. intros H3.
    rewrite (list_assign_all_length _ _ _ _ H3).
    by rewrite (list_assign_length _ _ _ _ H1).
Qed.

Lemma gold_sentence_labels_length (tag_format : string)
    (sentence_spans : list (nat * nat * string))
    (sentence_labels l' : list string) :
  foldl (fun acc span => l ← acc; gold_span_labels tag_format l span)
        (Some sentence_labels) sentence_spans = Some l' ->
  length l' = length sentence_labels.
Proof.
  revert sentence_labels.
  induction sentence_spans as [|span sentence_spans IH];
    intros sentence_labels; cbn [foldl]; step_bind.
  - by intros [= <-].
  - destruct (gold_span_labels tag_format sentence_labels span)
      as [l1|] eqn:H1.
    + intros H. rewrite (IH _ H). by eapply gold_span_labels_length.
    + intros H. exfalso. clear -H.
      induction sentence_spans as [|s sentence_spans IH];
        cbn [foldl] in H; [discriminate|].
      exact (IH H).
Qed.

(** X12. Whatever the tag format and the label type, the gold labels of a
    batch, when they are returned, are one per token of the batch, in the
    order of the tokens: they line up with the rows of the scores. *)
Theorem gold_labels_one_per_token (self_label_type : string)
    (predict_spans : bool) (tag_format : string) (sentences : list Sentence)
    (label_type : option string) (gold_labels : list string) :
  _get_gold_labels self_label_type predict_spans tag_format sentences
                   label_type = Some gold_labels ->
  length gold_labels = length (concat (map tokens sentences)).
Proof.
  unfold _get_gold_labels. destruct predict_spans.
  - intros H. apply fmap_Some in H as (all_sentence_labels & H & ->).
    apply mapM_Some in H.
    induction H as [|sentence sentence_labels sentences all_labels H _ IH];
      [reflexivity|].
    simpl. rewrite !length_app, IH. f_equal.
    apply gold_sentence_labels_length in H.
    by rewrite H, repeat_length.
  - intros [= <-].
    induction sentences as [|sentence sentences IH]; [reflexivity|].
    simpl. by rewrite !length_app, IH, length_map.
Qed.

Lemma gold_labels_one_per_token_witness :
  _get_gold_labels "ner" true "BIO" [paris] None = Some ["B-LOC"] /\
  length ["B-LOC"] = length (concat (map tokens [paris])).
Proof.
  assert (H : _get_gold_labels "ner" true "BIO" [paris] None
              = Some ["B-LOC"]) by (vm_compute; reflexivity).
  split; [exact H|].
  exact (gold_labels_one_per_token "ner" true "BIO" [paris] None _ H).
Defined.

(** ** A category id the passes do not know *)

Lemma for_each_raises {St A : Type} (body : St -> A -> option (St * A))
    (l : list A) (x : A) (st : St) :
  x ∈ l -> (forall st : St, body st x = None) -> for_each body st l = None.
Proof.
  intros Hx Hbody. revert st.
  induction l as [|y l IH]; intros st; [by apply elem_of_nil in Hx|].
  apply elem_of_cons in Hx as [<-|Hx]; simpl.
  - by rewrite Hbody.
  - destruct (body st y) as [[st1 y']|]; [|reflexivity]. simpl.
    by rewrite (IH Hx).
Qed.

Lemma in_category_unknown (category_id observed predicted : string) :
  category_conditions category_id = None ->
  PyStr.endswith observed "MASK" = false ->
  in_category category_id observed predicted = None.
Proof. unfold in_category. by intros -> ->. Qed.

(** X13. With a category id that is not one of "1" to "4", both passes
    raise (the lookup of the category's conditions fails) if the data set
    holds a token whose observed tag is not a mask: the conditions are
    looked up only after the test for a mask. *)
Theorem unknown_category_raises
    (get_spans_from_bio : list string -> list (list nat * Q * string))
    (dataset : list Sentence)
    (tag_column new_tag_column prediction_bio_column metric : string)
    (threshold : Q) (direction category_id : string)
    (sent : Sentence) (token : Token) :
  category_conditions category_id = None ->
  sent ∈ dataset -> token ∈ tokens sent ->
  PyStr.endswith (get_label token (tag_column +:+ "_bio")) "MASK" = false ->
  relabel_category get_spans_from_bio dataset tag_column new_tag_column
    prediction_bio_column metric threshold direction category_id = None /\
  mask_category get_spans_from_bio dataset tag_column new_tag_column
    prediction_bio_column metric threshold direction category_id = None.
Proof.
  intros Hid Hsent Htoken Hmask. split.
  - unfold relabel_category.
    apply (for_each_raises _ dataset sent); [exact Hsent|].
    intros counts. unfold relabel_sentence.
    rewrite (for_each_raises _ (tokens sent) token); [reflexivity|exact Htoken|].
    intros st. unfold relabel_token.
    by rewrite in_category_unknown.
  - unfold mask_category.
    rewrite (for_each_raises _ dataset sent); [reflexivity|exact Hsent|].
    intros tokens_changed. unfold mask_sentence.
    rewrite (for_each_raises _ (tokens sent) token); [reflexivity|exact Htoken|].
    intros st. unfold mask_token.
    by rewrite in_category_unknown.
Qed.

Lemma unknown_category_raises_witness :
  relabel_category decode two_tokens "ner" "ner_new" "predicted_bio"
    "confidence" 0.5 "left" "12" = None /\
  mask_category decode two_tokens "ner" "ner_new" "predicted_bio"
    "confidence" 0.5 "left" "12" = None.
Proof.
  apply (unknown_category_raises decode two_tokens "ner" "ner_new"
           "predicted_bio" "confidence" 0.5 "left" "12"
           {| tokens := [seen "B-LOC" "B-PER" "B-LOC" 0.2;
                         seen "I-PER" "E-PER" "I-PER" 0.9];
              spans := ∅ |}
           (seen "B-LOC" "B-PER" "B-LOC" 0.2)).
  - reflexivity.
  - by left.
  - by left.
  - vm_compute. reflexivity.
Defined.

(** ** Reading an epoch log *)

Lemma foldl_bind_None {A B : Type} (f : A -> B -> option A) (l : list B) :
  foldl (fun acc x => a ← acc; f a x) None l = None.
Proof. induction l as [|x l IH]; [reflexivity|exact IH]. Qed.

Lemma log_token_frame_refl (metric predicted_bio_column tag_bio_column : string)
    (t : Token) :
  log_token_frame metric predicted_bio_column tag_bio_column t t.
Proof. unfold log_token_frame. auto. Qed.

Lemma log_tokens_frame_refl
    (metric predicted_bio_column tag_bio_column : string)
    (toks : list Token) :
  Forall2 (log_token_frame metric predicted_bio_column tag_bio_column)
          toks toks.
Proof.
  apply Forall_Forall2_diag, Forall_forall.
  intros t _. apply log_token_frame_refl.
Qed.

Lemma log_frame_refl (metric predicted_bio_column tag_bio_column : string)
    (dataset : list Sentence) :
  log_frame metric predicted_bio_column tag_bio_column dataset dataset.
Proof.
  unfold log_frame. induction dataset as [|s dataset IH]; constructor;
    [|exact IH].
  split; [reflexivity|apply log_tokens_frame_refl].
Qed.

Lemma log_frame_trans (metric predicted_bio_column tag_bio_column : string)
    (d1 d2 d3 : list Sentence) :
  log_frame metric predicted_bio_column tag_bio_column d1 d2 ->
  log_frame metric predicted_bio_column tag_bio_column d2 d3 ->
  log_frame metric predicted_bio_column tag_bio_column d1 d3.
Proof.
  unfold log_frame. apply Forall2_trans.
  intros s1 s2 s3 [Hs12 Ht12] [Hs23 Ht23]. split; [congruence|].
  revert Ht12 Ht23. apply Forall2_trans.
  intros t1 t2 t3 (Htx12 & Hl12 & Hm12) (Htx23 & Hl23 & Hm23).
  repeat split.
  - congruence.
  - intros c Hp Ht. rewrite Hl23, Hl12 by assumption. reflexivity.
  - intros m Hm. rewrite Hm23, Hm12 by assumption. reflexivity.
Qed.

Lemma update_line_frame (metric predicted_bio_column tag_bio_column : string)
    (dataset dataset' : list Sentence) (sentence sentence' : option nat)
    (line : LogLine) :
  update_line metric predicted_bio_column tag_bio_column (dataset, sentence)
              line = Some (dataset', sentence') ->
  log_frame metric predicted_bio_column tag_bio_column dataset dataset'.
Proof.
  unfold update_line. destruct line as [|row].
  - intros [= <- _]. apply log_frame_refl.
  - destruct (dataset !! default (sent_index row) sentence) as [sent|] eqn:Hs;
      [|discriminate]. step_bind.
    destruct (metric_columns row !! metric) as [metric_value|];
      [|discriminate]. step_bind.
    destruct (tokens sent !! token_index row) as [token|] eqn:Ht;
      [|discriminate]. step_bind.
    intros [= <- _].
    rewrite <- (list_insert_id dataset _ sent Hs) at 1.
    apply Forall2_insert; [apply log_frame_refl|].
    split; [reflexivity|]. cbn [tokens with_tokens].
    rewrite <- (list_insert_id (tokens sent) _ token Ht) at 1.
    apply Forall2_insert.
    + apply log_tokens_frame_refl.
    + unfold log_token_frame, set_metric, set_label; simpl.
      repeat split.
      * intros c Hp Htag. by rewrite !lookup_insert_ne.
      * intros m Hm. by rewrite lookup_insert_ne.
Qed.

Lemma update_lines_frame (metric predicted_bio_column tag_bio_column : string)
    (epoch_log : list LogLine) (dataset dataset' : list Sentence)
    (sentence sentence' : option nat) :
  foldl (fun acc line =>
           st ← acc;
           update_line metric predicted_bio_column tag_bio_column st line)
        (Some (dataset, sentence)) epoch_log = Some (dataset', sentence') ->
  log_frame metric predicted_bio_column tag_bio_column dataset dataset'.
Proof.
  revert dataset sentence.
  induction epoch_log as [|line epoch_log IH]; intros dataset sentence;
    cbn [foldl]; step_bind.
  - intros [= <- _]. apply log_frame_refl.
  - destruct (update_line _ _ _ (dataset, sentence) line)
      as [[dataset1 sentence1]|] eqn:Hline.
    + intros H. eapply log_frame_trans.
      * eapply update_line_frame. exact Hline.
      * eapply IH. exact H.
    + by rewrite foldl_bind_None.
Qed.

(** X14. Reading an epoch log onto the data set keeps the sentences, their
    spans and the text of every token, and of a token's labels and
    metrics it rewrites only the two BIO columns and the metric it is
    given; the working column of the passes and the span labels are left
    as they are. *)
Theorem epoch_log_frame (epoch_log : list LogLine)
    (dataset dataset' : list Sentence)
    (metric predicted_bio_column tag_bio_column : string) :
  update_dataset_with_epoch_log_info epoch_log dataset metric
    predicted_bio_column tag_bio_column = Some dataset' ->
  log_frame metric predicted_bio_column tag_bio_column dataset dataset'.
Proof.
  unfold update_dataset_with_epoch_log_info. intros H.
  apply fmap_Some in H as ([dataset1 sentence1] & H & ->).
  eapply update_lines_frame. exact H.
Qed.

Lemma epoch_log_frame_witness :
  exists dataset' : list Sentence,
    update_dataset_with_epoch_log_info [log_row "O" "S-LOC" 0.2; Blank]
      paris_train "confidence" "predicted_bio" "ner_bio" = Some dataset' /\
    log_frame "confidence" "predicted_bio" "ner_bio" paris_train dataset'.
Proof.
  destruct (update_dataset_with_epoch_log_info
              [log_row "O" "S-LOC" 0.2; Blank]
              paris_train "confidence" "predicted_bio" "ner_bio")
    as [dataset'|] eqn:H.
  - exists dataset'. split; [reflexivity|].
    exact (epoch_log_frame _ _ _ _ _ _ H).
  - vm_compute in H. discriminate H.
Defined.

Lemma update_line_in_block
    (metric predicted_bio_column tag_bio_column : string)
    (dataset : list Sentence) (sentence : option nat) (row : LogRow) :
  update_line metric predicted_bio_column tag_bio_column (dataset, sentence)
              (Row row)
  = (fun dataset' => (dataset', Some (default (sent_index row) sentence)))
      <$> update_dataset_with_epoch_log_info
            [Row (in_sentence (default (sent_index row) sentence) row)]
            dataset metric predicted_bio_column tag_bio_column.
Proof.
  unfold update_dataset_with_epoch_log_info, update_line.
  cbn [foldl mbind option_bind default in_sentence sent_index token_index
       predicted noisy metric_columns].
  destruct (dataset !! default (sent_index row) sentence) as [sent|];
    [|reflexivity]. step_bind.
  destruct (metric_columns row !! metric) as [metric_value|];
    [|reflexivity]. step_bind.
  destruct (tokens sent !! token_index row) as [token|]; reflexivity.
Qed.

Lemma update_lines_block_rows
    (metric predicted_bio_column tag_bio_column : string)
    (epoch_log : list LogLine) (dataset : list Sentence)
    (sentence : option nat) :
  fst <$> foldl (fun acc line =>
                   st ← acc;
                   update_line metric predicted_bio_column tag_bio_column
                               st line)
                (Some (dataset, sentence)) epoch_log
  = foldl (fun acc row =>
             dataset ← acc;
             update_dataset_with_epoch_log_info [Row row] dataset metric
               predicted_bio_column tag_bio_column)
          (Some dataset) (block_rows sentence epoch_log).
Proof.
  revert dataset sentence.
  induction epoch_log as [|[|row] epoch_log IH]; intros dataset sentence.
  - reflexivity.
  - cbn [foldl block_rows]. step_bind. apply IH.
  - cbn [foldl block_rows]. step_bind.
    rewrite update_line_in_block.
    destruct (update_dataset_with_epoch_log_info _ dataset _ _ _)
      as [dataset1|]; simpl.
    + apply IH.
    + by rewrite !foldl_bind_None.
Qed.

(** X15. Reading an epoch log is reading its rows one by one, each as the
    first row of a block of its own, once every row carries the sentence
    index of the first row of its block: the sentence is looked up at the
    first row after the start of the log or a blank line, and the rows up
    to the next blank line go to that sentence, whatever sentence index
    they carry. *)
Theorem epoch_log_block_sentence (epoch_log : list LogLine)
    (dataset : list Sentence)
    (metric predicted_bio_column tag_bio_column : string) :
  update_dataset_with_epoch_log_info epoch_log dataset metric
    predicted_bio_column tag_bio_column
  = foldl (fun acc row =>
             dataset ← acc;
             update_dataset_with_epoch_log_info [Row row] dataset metric
               predicted_bio_column tag_bio_column)
          (Some dataset) (block_rows None epoch_log).
Proof.
  unfold update_dataset_with_epoch_log_info at 1.
  apply update_lines_block_rows.
Qed.

(** Two blocks: the second row of the first block goes to the sentence of
    its first row, the row after the blank line to its own. *)
Lemma block_rows_two_blocks (r1 r2 r3 : LogRow) :
  block_rows None [Row r1; Row r2; Blank; Row r3]
  = [in_sentence (sent_index r1) r1; in_sentence (sent_index r1) r2;
     in_sentence (sent_index r3) r3].
Proof. reflexivity. Qed.

(** ** Copying the new labels back *)

Lemma set_label_twice (t : Token) (column value : string) :
  set_label (set_label t column value) column value
  = set_label t column value.
Proof. unfold set_label; simpl. by rewrite insert_insert_eq. Qed.

(** X16. Copying the new labels onto the original column a second time
    changes nothing: after the first copy every labelled token and span
    already carries its new value in the original column, and the new
    column is as it was. *)
Theorem copy_new_tag_to_original_idempotent (dataset : list Sentence)
    (tag_column new_tag_column : string) :
  tag_column <> new_tag_column ->
  copy_new_tag_to_original
    (copy_new_tag_to_original dataset tag_column new_tag_column)
    tag_column new_tag_column
  = copy_new_tag_to_original dataset tag_column new_tag_column.
Proof.
  intros Hne. unfold copy_new_tag_to_original. rewrite map_map.
  apply map_ext. intros sent. cbn [tokens spans]. f_equal.
  - rewrite map_map. apply map_ext. intros token.
    destruct (labels token !! new_tag_column ≫= last) as [value|] eqn:Hnew;
      [|by rewrite Hnew].
    cbn [labels set_label]. rewrite lookup_insert_ne by exact Hne.
    rewrite Hnew. apply set_label_twice.
  - rewrite <- map_fmap_compose. apply map_fmap_ext.
    intros bounds span_labels _. simpl.
    destruct (span_labels !! new_tag_column) as [[value score]|] eqn:Hnew;
      [|by rewrite Hnew].
    rewrite lookup_insert_ne by exact Hne.
    rewrite Hnew. by rewrite insert_insert_eq.
Qed.

Lemma copy_new_tag_to_original_idempotent_witness :
  copy_new_tag_to_original
    (copy_new_tag_to_original two_tokens "ner_bio" "predicted_bio")
    "ner_bio" "predicted_bio"
  = copy_new_tag_to_original two_tokens "ner_bio" "predicted_bio".
Proof.
  apply (copy_new_tag_to_original_idempotent two_tokens "ner_bio"
           "predicted_bio").
  discriminate.
Defined.

(** ** What the passes write and count *)

Lemma for_each_measure {St A : Type} (body : St -> A -> option (St * A))
    (mu : St -> Z) (w : A -> Z) (R : A -> A -> Prop) :
  (forall st x st' x',
     body st x = Some (st', x') -> mu st <= mu st' <= mu st + w x /\ R x x') ->
  forall l st st' l',
    for_each body st l = Some (st', l') ->
    mu st <= mu st' <= mu st + foldr (fun x acc => w x + acc) 0 l /\
    Forall2 R l l'.
Proof.
  intros Hbody. induction l as [|x l IH]; simpl; intros st st' l' H.
  - injection H as <- <-. split; [lia|constructor].
  - destruct (body st x) as [[st1 x']|] eqn:Hx; simpl in H; [|discriminate].
    destruct (for_each body st1 l) as [[st2 l'']|] eqn:Hl; simpl in H;
      [|discriminate].
    injection H as <- <-.
    apply Hbody in Hx as [Hx HR]. apply IH in Hl as [Hl HRl].
    split; [lia|by constructor].
Qed.

Lemma foldr_one_length {A : Type} (l : list A) :
  foldr (fun _ acc => 1 + acc) 0 l = Z.of_nat (length l).
Proof. induction l as [|x l IH]; simpl; [reflexivity|]. rewrite IH. lia. Qed.

Lemma foldr_tokens_length (dataset : list Sentence) :
  foldr (fun s acc => Z.of_nat (length (tokens s)) + acc) 0 dataset
  = Z.of_nat (length (concat (map tokens dataset))).
Proof.
  induction dataset as [|s dataset IH]; simpl; [reflexivity|].
  rewrite IH, length_app. lia.
Qed.

Lemma mask_token_writes (tag_bio new_bio pred_bio metric : string)
    (threshold : Q) (direction category_id : string) (n n' : Z)
    (t t' : Token) :
  mask_token tag_bio new_bio pred_bio metric threshold direction
             category_id n t = Some (n', t') ->
  n <= n' <= n + 1 /\ (t' = t \/ t' = set_label t new_bio "S-MASK").
Proof.
  unfold mask_token. intros H.
  repeat match type of H with
         | context [?o ≫= _] => destruct o eqn:?; simpl in H
         | context [if ?b then _ else _] => destruct b eqn:?
         end; simplify_eq; split; auto; lia.
Qed.

(** X17. A mask pass that returns has written nothing but the tag S-MASK,
    and that only to the working BIO column of tokens: every token is as
    it was or has that tag set.  Its first count lies between 0 and the
    number of tokens of the data set, its second count is 0. *)
Theorem mask_category_writes_masks
    (get_spans_from_bio : list string -> list (list nat * Q * string))
    (dataset dataset' : list Sentence)
    (tag_column new_tag_column prediction_bio_column metric : string)
    (threshold : Q) (direction category_id : string)
    (tokens_changed tokens_changed_additionally : Z) :
  mask_category get_spans_from_bio dataset tag_column new_tag_column
    prediction_bio_column metric threshold direction category_id
  = Some (tokens_changed, tokens_changed_additionally, dataset') ->
  tokens_changed_additionally = 0 /\
  0 <= tokens_changed <= Z.of_nat (length (concat (map tokens dataset))) /\
  Forall2 (fun s s' =>
             Forall2 (fun t t' =>
                        t' = t \/
                        t' = set_label t (new_tag_column +:+ "_bio") "S-MASK")
                     (tokens s) (tokens s'))
          dataset dataset'.
Proof.
  unfold mask_category. intros H.
  destruct (for_each _ _ dataset) as [[n ds]|] eqn:Hds; simpl in H;
    [|discriminate].
  injection H as <- <- <-. split; [reflexivity|].
  rewrite <- foldr_tokens_length.
  eapply (for_each_measure _ (fun n : Z => n)) in Hds; [exact Hds|].
  intros n0 sent n1 sent'. unfold mask_sentence. intros H.
  destruct (for_each _ _ (tokens sent)) as [[n2 toks]|] eqn:Htoks;
    simpl in H; [|discriminate].
  destruct (write_spans _ _ _ _) as [sent1|] eqn:Hw; simpl in H;
    [|discriminate].
  injection H as <- <-.
  apply write_spans_frame in Hw as [-> _]. cbn [tokens with_tokens].
  rewrite <- foldr_one_length.
  eapply (for_each_measure _ (fun n : Z => n) (fun _ => 1)); [|exact Htoks].
  intros ? ? ? ?. apply mask_token_writes.
Qed.

Lemma mask_category_writes_masks_witness :
  exists (changed additionally : Z) (dataset' : list Sentence),
    mask_category decode two_tokens "ner" "ner_new" "predicted_bio"
      "confidence" 0.5 "left" "4" = Some (changed, additionally, dataset') /\
    additionally = 0 /\
    0 <= changed <= Z.of_nat (length (concat (map tokens two_tokens))) /\
    Forall2 (fun s s' =>
               Forall2 (fun t t' =>
                          t' = t \/ t' = set_label t "ner_new_bio" "S-MASK")
                       (tokens s) (tokens s'))
            two_tokens dataset'.
Proof.
  destruct (mask_category decode two_tokens "ner" "ner_new" "predicted_bio"
              "confidence" 0.5 "left" "4")
    as [[[changed additionally] dataset']|] eqn:H.
  - exists changed, additionally, dataset'. split; [reflexivity|].
    exact (mask_category_writes_masks _ _ _ _ _ _ _ _ _ _ _ _ H).
  - vm_compute in H. discriminate H.
Defined.

Lemma relabel_token_writes (tag_bio new_bio pred_bio metric : string)
    (threshold : Q) (direction category_id : string)
    (st st' : RelabelState) (t t' : Token) :
  relabel_token tag_bio new_bio pred_bio metric threshold direction
                category_id st t = Some (st', t') ->
  (tokens_changed st <= tokens_changed st' /\
   tokens_changed_additionally st <= tokens_changed_additionally st' /\
   tokens_changed st' + tokens_changed_additionally st'
   <= tokens_changed st + tokens_changed_additionally st + 1) /\
  (t' = t \/ t' = set_label t new_bio (get_label t pred_bio)).
Proof.
  unfold relabel_token. intros H.
  repeat match type of H with
         | context [?o ≫= _] => destruct o eqn:?; simpl in H
         | context [if ?b then _ else _] => destruct b eqn:?
         end; simplify_eq; simpl; (split; [lia|auto]).
Qed.

Lemma relabel_sentence_writes
    (get_spans_from_bio : list string -> list (list nat * Q * string))
    (tag_column new_tag_column pred_bio metric : string) (threshold : Q)
    (direction category_id : string) (counts counts' : Z * Z)
    (sent sent' : Sentence) :
  relabel_sentence get_spans_from_bio tag_column new_tag_column pred_bio
    metric threshold direction category_id counts sent
  = Some (counts', sent') ->
  (counts.1 <= counts'.1 <= counts.1 + Z.of_nat (length (tokens sent)) /\
   counts.2 <= counts'.2 <= counts.2 + Z.of_nat (length (tokens sent)) /\
   counts.1 + counts.2 <= counts'.1 + counts'.2
   <= counts.1 + counts.2 + Z.of_nat (length (tokens sent))) /\
  Forall2 (fun t t' =>
             t' = t \/
             t' = set_label t (new_tag_column +:+ "_bio")
                            (get_label t pred_bio))
          (tokens sent) (tokens sent').
Proof.
  unfold relabel_sentence. intros H.
  destruct (for_each _ _ (tokens sent)) as [[st toks]|] eqn:Htoks;
    simpl in H; [|discriminate].
  destruct (write_spans _ _ _ _) as [sent1|] eqn:Hw; simpl in H;
    [|discriminate].
  injection H as <- <-.
  apply write_spans_frame in Hw as [-> _]. cbn [tokens with_tokens fst snd].
  rewrite <- foldr_one_length.
  set (body := relabel_token (tag_column +:+ "_bio")
                (new_tag_column +:+ "_bio") pred_bio metric threshold
                direction category_id) in Htoks.
  pose proof (for_each_measure body tokens_changed (fun _ => 1)
                (fun _ _ => True)) as H1.
  pose proof (for_each_measure body tokens_changed_additionally (fun _ => 1)
                (fun _ _ => True)) as H2.
  pose proof (for_each_measure body
                (fun st => tokens_changed st + tokens_changed_additionally st)
                (fun _ => 1)
                (fun t t' =>
                   t' = t \/
                   t' = set_label t (new_tag_column +:+ "_bio")
                                  (get_label t pred_bio))) as H3.
  eapply H1 in Htoks as H1'; [destruct H1' as [H1' _]|].
  2:{ intros st0 x st1 x' Hx. apply relabel_token_writes in Hx.
      split; [lia|exact I]. }
  eapply H2 in Htoks as H2'; [destruct H2' as [H2' _]|].
  2:{ intros st0 x st1 x' Hx. apply relabel_token_writes in Hx.
      split; [lia|exact I]. }
  eapply H3 in Htoks as H3'; [destruct H3' as [H3' HR]|].
  2:{ intros st0 x st1 x' Hx. apply relabel_token_writes in Hx.
      split; [lia|tauto]. }
  cbn [tokens_changed tokens_changed_additionally] in H1', H2', H3'.
  split; [lia|exact HR].
Qed.

(** X18. A relabel pass that returns has written nothing but a token's own
    predicted tag, and that only to its working BIO column: every token
    is as it was or has its predicted tag set there.  Both counts are at
    least 0, and together they are at most the number of tokens of the
    data set. *)
Theorem relabel_category_writes_predictions
    (get_spans_from_bio : list string -> list (list nat * Q * string))
    (dataset dataset' : list Sentence)
    (tag_column new_tag_column prediction_bio_column metric : string)
    (threshold : Q) (direction category_id : string)
    (tokens_changed tokens_changed_additionally : Z) :
  relabel_category get_spans_from_bio dataset tag_column new_tag_column
    prediction_bio_column metric threshold direction category_id
  = Some (tokens_changed, tokens_changed_additionally, dataset') ->
  0 <= tokens_changed /\ 0 <= tokens_changed_additionally /\
  tokens_changed + tokens_changed_additionally
  <= Z.of_nat (length (concat (map tokens dataset))) /\
  Forall2 (fun s s' =>
             Forall2 (fun t t' =>
                        t' = t \/
                        t' = set_label t (new_tag_column +:+ "_bio")
                                       (get_label t prediction_bio_column))
                     (tokens s) (tokens s'))
          dataset dataset'.
Proof.
  unfold relabel_category. intros H.
  rewrite <- foldr_tokens_length.
  set (body := relabel_sentence get_spans_from_bio tag_column new_tag_column
                prediction_bio_column metric threshold direction category_id)
    in H.
  pose proof (for_each_measure body (fun counts : Z * Z => counts.1)
                (fun s => Z.of_nat (length (tokens s)))
                (fun _ _ => True)) as H1.
  pose proof (for_each_measure body (fun counts : Z * Z => counts.2)
                (fun s => Z.of_nat (length (tokens s)))
                (fun _ _ => True)) as H2.
  pose proof (for_each_measure body
                (fun counts : Z * Z => counts.1 + counts.2)
                (fun s => Z.of_nat (length (tokens s)))
                (fun s s' =>
                   Forall2 (fun t t' =>
                              t' = t \/
                              t' = set_label t (new_tag_column +:+ "_bio")
                                     (get_label t prediction_bio_column))
                           (tokens s) (tokens s'))) as H3.
  eapply H1 in H as H1'; [destruct H1' as [H1' _]|].
  2:{ intros st0 x st1 x' Hx. apply relabel_sentence_writes in Hx.
      split; [lia|exact I]. }
  eapply H2 in H as H2'; [destruct H2' as [H2' _]|].
  2:{ intros st0 x st1 x' Hx. apply relabel_sentence_writes in Hx.
      split; [lia|exact I]. }
  eapply H3 in H as H3'; [destruct H3' as [H3' HR]|].
  2:{ intros st0 x st1 x' Hx. apply relabel_sentence_writes in Hx.
      split; [lia|tauto]. }
  cbn [fst snd] in H1', H2', H3'.
  repeat split; [lia|lia|lia|exact HR].
Qed.

Lemma relabel_category_writes_predictions_witness :
  exists (changed additionally : Z) (dataset' : list Sentence),
    relabel_category decode two_tokens "ner" "ner_new" "predicted_bio"
      "confidence" 0.5 "left" "4" = Some (changed, additionally, dataset') /\
    0 <= changed /\ 0 <= additionally /\
    changed + additionally
    <= Z.of_nat (length (concat (map tokens two_tokens))) /\
    Forall2 (fun s s' =>
               Forall2 (fun t t' =>
                          t' = t \/
                          t' = set_label t "ner_new_bio"
                                         (get_label t "predicted_bio"))
                       (tokens s) (tokens s'))
            two_tokens dataset'.
Proof.
  destruct (relabel_category decode two_tokens "ner" "ner_new"
              "predicted_bio" "confidence" 0.5 "left" "4")
    as [[[changed additionally] dataset']|] eqn:H.
  - exists changed, additionally, dataset'. split; [reflexivity|].
    exact (relabel_category_writes_predictions _ _ _ _ _ _ _ _ _ _ _ _ H).
  - vm_compute in H. discriminate H.
Defined.

(** ** Span labels are never withdrawn *)

Lemma span_label_set_keeps (sent : Sentence) (first last : nat)
    (column value : string) (score : Q) (k : nat * nat) (c : string) :
  is_Some (span_label sent k c) ->
  is_Some (span_label (span_set_label sent first last column value score)
                      k c).
Proof.
  destruct (decide (c = column)) as [->|Hc];
    [|by rewrite span_label_set_ne].
  unfold span_label, span_set_label; simpl.
  destruct (decide (k = (first, last))) as [->|Hk].
  - intros _. rewrite lookup_insert_eq; simpl. by rewrite lookup_insert_eq.
  - by rewrite lookup_insert_ne.
Qed.

Lemma write_spans_keeps
    (get_spans_from_bio : list string -> list (list nat * Q * string))
    (new_column new_bio : string) (sent sent' : Sentence)
    (k : nat * nat) (c : string) :
  write_spans get_spans_from_bio new_column new_bio sent = Some sent' ->
  is_Some (span_label sent k c) -> is_Some (span_label sent' k c).
Proof.
  unfold write_spans.
  generalize (get_spans_from_bio
                (map (fun token => get_label token new_bio) (tokens sent))).
  intros found. revert sent.
  induction found as [|[[span_indices score] label] found IH];
    simpl; intros sent H Hk.
  - by injection H as <-.
  - destruct (head span_indices) as [first|]; simpl in H.
    2:{ exfalso. clear -H.
        induction found as [|[[? ?] ?] found IH]; simpl in H;
          [discriminate|auto]. }
    destruct (last span_indices) as [last|]; simpl in H.
    2:{ exfalso. clear -H.
        induction found as [|[[? ?] ?] found IH]; simpl in H;
          [discriminate|auto]. }
    apply IH in H; [exact H|].
    destruct (negb (String.eqb label "O")); [|exact Hk].
    by apply span_label_set_keeps.
Qed.

(** X19. Neither pass withdraws a span label: a span that carries a label
    in some column before a relabel or mask pass carries one in that
    column after it, also in the new column when the pass has masked or
    relabelled the span's tokens so that they no longer decode to it. *)
Theorem passes_keep_span_labels
    (get_spans_from_bio : list string -> list (list nat * Q * string))
    (dataset dataset' : list Sentence)
    (tag_column new_tag_column prediction_bio_column metric : string)
    (threshold : Q) (direction category_id : string)
    (tokens_changed tokens_changed_additionally : Z) :
  relabel_category get_spans_from_bio dataset tag_column new_tag_column
    prediction_bio_column metric threshold direction category_id
  = Some (tokens_changed, tokens_changed_additionally, dataset') \/
  mask_category get_spans_from_bio dataset tag_column new_tag_column
    prediction_bio_column metric threshold direction category_id
  = Some (tokens_changed, tokens_changed_additionally, dataset') ->
  Forall2 (fun s s' =>
             forall (k : nat * nat) (c : string),
               is_Some (span_label s k c) -> is_Some (span_label s' k c))
          dataset dataset'.
Proof.
  intros [H|H].
  - unfold relabel_category in H.
    eapply for_each_Forall2; [|exact H].
    intros counts sent counts' sent'. unfold relabel_sentence.
    intros Hsent k c.
    destruct (for_each _ _ (tokens sent)) as [[st toks]|];
      simpl in Hsent; [|discriminate].
    destruct (write_spans _ _ _ _) as [sent1|] eqn:Hw; simpl in Hsent;
      [|discriminate].
    injection Hsent as _ <-. exact (write_spans_keeps _ _ _ _ _ k c Hw).
  - unfold mask_category in H.
    destruct (for_each _ _ dataset) as [[n ds]|] eqn:Hds; simpl in H;
      [|discriminate].
    injection H as _ _ <-.
    eapply for_each_Forall2; [|exact Hds].
    intros n0 sent n1 sent'. unfold mask_sentence. intros Hsent k c.
    destruct (for_each _ _ (tokens sent)) as [[n2 toks]|];
      simpl in Hsent; [|discriminate].
    destruct (write_spans _ _ _ _) as [sent1|] eqn:Hw; simpl in Hsent;
      [|discriminate].
    injection Hsent as _ <-. exact (write_spans_keeps _ _ _ _ _ k c Hw).
Qed.

Lemma passes_keep_span_labels_witness :
  exists (changed additionally : Z) (dataset' : list Sentence),
    relabel_category decode paris_seen "ner" "ner_new" "predicted_bio"
      "confidence" 0.5 "left" "4" = Some (changed, additionally, dataset') /\
    working_tags dataset' = [["O"]] /\
    Forall2 (fun s s' =>
               forall (k : nat * nat) (c : string),
                 is_Some (span_label s k c) -> is_Some (span_label s' k c))
            paris_seen dataset' /\
    Forall (fun s' => is_Some (span_label s' (0%nat, 0%nat) "ner_new"))
           dataset'.
Proof.
  destruct (relabel_category decode paris_seen "ner" "ner_new"
              "predicted_bio" "confidence" 0.5 "left" "4")
    as [[[changed additionally] dataset']|] eqn:H.
  - pose proof (passes_keep_span_labels _ _ _ _ _ _ _ _ _ _ _ _
                  (or_introl H)) as Hkept.
    exists changed, additionally, dataset'. split; [reflexivity|].
    split; [|split; [exact Hkept|]].
    + vm_compute in H. injection H as _ _ <-. reflexivity.
    + unfold paris_seen in Hkept.
      apply Forall2_cons_inv_l in Hkept as (s' & rest & Hs & Hrest & ->).
      apply Forall2_nil_inv_l in Hrest as ->.
      constructor; [|constructor].
      apply Hs. vm_compute. by eexists.
  - vm_compute in H. discriminate H.
Defined.

(** ** A step without its epoch log *)

Lemma foldl_bind_raises {A B : Type} (f : A -> B -> option A) (l : list B)
    (x : B) (a : option A) :
  x ∈ l -> (forall st : A, f st x = None) ->
  foldl (fun acc x => st ← acc; f st x) a l = None.
Proof.
  intros Hx Hf. revert a.
  induction l as [|y l IH]; intros a; [by apply elem_of_nil in Hx|].
  apply elem_of_cons in Hx as [<-|Hx]; cbn [foldl].
  - destruct a as [st|]; simpl; [rewrite Hf|]; apply foldl_bind_None.
  - by apply IH.
Qed.

(** X20. If the log of a step's epoch is missing, the experiment raises,
    wherever the step stands in the schedule and whatever the other steps
    do: no data set comes back that has only part of the schedule
    applied. *)
Theorem missing_epoch_log_raises
    (get_spans_from_bio : list string -> list (list nat * Q * string))
    (tag_type category_id : string) (epoch_logs : gmap Z (list LogLine))
    (train : list Sentence) (category_configs : list Config.category_config)
    (cfg : Config.category_config) :
  category_id <> "0" ->
  cfg ∈ category_configs ->
  epoch_logs !! Config.epoch_change cfg = None ->
  run_experiment get_spans_from_bio tag_type category_id epoch_logs train
                 category_configs = None.
Proof.
  intros Hid Hcfg Hlog. unfold run_experiment.
  apply String.eqb_neq in Hid. rewrite Hid. cbn [negb].
  unfold remediation_loop.
  rewrite (foldl_bind_raises _ category_configs cfg); [reflexivity|exact Hcfg|].
  intros [counts dataset]. unfold remediation_step. by rewrite Hlog.
Qed.

Lemma missing_epoch_log_raises_witness :
  run_experiment decode "ner" "4" paris_logs [paris]
    [schedule_step 1 "mask"; schedule_step 3 "relabel"] = None.
Proof.
  apply (missing_epoch_log_raises decode "ner" "4" paris_logs [paris]
           [schedule_step 1 "mask"; schedule_step 3 "relabel"]
           (schedule_step 3 "relabel")).
  - discriminate.
  - right. by left.
  - reflexivity.
Defined.
